(** * zrepl replication core: frame layer, RPC dispatcher, handler ACLs, pull

    A shallow embedding of the Go sources of the replication core and the
    properties the specification states about them.

    - [Rpc]      rpc/frame_layer.go: frames over a byte channel, the
                 frame-bridging reader and writer, HangUp.
    - [Dispatch] the RPC server: registry, [ServeRequest], [Serve]
                 (and the older single-request [ServeConn]).
    - [Cmd]      the server-side handler with its ACL checks, and the
                 per-filesystem body of [doPull].
    - [Daemon]   the loop of the daemon over the reports of its jobs.

    Go integers are modelled as [Z] with their wrap-around written out,
    octets as [Byte.byte], slices as lists, Go maps as [gmap].  A Go call
    that mutates its receiver becomes a function that returns the new
    state next to its results. *)

From Stdlib Require Import ZArith List String Lia Bool.
From Stdlib Require Import Strings.Byte.
From stdpp Require Import base option list gmap strings pretty.
Import ListNotations.

Local Open Scope Z_scope.

(** ** Go errors *)

(** An [error] value.  Sentinels ([io.EOF], [doneServeNext], ...) are
    compared by identity in the sources, so they are constructors of their
    own; wrapping an error gives a different value with the same cause. *)
Inductive error : Type :=
  | io_EOF
  | io_ErrUnexpectedEOF
  | io_ErrNoProgress
  | io_ErrShortWrite
  | os_ErrClosed
  | doneServeNext
  | ProtocolError
  | Errorf (msg : string)
  | Wrap (cause : error) (msg : string)
  | WithStack (cause : error).

(** [errors.WithStack(err)] and [errors.Wrap(err, msg)] return nil for a nil
    error. *)
Definition errors_WithStack (e : option error) : option error :=
  match e with Some c => Some (WithStack c) | None => None end.

Definition errors_Wrap (e : option error) (msg : string) : option error :=
  match e with Some c => Some (Wrap c msg) | None => None end.

(** [err.Error()]. *)
Fixpoint error_Error (e : error) : string :=
  match e with
  | io_EOF => "EOF"%string
  | io_ErrUnexpectedEOF => "unexpected EOF"
  | io_ErrNoProgress => "multiple Read calls return no data or error"
  | io_ErrShortWrite => "short write"
  | os_ErrClosed => "file already closed"
  | doneServeNext => "this should not cause a HangUp() in the server"
  | ProtocolError => "protocol error, server should hang up"
  | Errorf msg => msg
  | Wrap c msg => (msg ++ ": " ++ error_Error c)%string
  | WithStack c => error_Error c
  end.

(** What a Go function call ends in: it returns, or it panics. *)
Inductive outcome (A : Type) : Type :=
  | Ret (a : A)
  | Panic (msg : string).
Arguments Ret {A} a.
Arguments Panic {A} msg.

(** ** Fixed-width integers *)

Definition wrap_uint32 (z : Z) : Z := z mod 2 ^ 32.
Definition wrap_uint64 (z : Z) : Z := z mod 2 ^ 64.
(** Go's [int] on the 64-bit platforms the program is built for. *)
Definition wrap_int (z : Z) : Z := (z + 2 ^ 63) mod 2 ^ 64 - 2 ^ 63.

Definition byte_of_Z (z : Z) : byte :=
  default Byte.x00 (Byte.of_N (Z.to_N (z mod 256))).
Definition Z_of_byte (b : byte) : Z := Z.of_N (Byte.to_N b).

(** [binary.LittleEndian.PutUint32] and [binary.LittleEndian.Uint32]. *)
Definition PutUint32 (v : Z) : list byte :=
  [ byte_of_Z v; byte_of_Z (Z.shiftr v 8);
    byte_of_Z (Z.shiftr v 16); byte_of_Z (Z.shiftr v 24) ].

Definition Uint32 (bs : list byte) : Z :=
  match bs with
  | [b0; b1; b2; b3] =>
      Z.lor (Z.lor (Z.lor (Z_of_byte b0) (Z.shiftl (Z_of_byte b1) 8))
                   (Z.shiftl (Z_of_byte b2) 16))
            (Z.shiftl (Z_of_byte b3) 24)
  | _ => 0
  end.

(** [encoding/binary] writes a bool as one octet, 1 or 0, and reads any
    non-zero octet as true. *)
Definition put_bool (b : bool) : list byte := [ if b then Byte.x01 else Byte.x00 ].
Definition get_bool (bs : list byte) : bool :=
  match bs with
  | [b] => negb (Z_of_byte b =? 0)
  | _ => false
  end.

Module Rpc.

(** ** The byte channel ([io.ReadWriteCloser])

    The channel the transport hands in, as an in-memory duplex pipe end:
    [rbuf] holds what the peer has sent and the program has not read yet,
    [wbuf] what the program has written.  [wfault] and [cfault] are the
    transport's failures: a set [wfault] makes every [Write] fail (the peer
    is gone), [cfault] is what the transport's [Close] reports. *)
Record Conn : Type := mkConn {
  rbuf : list byte;
  wbuf : list byte;
  wfault : option error;
  cfault : option error;
  closed : bool
}.

Definition set_rbuf (c : Conn) (bs : list byte) : Conn :=
  mkConn bs (wbuf c) (wfault c) (cfault c) (closed c).
Definition set_wbuf (c : Conn) (bs : list byte) : Conn :=
  mkConn (rbuf c) bs (wfault c) (cfault c) (closed c).
Definition set_closed (c : Conn) : Conn :=
  mkConn (rbuf c) (wbuf c) (wfault c) (cfault c) true.

(** [rwc.Read(b)] with [len(b) = n]: the octets read and the error. *)
Definition Read (c : Conn) (n : nat) : (list byte * option error) * Conn :=
  if closed c then (([], Some os_ErrClosed), c)
  else match n, rbuf c with
       | O, _ => (([], None), c)
       | _, [] => (([], Some io_EOF), c)
       | _, _ => ((take n (rbuf c), None), set_rbuf c (drop n (rbuf c)))
       end.

(** [rwc.Write(b)]: the number of octets written and the error. *)
Definition Write (c : Conn) (b : list byte) : (nat * option error) * Conn :=
  if closed c then ((O, Some os_ErrClosed), c)
  else match wfault c with
       | Some e => ((O, Some e), c)
       | None => ((length b, None), set_wbuf c (wbuf c ++ b))
       end.

(** [rwc.Close()]. *)
Definition Close (c : Conn) : option error * Conn :=
  if closed c then (Some os_ErrClosed, c)
  else (cfault c, set_closed c).

(** [io.ReadFull(r, buf)] with [len(buf) = want], as [binary.Read] calls it:
    [Read] until the buffer is full or an error comes. *)
Fixpoint ReadFull_loop (fuel : nat) (c : Conn) (want : nat) (got : list byte)
  : (list byte * option error) * Conn :=
  if (want <=? length got)%nat then ((got, None), c)
  else match fuel with
       | O => ((got, Some io_ErrNoProgress), c)
       | S fuel' =>
           let '((bs, err), c') := Read c (want - length got) in
           let got' := got ++ bs in
           match err with
           | None => ReadFull_loop fuel' c' want got'
           | Some e =>
               if (want <=? length got')%nat then ((got', None), c')
               else match e, got' with
                    | io_EOF, _ :: _ => ((got', Some io_ErrUnexpectedEOF), c')
                    | _, _ => ((got', Some e), c')
                    end
           end
       end.

Definition io_ReadFull (c : Conn) (want : nat) : (list byte * option error) * Conn :=
  ReadFull_loop (S want) c want [].

(** ** Frames *)

(** [FrameType] is a [uint8]: any octet can arrive from the wire. *)
Definition FrameType := byte.
Definition FrameTypeHeader : FrameType := Byte.x01.
Definition FrameTypeData : FrameType := Byte.x02.
Definition FrameTypeTrailer : FrameType := Byte.x03.
Definition FrameTypeRST : FrameType := Byte.xff.

Record Frame : Type := mkFrame {
  Typ : FrameType;
  NoMoreFrames : bool;
  PayloadLength : Z          (* uint32 *)
}.

Definition zeroFrame : Frame := mkFrame Byte.x00 false 0.

Definition MAX_PAYLOAD_LENGTH : Z := 4 * 1024 * 1024.
Definition MAX_HEADER_LENGTH : Z := 4 * 1024.

Definition err_frame_too_long : error := Errorf "frame exceeds max payload length".

(** [binary.Write(l.rwc, binary.LittleEndian, &x)]: one [Write] of the
    encoded value. *)
Definition binary_Write (c : Conn) (bs : list byte) : option error * Conn :=
  let '((_, err), c') := Write c bs in (err, c').

(** [binary.Read(l.rwc, binary.LittleEndian, &x)] for a value of [n] octets. *)
Definition binary_Read (c : Conn) (n : nat) : (list byte * option error) * Conn :=
  io_ReadFull c n.

(** [MessageLayer.writeFrame]: the three fields are written first, the
    length is checked after them. *)
Definition writeFrame (c : Conn) (f : Frame) : option error * Conn :=
  match binary_Write c [Typ f] with
  | (Some e, c1) => (Some (WithStack e), c1)
  | (None, c1) =>
  match binary_Write c1 (put_bool (NoMoreFrames f)) with
  | (Some e, c2) => (Some (WithStack e), c2)
  | (None, c2) =>
  match binary_Write c2 (PutUint32 (PayloadLength f)) with
  | (Some e, c3) => (Some (WithStack e), c3)
  | (None, c3) =>
      if PayloadLength f >? MAX_PAYLOAD_LENGTH
      then (Some err_frame_too_long, c3)
      else (None, c3)
  end end end.

(** [MessageLayer.readFrame]: the frame read so far is returned next to the
    error, as the named results of the source are. *)
Definition readFrame (c : Conn) : (Frame * option error) * Conn :=
  let f := zeroFrame in
  match binary_Read c 1 with
  | ((_, Some e), c1) => ((f, Some (WithStack e)), c1)
  | ((bs, None), c1) =>
  let f := mkFrame (nth 0 bs Byte.x00) (NoMoreFrames f) (PayloadLength f) in
  match binary_Read c1 1 with
  | ((_, Some e), c2) => ((f, Some (WithStack e)), c2)
  | ((bs, None), c2) =>
  let f := mkFrame (Typ f) (get_bool bs) (PayloadLength f) in
  match binary_Read c2 4 with
  | ((_, Some e), c3) => ((f, Some (WithStack e)), c3)
  | ((bs, None), c3) =>
  let f := mkFrame (Typ f) (NoMoreFrames f) (Uint32 bs) in
  if PayloadLength f >? MAX_PAYLOAD_LENGTH
  then ((f, Some err_frame_too_long), c3)
  else ((f, None), c3)
  end end end.

(** [MessageLayer.HangUp]. *)
Definition HangUp (c : Conn) : option error * Conn :=
  let f := mkFrame FrameTypeRST false 0 in
  let '(rstFrameError, c1) := writeFrame c f in
  let '(closeErr, c2) := Close c1 in
  match rstFrameError with
  | Some e => (Some e, c2)
  | None => (closeErr, c2)
  end.

(** ** The frame-bridging reader *)

Record frameBridgingReader : Type := mkReader {
  r_frameType : FrameType;
  r_bytesLeftToLimit : Z;    (* int; < 0 means no limit *)
  r_f : Frame
}.

Definition NewFrameBridgingReader (frameType : FrameType) (totalLimit : Z)
  : frameBridgingReader :=
  mkReader frameType totalLimit zeroFrame.

Definition set_r_f (r : frameBridgingReader) (f : Frame) : frameBridgingReader :=
  mkReader (r_frameType r) (r_bytesLeftToLimit r) f.

(** The second half of [frameBridgingReader.Read]: read from the payload of
    the current frame, at most [len(b)] octets, at most what the frame and
    the limit leave. *)
Definition readPayload (r : frameBridgingReader) (c : Conn) (lenb : nat)
  : (list byte * option error) * (frameBridgingReader * Conn) :=
  let maxread := Z.of_nat lenb in
  let maxread :=
    if maxread >? PayloadLength (r_f r) then PayloadLength (r_f r) else maxread in
  let maxread :=
    if (r_bytesLeftToLimit r >? 0) && (maxread >? r_bytesLeftToLimit r)
    then r_bytesLeftToLimit r else maxread in
  let '((bs, err), c') := Read c (Z.to_nat maxread) in
  let nb := Z.of_nat (length bs) in
  let f' := mkFrame (Typ (r_f r)) (NoMoreFrames (r_f r))
                    (wrap_uint32 (PayloadLength (r_f r) - wrap_uint32 nb)) in
  let r' := mkReader (r_frameType r) (wrap_int (r_bytesLeftToLimit r - nb)) f' in
  ((bs, err), (r', c')).

(** [frameBridgingReader.Read(b)] with [len(b) = lenb].  On a frame of
    another type the source wraps a nil error, which stays nil: the call
    returns no octets and no error, and the frame stays current. *)
Definition frameBridgingReader_Read (r : frameBridgingReader) (c : Conn) (lenb : nat)
  : (list byte * option error) * (frameBridgingReader * Conn) :=
  if r_bytesLeftToLimit r =? 0 then (([], Some io_EOF), (r, c))
  else if PayloadLength (r_f r) =? 0 then
    if NoMoreFrames (r_f r) then (([], Some io_EOF), (r, c))
    else
      let '((f, err), c1) := readFrame c in
      let r1 := set_r_f r f in
      match err with
      | Some e => (([], Some (Wrap e "error reading frame")), (r1, c1))
      | None =>
          if negb (Byte.eqb (Typ f) (r_frameType r))
          then (([], errors_Wrap None "expected frame of type"), (r1, c1))
          else readPayload r1 c1 lenb
      end
  else readPayload r c lenb.

(** Reading a stream to its end, as [io.Copy] and [io.ReadAll] do: [Read]
    into a buffer of [lenb] octets until an error comes.  [None]: the
    reader has not finished within [fuel] calls. *)
Fixpoint readAll (fuel : nat) (r : frameBridgingReader) (c : Conn) (lenb : nat)
  : option ((list byte * error) * (frameBridgingReader * Conn)) :=
  match fuel with
  | O => None
  | S fuel' =>
      let '((bs, err), (r', c')) := frameBridgingReader_Read r c lenb in
      match err with
      | Some e => Some ((bs, e), (r', c'))
      | None =>
          match readAll fuel' r' c' lenb with
          | Some ((rest, e), rc) => Some ((bs ++ rest, e), rc)
          | None => None
          end
      end
  end.

(** ** The frame-bridging writer *)

Record frameBridgingWriter : Type := mkWriter {
  w_frameType : FrameType;
  w_bytesLeftToLimit : Z;    (* int; < 0 means no limit *)
  w_payloadLength : Z;       (* int *)
  w_buffer : list byte       (* the unread part of the bytes.Buffer *)
}.

Definition NewFrameBridgingWriter (frameType : FrameType) (totalLimit : Z)
  : frameBridgingWriter :=
  mkWriter frameType totalLimit MAX_PAYLOAD_LENGTH [].

Definition buffer_Len (w : frameBridgingWriter) : Z := Z.of_nat (length (w_buffer w)).

(** [bytes.Buffer.WriteTo(w)]: one [Write] of the buffer's content, which
    is dropped from the buffer as far as it was written. *)
Definition buffer_WriteTo (buf : list byte) (c : Conn)
  : option error * (list byte * Conn) :=
  match buf with
  | [] => (None, ([], c))
  | _ =>
      let '((m, e), c') := Write c buf in
      match e with
      | Some e => (Some e, (drop m buf, c'))
      | None =>
          if (m =? length buf)%nat then (None, ([], c'))
          else (Some io_ErrShortWrite, (drop m buf, c'))
      end
  end.

(** [frameBridgingWriter.flush]: the error of [writeFrame] is dropped (the
    source calls [errors.WithStack] on it and goes on). *)
Definition flush (w : frameBridgingWriter) (c : Conn) (nomore : bool)
  : option error * (frameBridgingWriter * Conn) :=
  let f := mkFrame (w_frameType w) nomore (wrap_uint32 (buffer_Len w)) in
  let '(_, c1) := writeFrame c f in
  let '(err, (buf', c2)) := buffer_WriteTo (w_buffer w) c1 in
  (err, (mkWriter (w_frameType w) (w_bytesLeftToLimit w) (w_payloadLength w) buf', c2)).

Definition err_limit_exceeded : error :=
  Errorf "exceeded limit of total %!v(MISSING) bytes for this message".

(** [frameBridgingWriter.writeUntilFrameFull].  The slice [b[:maxwrite]]
    needs [0 <= maxwrite], which holds while the buffer is no longer than
    [payloadLength]. *)
Definition writeUntilFrameFull (w : frameBridgingWriter) (c : Conn) (b : list byte)
  : (nat * option error) * (frameBridgingWriter * Conn) :=
  match b with
  | [] => ((O, None), (w, c))
  | _ =>
  if w_bytesLeftToLimit w =? 0 then ((O, Some err_limit_exceeded), (w, c))
  else
    let maxwrite := Z.of_nat (length b) in
    let remainingInFrame := w_payloadLength w - buffer_Len w in
    let maxwrite := if maxwrite >? remainingInFrame then remainingInFrame else maxwrite in
    let maxwrite :=
      if (w_bytesLeftToLimit w >? 0) && (maxwrite >? w_bytesLeftToLimit w)
      then w_bytesLeftToLimit w else maxwrite in
    let w1 := mkWriter (w_frameType w)
                       (wrap_int (w_bytesLeftToLimit w - maxwrite))
                       (w_payloadLength w)
                       (w_buffer w ++ take (Z.to_nat maxwrite) b) in
    let n := Z.to_nat maxwrite in
    if w_bytesLeftToLimit w1 =? 0 then
      let '(err, wc) := flush w1 c true in ((n, err), wc)
    else if buffer_Len w1 =? w_payloadLength w1 then
      let '(err, wc) := flush w1 c false in ((n, err), wc)
    else ((n, None), (w1, c))
  end.

(** The loop of [frameBridgingWriter.Write], [n] octets of [b] being
    written already.  [None]: the loop has not finished within [fuel]
    rounds. *)
Fixpoint Write_loop (fuel : nat) (w : frameBridgingWriter) (c : Conn)
  (b : list byte) (n : nat)
  : option ((nat * option error) * (frameBridgingWriter * Conn)) :=
  if (n <? length b)%nat then
    match fuel with
    | O => None
    | S fuel' =>
        let '((i, err), (w', c')) := writeUntilFrameFull w c (drop n b) in
        let n' := (n + i)%nat in
        match err with
        | Some e => Some ((n', Some (WithStack e)), (w', c'))
        | None => Write_loop fuel' w' c' b n'
        end
    end
  else Some ((n, None), (w, c)).

(** [frameBridgingWriter.Write(b)].  A round that writes nothing flushes a
    full buffer, so twice the length of [b] bounds the rounds. *)
Definition frameBridgingWriter_Write (w : frameBridgingWriter) (c : Conn) (b : list byte)
  : option ((nat * option error) * (frameBridgingWriter * Conn)) :=
  Write_loop (S (2 * length b)) w c b O.

(** [frameBridgingWriter.Close]. *)
Definition frameBridgingWriter_Close (w : frameBridgingWriter) (c : Conn)
  : option error * (frameBridgingWriter * Conn) :=
  flush w c true.

(** [io.Copy(w, source)]: [source] lists what the successive [Read]s of the
    source return; each chunk goes to the writer in one [Write]. *)
Fixpoint io_Copy (w : frameBridgingWriter) (c : Conn) (source : list (list byte))
  : option (option error * (frameBridgingWriter * Conn)) :=
  match source with
  | [] => Some (None, (w, c))
  | b :: source' =>
      match frameBridgingWriter_Write w c b with
      | None => None
      | Some ((nw, ew), (w', c')) =>
          match ew with
          | Some e => Some (Some e, (w', c'))
          | None =>
              if (nw =? length b)%nat then io_Copy w' c' source'
              else Some (Some io_ErrShortWrite, (w', c'))
          end
      end
  end.

(** [MessageLayer.WriteData] and [MessageLayer.ReadData]. *)
Definition WriteData (c : Conn) (source : list (list byte))
  : option (option error * Conn) :=
  let w := NewFrameBridgingWriter FrameTypeData (-1) in
  match io_Copy w c source with
  | None => None
  | Some (Some e, (_, c')) => Some (Some (WithStack e), c')
  | Some (None, (w', c')) =>
      let '(err, (_, c'')) := frameBridgingWriter_Close w' c' in Some (err, c'')
  end.

Definition ReadData : frameBridgingReader := NewFrameBridgingReader FrameTypeData (-1).

(** ** The wire format, for the statements below *)

(** The octets of a frame header on the wire. *)
Definition frame_octets (f : Frame) : list byte :=
  [Typ f] ++ put_bool (NoMoreFrames f) ++ PutUint32 (PayloadLength f).

(** A frame with its payload. *)
Definition frame_wire (t : FrameType) (nomore : bool) (p : list byte) : list byte :=
  frame_octets (mkFrame t nomore (Z.of_nat (length p))) ++ p.

(** The octets of a run of frames that are not the last of their message. *)
Definition frames_wire (t : FrameType) (ps : list (list byte)) : list byte :=
  concat (map (frame_wire t false) ps).

(** A channel that is open and whose peer still listens. *)
Definition good (c : Conn) : Prop := closed c = false /\ wfault c = None.

(** What a read to the end returns, with [p] read before it. *)
Definition prepend (p : list byte)
  (x : option ((list byte * error) * (frameBridgingReader * Conn)))
  : option ((list byte * error) * (frameBridgingReader * Conn)) :=
  match x with
  | Some ((rest, e), rc) => Some ((p ++ rest, e), rc)
  | None => None
  end.

(** ** The round trips, as statements

    [stream_round_trip]: the chunks of [source] go through a writer without
    limit on the channel [c], the writer is closed, and the octets this put
    on the wire arrive on [cr] in front of [rest]; reading to the end with a
    buffer of [k] octets returns the stream and [io.EOF] and leaves [rest]. *)
Definition stream_round_trip (t : FrameType) (source : list (list byte))
    (c cr : Conn) (rest : list byte) (k : nat) : Prop :=
  exists w1 c1 w2 c2 wire,
    io_Copy (NewFrameBridgingWriter t (-1)) c source = Some (None, (w1, c1)) /\
    frameBridgingWriter_Close w1 c1 = (None, (w2, c2)) /\
    wbuf c2 = wbuf c ++ wire /\
    (rbuf cr = wire ++ rest ->
     exists j r', forall fuel, (j <= fuel)%nat ->
       readAll fuel (NewFrameBridgingReader t (-1)) cr k =
         Some ((concat source, io_EOF), (r', set_rbuf cr rest))).

(** [frame_round_trip]: the frame [(t, true, |P|)] and its payload [P] are
    written on [c] and arrive on [cr] in front of [rest]; [readFrame]
    returns the same frame, and the next [|P|] octets are [P]. *)
Definition frame_round_trip (t : FrameType) (P : list byte)
    (c cr : Conn) (rest : list byte) : Prop :=
  let f := mkFrame t true (Z.of_nat (length P)) in
  exists c1 c2 wire,
    writeFrame c f = (None, c1) /\
    Write c1 P = ((length P, None), c2) /\
    wbuf c2 = wbuf c ++ wire /\
    (rbuf cr = wire ++ rest ->
     readFrame cr = ((f, None), set_rbuf cr (P ++ rest)) /\
     Read (set_rbuf cr (P ++ rest)) (length P) = ((P, None), set_rbuf cr rest)).

(** ** Facts about the encodings *)

Lemma Z_of_byte_range b : 0 <= Z_of_byte b < 256.
Proof. destruct b; vm_compute; split; (discriminate || reflexivity). Qed.

Lemma byte_of_Z_of_byte b : byte_of_Z (Z_of_byte b) = b.
Proof. destruct b; reflexivity. Qed.

Lemma Z_of_byte_of_Z z : Z_of_byte (byte_of_Z z) = z mod 256.
Proof.
  unfold Z_of_byte, byte_of_Z.
  pose proof (Z.mod_pos_bound z 256 ltac:(lia)) as Hb.
  destruct (Byte.of_N (Z.to_N (z mod 256))) as [b|] eqn:E; simpl.
  - apply Byte.to_of_N in E. rewrite E. lia.
  - apply Byte.of_N_None_iff in E. lia.
Qed.

Lemma Uint32_PutUint32 n : 0 <= n < 2 ^ 32 -> Uint32 (PutUint32 n) = n.
Proof.
  intros Hn. unfold Uint32, PutUint32. rewrite !Z_of_byte_of_Z.
  change 256 with (2 ^ 8).
  apply Z.bits_inj'. intros i Hi.
  rewrite !Z.lor_spec, !Z.shiftl_spec, !Z.testbit_mod_pow2 by lia.
  assert (Hhi : 32 <= i -> Z.testbit n i = false).
  { intros. rewrite <- (Z.mod_small n (2 ^ 32)) by lia.
    rewrite Z.testbit_mod_pow2 by lia.
    destruct (Z.ltb_spec i 32); [lia | done]. }
  assert (Hsh : forall k, 0 <= k -> Z.testbit (Z.shiftr n k) (i - k) =
                          if i <? k then false else Z.testbit n i).
  { intros k Hk. destruct (Z.ltb_spec i k).
    - apply Z.testbit_neg_r; lia.
    - rewrite Z.shiftr_spec by lia. f_equal; lia. }
  rewrite !Hsh by lia.
  destruct (Z.ltb_spec i 8), (Z.ltb_spec (i - 8) 8), (Z.ltb_spec (i - 16) 8),
    (Z.ltb_spec (i - 24) 8), (Z.ltb_spec i 16), (Z.ltb_spec i 24);
    try lia; simpl; rewrite ?orb_false_r, ?andb_false_r; try done.
  rewrite Hhi by lia. done.
Qed.

Lemma get_put_bool b : get_bool (put_bool b) = b.
Proof. by destruct b. Qed.

(** ** Facts about the channel *)

Lemma set_rbuf_id c : set_rbuf c (rbuf c) = c.
Proof. by destruct c. Qed.

Lemma Close_closed c : closed (snd (Close c)) = true.
Proof. unfold Close. by destruct (closed c) eqn:E. Qed.

Lemma Read_enough c n bs rest :
  closed c = false -> rbuf c = bs ++ rest -> length bs = n ->
  Read c n = ((bs, None), set_rbuf c rest).
Proof.
  intros Hc Hr Hn. unfold Read. rewrite Hc, Hr.
  destruct n as [|n].
  - destruct bs; [|done]. simpl in *. by rewrite <- Hr, set_rbuf_id.
  - destruct bs as [|b bs]; [done|].
    change ((b :: bs) ++ rest) with (b :: (bs ++ rest)) at 1.
    cbv iota beta. rewrite <- Hn.
    by rewrite take_app_length, drop_app_length.
Qed.

Lemma io_ReadFull_enough c n bs rest :
  closed c = false -> rbuf c = bs ++ rest -> length bs = n ->
  io_ReadFull c n = ((bs, None), set_rbuf c rest).
Proof.
  intros Hc Hr Hn. unfold io_ReadFull.
  destruct n as [|n].
  - destruct bs; [|done]. simpl in *. by rewrite <- Hr, set_rbuf_id.
  - cbn [ReadFull_loop]. change (length (@nil byte)) with O.
    change (S n <=? 0)%nat with false. cbv iota.
    rewrite Nat.sub_0_r, (Read_enough c (S n) bs rest) by done.
    cbn [app]. destruct n; cbn [ReadFull_loop]; rewrite Hn, Nat.leb_refl; done.
Qed.

(** [io.ReadFull] makes progress on this channel: the fuel of its loop
    never runs out. *)
Lemma ReadFull_loop_progress : forall fuel c want got,
  (want - length got < fuel)%nat ->
  snd (fst (ReadFull_loop fuel c want got)) <> Some io_ErrNoProgress.
Proof.
  induction fuel as [|fuel IH]; intros c want got Hfuel; [lia|].
  cbn [ReadFull_loop].
  destruct (Nat.leb_spec want (length got)) as [Hle|Hgt]; [done|].
  unfold Read. destruct (closed c).
  { cbn. rewrite app_nil_r. destruct (Nat.leb_spec want (length got)); [lia|]. done. }
  destruct (want - length got)%nat as [|n] eqn:Hn; [lia|].
  destruct (rbuf c) as [|b bs] eqn:Hr.
  { cbn. rewrite app_nil_r. destruct (Nat.leb_spec want (length got)); [lia|].
    by destruct got. }
  cbn iota beta. apply IH. rewrite length_app. cbn [take length]. lia.
Qed.

Lemma io_ReadFull_progress c want :
  snd (fst (io_ReadFull c want)) <> Some io_ErrNoProgress.
Proof. apply ReadFull_loop_progress. simpl. lia. Qed.

(** What [readFrame] does on a channel that holds a whole frame header. *)
Lemma readFrame_header c t b l4 rest :
  closed c = false -> length l4 = 4%nat ->
  rbuf c = t :: b :: l4 ++ rest ->
  readFrame c =
    ((mkFrame t (get_bool [b]) (Uint32 l4),
      if Uint32 l4 >? MAX_PAYLOAD_LENGTH then Some err_frame_too_long else None),
     set_rbuf c rest).
Proof.
  intros Hc Hl Hr. unfold readFrame, binary_Read.
  rewrite (io_ReadFull_enough c 1 [t] (b :: l4 ++ rest)) by done.
  rewrite (io_ReadFull_enough _ 1 [b] (l4 ++ rest)) by done.
  rewrite (io_ReadFull_enough _ 4 l4 rest) by done.
  cbn. by destruct (Uint32 l4 >? MAX_PAYLOAD_LENGTH).
Qed.

Lemma writeFrame_writable c f :
  closed c = false -> wfault c = None ->
  writeFrame c f =
    (if PayloadLength f >? MAX_PAYLOAD_LENGTH then Some err_frame_too_long else None,
     set_wbuf c (wbuf c ++ frame_octets f)).
Proof.
  intros Hc Hw. unfold writeFrame, binary_Write, Write, frame_octets.
  destruct c as [r w wf cf cl]. simpl in *. subst. simpl.
  rewrite <- !app_assoc. simpl.
  by destruct (PayloadLength f >? MAX_PAYLOAD_LENGTH).
Qed.

Lemma readFrame_frame_octets c f rest :
  closed c = false -> 0 <= PayloadLength f < 2 ^ 32 ->
  rbuf c = frame_octets f ++ rest ->
  readFrame c =
    ((f, if PayloadLength f >? MAX_PAYLOAD_LENGTH then Some err_frame_too_long else None),
     set_rbuf c rest).
Proof.
  intros Hc Hn Hr. destruct f as [t nm n]. simpl in *.
  rewrite (readFrame_header c t (if nm then Byte.x01 else Byte.x00) (PutUint32 n) rest);
    [| done | done | done].
  rewrite Uint32_PutUint32 by done.
  change (get_bool _) with (get_bool (put_bool nm)). by rewrite get_put_bool.
Qed.

Lemma Byte_eqb_ne (a b : byte) : a <> b -> Byte.eqb a b = false.
Proof.
  intros Hne. destruct (Byte.eqb a b) eqn:E; [|done].
  by apply Byte.byte_dec_bl in E.
Qed.

(** A frame of another type than the reader's: [Read] returns no octets
    and no error, and the frame is the reader's current one, so that the
    next [Read] takes its payload. *)
Lemma frameBridgingReader_Read_other_type r c f rest k :
  r_bytesLeftToLimit r <> 0 ->
  PayloadLength (r_f r) = 0 -> NoMoreFrames (r_f r) = false ->
  closed c = false -> rbuf c = frame_octets f ++ rest ->
  0 <= PayloadLength f <= MAX_PAYLOAD_LENGTH ->
  Typ f <> r_frameType r ->
  frameBridgingReader_Read r c k = (([], None), (set_r_f r f, set_rbuf c rest)).
Proof.
  intros Hbl Hpl Hnm Hc Hr Hf Ht. unfold frameBridgingReader_Read.
  replace (r_bytesLeftToLimit r =? 0) with false by (symmetry; by apply Z.eqb_neq).
  rewrite Hpl, Hnm. change (0 =? 0) with true. cbv iota.
  unfold MAX_PAYLOAD_LENGTH in Hf.
  rewrite (readFrame_frame_octets c f rest); [| done | lia | done].
  replace (PayloadLength f >? MAX_PAYLOAD_LENGTH) with false
    by (unfold MAX_PAYLOAD_LENGTH; lia).
  by rewrite Byte_eqb_ne.
Qed.

(** ** The frame size guard *)

(** C8. A frame whose PayloadLength is above 4 MiB: [writeFrame] returns an
    error on every channel (on a writable one the six header octets are
    on the wire by then); [readFrame] returns an error once it has read the
    six header octets, and what follows them stays in the channel. *)
Theorem frame_size_guard (c : Conn) (f : Frame) (rest : list byte) :
  MAX_PAYLOAD_LENGTH < PayloadLength f < 2 ^ 32 ->
  fst (writeFrame c f) <> None /\
  (closed c = false -> wfault c = None ->
   writeFrame c f = (Some err_frame_too_long, set_wbuf c (wbuf c ++ frame_octets f))) /\
  (closed c = false -> rbuf c = frame_octets f ++ rest ->
   readFrame c = ((f, Some err_frame_too_long), set_rbuf c rest) /\
   length (frame_octets f) = 6%nat).
Proof.
  intros [Hlo Hhi].
  assert (Hgt : (PayloadLength f >? MAX_PAYLOAD_LENGTH) = true) by lia.
  split; [|split].
  - destruct (closed c) eqn:Hc; [| destruct (wfault c) eqn:Hw].
    + unfold writeFrame, binary_Write, Write. by rewrite Hc.
    + unfold writeFrame, binary_Write, Write. by rewrite Hc, Hw.
    + by rewrite writeFrame_writable, Hgt.
  - intros Hc Hw. by rewrite writeFrame_writable, Hgt.
  - intros Hc Hr. split; [|done].
    rewrite (readFrame_frame_octets c f rest), Hgt; [done | done | | done].
    unfold MAX_PAYLOAD_LENGTH in Hlo. lia.
Qed.

Lemma frame_size_guard_witness :
  let f := mkFrame FrameTypeData true 4194305 in
  let c := mkConn (frame_octets f ++ [Byte.x07; Byte.x07]) [] None None false in
  MAX_PAYLOAD_LENGTH < PayloadLength f < 2 ^ 32 /\
  fst (writeFrame c f) <> None /\
  readFrame c = ((f, Some err_frame_too_long), set_rbuf c [Byte.x07; Byte.x07]).
Proof.
  intros f c.
  assert (H : MAX_PAYLOAD_LENGTH < PayloadLength f < 2 ^ 32)
    by (unfold MAX_PAYLOAD_LENGTH; simpl; lia).
  split; [exact H|].
  destruct (frame_size_guard c f [Byte.x07; Byte.x07] H) as (Hw & _ & Hr).
  split; [exact Hw|]. apply Hr; reflexivity.
Defined.

(** ** The stream round trip *)

Lemma wrap_uint32_small z : 0 <= z < 2 ^ 32 -> wrap_uint32 z = z.
Proof. intros. unfold wrap_uint32. by apply Z.mod_small. Qed.

Lemma wrap_int_small z : - 2 ^ 63 <= z < 2 ^ 63 -> wrap_int z = z.
Proof. intros. unfold wrap_int. rewrite Z.mod_small; lia. Qed.

Lemma prepend_nil x : prepend [] x = x.
Proof. by destruct x as [[[? ?] ?]|]. Qed.

Lemma prepend_app p q x : prepend p (prepend q x) = prepend (p ++ q) x.
Proof. destruct x as [[[? ?] ?]|]; [|done]. simpl. by rewrite app_assoc. Qed.

Lemma readAll_S fuel r c k :
  readAll (S fuel) r c k =
    let '((bs, err), (r', c')) := frameBridgingReader_Read r c k in
    match err with
    | Some e => Some ((bs, e), (r', c'))
    | None => prepend bs (readAll fuel r' c' k)
    end.
Proof. reflexivity. Qed.

Section Reader.
Variable t : FrameType.
Variable k : nat.
Hypothesis k_pos : (0 < k)%nat.

Lemma readPayload_chunk bl t' nm p c rest :
  bl < 0 -> - 2 ^ 63 <= bl - Z.of_nat (length p) ->
  Z.of_nat (length p) <= MAX_PAYLOAD_LENGTH ->
  closed c = false -> rbuf c = p ++ rest ->
  let n := Nat.min k (length p) in
  readPayload (mkReader t bl (mkFrame t' nm (Z.of_nat (length p)))) c k =
    ((take n p, None),
     (mkReader t (bl - Z.of_nat n) (mkFrame t' nm (Z.of_nat (length (drop n p)))),
      set_rbuf c (drop n p ++ rest))).
Proof.
  intros Hbl Hlo Hmax Hc Hr n. unfold MAX_PAYLOAD_LENGTH in Hmax.
  unfold readPayload. cbn [r_f r_bytesLeftToLimit PayloadLength r_frameType Typ NoMoreFrames].
  replace (bl >? 0) with false by lia. cbn [andb].
  assert (Hn : Z.to_nat (if Z.of_nat k >? Z.of_nat (length p)
                         then Z.of_nat (length p) else Z.of_nat k) = n).
  { subst n. destruct (Z.gtb_spec (Z.of_nat k) (Z.of_nat (length p))); lia. }
  rewrite Hn.
  assert (Hread : Read c n = ((take n p, None), set_rbuf c (drop n p ++ rest))).
  { destruct p as [|b p].
    - subst n. rewrite Nat.min_0_r. unfold Read. rewrite Hc. simpl.
      simpl in Hr. by rewrite <- Hr, set_rbuf_id.
    - apply Read_enough; [done | | ].
      + by rewrite app_assoc, take_drop.
      + rewrite length_take. lia. }
  rewrite Hread.
  assert (Hlen : length (take n p) = n) by (rewrite length_take; lia).
  rewrite Hlen, length_drop.
  rewrite (wrap_uint32_small (Z.of_nat n)) by lia.
  rewrite wrap_uint32_small by lia.
  rewrite wrap_int_small by lia.
  do 4 f_equal. lia.
Qed.

(** Reading the rest [p] of the current frame's payload. *)
Lemma readAll_payload nm : forall (m : nat) p bl c rest,
  length p = m ->
  bl < 0 -> - 2 ^ 63 <= bl - Z.of_nat (length p) ->
  Z.of_nat (length p) <= MAX_PAYLOAD_LENGTH ->
  closed c = false -> rbuf c = p ++ rest ->
  exists j, forall fuel,
    readAll (j + fuel) (mkReader t bl (mkFrame t nm (Z.of_nat (length p)))) c k =
      prepend p (readAll fuel
                   (mkReader t (bl - Z.of_nat (length p)) (mkFrame t nm 0))
                   (set_rbuf c rest) k).
Proof.
  induction m as [m IH] using lt_wf_ind.
  intros p bl c rest Hm Hbl Hlo Hmax Hc Hr.
  destruct p as [|b p'] eqn:Hp.
  - exists O. intros fuel. simpl. rewrite prepend_nil, Z.sub_0_r.
    simpl in Hr. by rewrite <- Hr, set_rbuf_id.
  - rewrite <- Hp in *.
    set (n := Nat.min k (length p)).
    assert (Hnpos : (0 < n)%nat) by (subst n p; simpl; lia).
    destruct (IH (length (drop n p)) ltac:(rewrite length_drop; lia)
                (drop n p) (bl - Z.of_nat n) (set_rbuf c (drop n p ++ rest)) rest)
      as [j Hj]; try done.
    + lia.
    + rewrite length_drop. lia.
    + rewrite length_drop. lia.
    + exists (S j). intros fuel. cbn [Nat.add]. rewrite readAll_S.
      unfold frameBridgingReader_Read.
      cbn [r_bytesLeftToLimit r_f PayloadLength NoMoreFrames].
      replace (bl =? 0) with false by lia.
      replace (Z.of_nat (length p) =? 0) with false by (subst p; simpl; lia).
      rewrite (readPayload_chunk bl t nm p c rest) by done.
      fold n. cbv beta iota zeta.
      rewrite Hj.
      rewrite prepend_app, take_drop.
      replace (bl - Z.of_nat n - Z.of_nat (length (drop n p)))
        with (bl - Z.of_nat (length p)) by (rewrite length_drop; lia).
      destruct c; reflexivity.
Qed.

Lemma Byte_eqb_refl (b : byte) : Byte.eqb b b = true.
Proof. by destruct b. Qed.

(** Reading one whole frame, from its header on. *)
Lemma readAll_frame nm t0 p bl c rest :
  bl < 0 -> - 2 ^ 63 <= bl - Z.of_nat (length p) ->
  Z.of_nat (length p) <= MAX_PAYLOAD_LENGTH ->
  closed c = false -> rbuf c = frame_wire t nm p ++ rest ->
  exists j, forall fuel,
    readAll (j + fuel) (mkReader t bl (mkFrame t0 false 0)) c k =
      prepend p (readAll fuel
                   (mkReader t (bl - Z.of_nat (length p)) (mkFrame t nm 0))
                   (set_rbuf c rest) k).
Proof.
  intros Hbl Hlo Hmax Hc Hr.
  set (n := Nat.min k (length p)).
  destruct (readAll_payload nm (length (drop n p)) (drop n p) (bl - Z.of_nat n)
              (set_rbuf c (drop n p ++ rest)) rest) as [j Hj]; try done.
  - lia.
  - rewrite length_drop. lia.
  - rewrite length_drop. lia.
  - exists (S j). intros fuel. cbn [Nat.add]. rewrite readAll_S.
    unfold frameBridgingReader_Read.
    cbn [r_bytesLeftToLimit r_f PayloadLength NoMoreFrames].
    replace (bl =? 0) with false by lia.
    change (0 =? 0) with true. cbv iota.
    unfold frame_wire in Hr. rewrite <- app_assoc in Hr.
    rewrite (readFrame_frame_octets c (mkFrame t nm (Z.of_nat (length p))) (p ++ rest));
      [| done | | done].
    2:{ cbn [PayloadLength]. unfold MAX_PAYLOAD_LENGTH in Hmax. lia. }
    cbn [PayloadLength].
    replace (Z.of_nat (length p) >? MAX_PAYLOAD_LENGTH) with false by lia.
    cbn [Typ set_r_f r_frameType r_bytesLeftToLimit].
    rewrite Byte_eqb_refl. cbn [negb].
    unfold set_r_f. cbn [r_frameType r_bytesLeftToLimit].
    rewrite (readPayload_chunk bl t nm p (set_rbuf c (p ++ rest)) rest) by done.
    fold n. cbv beta iota zeta.
    replace (set_rbuf (set_rbuf c (p ++ rest)) (drop n p ++ rest))
      with (set_rbuf c (drop n p ++ rest)) by (by destruct c).
    rewrite Hj, prepend_app, take_drop.
    replace (bl - Z.of_nat n - Z.of_nat (length (drop n p)))
      with (bl - Z.of_nat (length p)) by (rewrite length_drop; lia).
    destruct c; reflexivity.
Qed.

(** Reading a whole message: frames [ps], then the last frame [last]. *)
Lemma readAll_message : forall ps t0 last bl c rest,
  Forall (fun p => Z.of_nat (length p) <= MAX_PAYLOAD_LENGTH) ps ->
  Z.of_nat (length last) <= MAX_PAYLOAD_LENGTH ->
  bl < 0 -> - 2 ^ 63 <= bl - Z.of_nat (length (concat ps ++ last)) ->
  closed c = false ->
  rbuf c = frames_wire t ps ++ frame_wire t true last ++ rest ->
  exists j, forall fuel,
    readAll (j + S fuel) (mkReader t bl (mkFrame t0 false 0)) c k =
      Some ((concat ps ++ last, io_EOF),
            (mkReader t (bl - Z.of_nat (length (concat ps ++ last))) (mkFrame t true 0),
             set_rbuf c rest)).
Proof.
  induction ps as [|p ps IH]; intros t0 last bl c rest Hps Hlast Hbl Hlo Hc Hr.
  - cbn [concat app] in *. unfold frames_wire in Hr. cbn [map concat app] in Hr.
    destruct (readAll_frame true t0 last bl c rest) as [j Hj]; try done.
    exists j. intros fuel. rewrite Hj, readAll_S.
    unfold frameBridgingReader_Read.
    cbn [r_bytesLeftToLimit r_f PayloadLength NoMoreFrames].
    replace (bl - Z.of_nat (length last) =? 0) with false by lia.
    change (0 =? 0) with true. cbv iota beta. cbn [prepend].
    by rewrite app_nil_r.
  - apply Forall_cons in Hps as [Hp Hps].
    unfold frames_wire in Hr. cbn [map concat] in Hr. rewrite <- app_assoc in Hr.
    cbn [concat] in *. rewrite <- app_assoc in *. rewrite length_app in Hlo.
    destruct (readAll_frame false t0 p bl c
                (frames_wire t ps ++ frame_wire t true last ++ rest)) as [j1 Hj1];
      try done; [lia|].
    destruct (IH t last (bl - Z.of_nat (length p))
                (set_rbuf c (frames_wire t ps ++ frame_wire t true last ++ rest)) rest)
      as [j2 Hj2]; try done; [lia | lia |].
    exists (j1 + j2)%nat. intros fuel.
    rewrite <- Nat.add_assoc, Hj1, Hj2. cbn [prepend].
    replace (set_rbuf (set_rbuf c _) rest) with (set_rbuf c rest) by (by destruct c).
    do 4 f_equal. rewrite !length_app. lia.
Qed.
End Reader.

Lemma good_set_wbuf c bs : good c -> good (set_wbuf c bs).
Proof. by destruct c. Qed.

Lemma set_wbuf_set_wbuf c a b : set_wbuf (set_wbuf c a) b = set_wbuf c b.
Proof. by destruct c. Qed.

Lemma set_wbuf_nil c : set_wbuf c (wbuf c ++ []) = c.
Proof. rewrite app_nil_r. by destruct c. Qed.

Lemma Write_good c b :
  good c -> Write c b = ((length b, None), set_wbuf c (wbuf c ++ b)).
Proof. intros [Hc Hw]. unfold Write. by rewrite Hc, Hw. Qed.

Lemma frames_wire_cons t p ps :
  frames_wire t (p :: ps) = frame_wire t false p ++ frames_wire t ps.
Proof. reflexivity. Qed.

Lemma frames_wire_app t ps qs :
  frames_wire t (ps ++ qs) = frames_wire t ps ++ frames_wire t qs.
Proof. unfold frames_wire. by rewrite map_app, concat_app. Qed.

Section Writer.
Variable t : FrameType.
Variable P : Z.
Hypothesis P_pos : 0 < P.
Hypothesis P_max : P <= MAX_PAYLOAD_LENGTH.

Lemma flush_good bl buf c nomore :
  good c -> Z.of_nat (length buf) <= P ->
  flush (mkWriter t bl P buf) c nomore =
    (None, (mkWriter t bl P [], set_wbuf c (wbuf c ++ frame_wire t nomore buf))).
Proof.
  intros Hg Hlen. unfold flush, buffer_Len. cbn [w_frameType w_buffer w_bytesLeftToLimit w_payloadLength].
  unfold MAX_PAYLOAD_LENGTH in P_max.
  rewrite wrap_uint32_small by lia.
  destruct Hg as [Hc Hw].
  rewrite writeFrame_writable by done.
  cbn [PayloadLength].
  unfold buffer_WriteTo, frame_wire.
  destruct buf as [|b buf].
  - by rewrite app_nil_r.
  - rewrite Write_good by (by apply good_set_wbuf).
    rewrite Nat.eqb_refl, set_wbuf_set_wbuf. cbn [wbuf set_wbuf].
    by rewrite <- app_assoc.
Qed.

Lemma writeUntilFrameFull_good bl buf c b :
  good c -> b <> [] ->
  bl < 0 -> - 2 ^ 63 <= bl - Z.of_nat (length b) ->
  Z.of_nat (length buf) < P ->
  let n := Nat.min (length b) (Z.to_nat P - length buf) in
  writeUntilFrameFull (mkWriter t bl P buf) c b =
    ((n, None),
     if (length buf + n =? Z.to_nat P)%nat
     then (mkWriter t (bl - Z.of_nat n) P [],
           set_wbuf c (wbuf c ++ frame_wire t false (buf ++ take n b)))
     else (mkWriter t (bl - Z.of_nat n) P (buf ++ take n b), c)).
Proof.
  intros Hg Hb Hbl Hlo Hbuf. cbv zeta.
  unfold writeUntilFrameFull. destruct b as [|b0 b'] eqn:Eb; [done|].
  rewrite <- Eb in *. clear Hb.
  set (n := Nat.min (length b) (Z.to_nat P - length buf)).
  assert (Hbpos : (0 < length b)%nat) by (subst b; simpl; lia).
  cbn [w_bytesLeftToLimit w_payloadLength w_frameType w_buffer].
  unfold buffer_Len. cbn [w_buffer w_payloadLength w_bytesLeftToLimit].
  replace (bl =? 0) with false by lia.
  replace (bl >? 0) with false by lia. cbn [andb].
  set (mw := if Z.of_nat (length b) >? P - Z.of_nat (length buf)
             then P - Z.of_nat (length buf) else Z.of_nat (length b)).
  assert (Hmw : mw = Z.of_nat n).
  { subst mw n. destruct (Z.gtb_spec (Z.of_nat (length b)) (P - Z.of_nat (length buf))); lia. }
  rewrite Hmw, Nat2Z.id.
  rewrite wrap_int_small by lia.
  replace (bl - Z.of_nat n =? 0) with false by lia.
  rewrite length_app, length_take.
  replace (length b `min` n)%nat with n by lia.
  replace (n `min` length b)%nat with n by lia.
  destruct (Nat.eqb_spec (length buf + n) (Z.to_nat P)) as [Heq|Hne].
  - replace (Z.of_nat (length buf + n) =? P) with true
      by (symmetry; apply Z.eqb_eq; lia).
    rewrite flush_good; [done | done |].
    rewrite length_app, length_take. lia.
  - replace (Z.of_nat (length buf + n) =? P) with false
      by (symmetry; apply Z.eqb_neq; lia).
    done.
Qed.

Lemma Write_loop_good : forall fuel b n buf bl c,
  (length b - n <= fuel)%nat -> (n <= length b)%nat ->
  good c -> bl < 0 -> - 2 ^ 63 <= bl - Z.of_nat (length b - n) ->
  Z.of_nat (length buf) < P ->
  exists ps buf',
    Write_loop fuel (mkWriter t bl P buf) c b n =
      Some ((length b, None),
            (mkWriter t (bl - Z.of_nat (length b - n)) P buf',
             set_wbuf c (wbuf c ++ frames_wire t ps))) /\
    buf ++ drop n b = concat ps ++ buf' /\
    Z.of_nat (length buf') < P /\
    Forall (fun p => Z.of_nat (length p) <= MAX_PAYLOAD_LENGTH) ps.
Proof.
  induction fuel as [|fuel IH]; intros b n buf bl c Hfuel Hn Hg Hbl Hlo Hbuf.
  - assert (n = length b) by lia. subst n.
    exists [], buf. cbn [Write_loop]. rewrite Nat.ltb_irrefl.
    rewrite Nat.sub_diag, Z.sub_0_r. cbn [frames_wire map concat].
    rewrite set_wbuf_nil, drop_all, app_nil_r. done.
  - cbn [Write_loop]. destruct (Nat.ltb_spec n (length b)) as [Hlt|Hge].
    2:{ assert (n = length b) by lia. subst n.
        exists [], buf.
        rewrite Nat.sub_diag, Z.sub_0_r. cbn [frames_wire map concat].
        rewrite set_wbuf_nil, drop_all, app_nil_r. done. }
    assert (Hd : length (drop n b) = (length b - n)%nat) by apply length_drop.
    assert (Hdne : drop n b <> []).
    { intros E. rewrite E in Hd. simpl in Hd. lia. }
    rewrite writeUntilFrameFull_good; [| done | done | done | lia | done].
    rewrite Hd.
    set (i := Nat.min (length b - n) (Z.to_nat P - length buf)).
    assert (Hi : (0 < i)%nat) by lia.
    destruct (Nat.eqb_spec (length buf + i) (Z.to_nat P)) as [Heq|Hne].
    + destruct (IH b (n + i)%nat [] (bl - Z.of_nat i)
                  (set_wbuf c (wbuf c ++ frame_wire t false (buf ++ take i (drop n b)))))
        as (ps & buf' & Hrun & Hdata & Hb' & Hps); try lia.
      { by apply good_set_wbuf. }
      { simpl. lia. }
      exists ((buf ++ take i (drop n b)) :: ps), buf'.
      rewrite Hrun. split; [|split; [|split]].
      * rewrite set_wbuf_set_wbuf. cbn [wbuf set_wbuf].
        rewrite frames_wire_cons, <- app_assoc.
        do 4 f_equal. lia.
      * cbn [concat]. rewrite <- app_assoc, <- Hdata. cbn [app].
        rewrite <- (drop_drop b i n), <- app_assoc. by rewrite take_drop.
      * done.
      * constructor; [|done]. rewrite length_app, length_take. lia.
    + destruct (IH b (n + i)%nat (buf ++ take i (drop n b)) (bl - Z.of_nat i) c)
        as (ps & buf' & Hrun & Hdata & Hb' & Hps); try lia.
      { done. }
      { rewrite length_app, length_take. lia. }
      exists ps, buf'.
      rewrite Hrun. split; [|split; [|split]]; try done.
      * do 4 f_equal. lia.
      * rewrite <- Hdata, <- app_assoc. f_equal.
        rewrite <- (drop_drop b i n). by rewrite take_drop.
Qed.

Lemma io_Copy_good : forall source buf bl c,
  good c -> bl < 0 -> - 2 ^ 63 <= bl - Z.of_nat (length (concat source)) ->
  Z.of_nat (length buf) < P ->
  exists ps buf',
    io_Copy (mkWriter t bl P buf) c source =
      Some (None,
            (mkWriter t (bl - Z.of_nat (length (concat source))) P buf',
             set_wbuf c (wbuf c ++ frames_wire t ps))) /\
    buf ++ concat source = concat ps ++ buf' /\
    Z.of_nat (length buf') < P /\
    Forall (fun p => Z.of_nat (length p) <= MAX_PAYLOAD_LENGTH) ps.
Proof.
  induction source as [|b source IH]; intros buf bl c Hg Hbl Hlo Hbuf.
  - exists [], buf. cbn [io_Copy concat length frames_wire map].
    rewrite Z.sub_0_r, set_wbuf_nil, app_nil_r. done.
  - cbn [concat] in *. rewrite length_app in Hlo.
    cbn [io_Copy]. unfold frameBridgingWriter_Write.
    destruct (Write_loop_good (S (2 * length b)) b 0 buf bl c)
      as (ps1 & buf1 & Hrun & Hdata1 & Hb1 & Hps1); try done; try lia.
    rewrite Hrun, Nat.eqb_refl. rewrite Nat.sub_0_r in *. rewrite drop_0 in Hdata1.
    destruct (IH buf1 (bl - Z.of_nat (length b))
                (set_wbuf c (wbuf c ++ frames_wire t ps1)))
      as (ps2 & buf2 & Hcopy & Hdata2 & Hb2 & Hps2);
      [by apply good_set_wbuf | lia | lia | done |].
    exists (ps1 ++ ps2), buf2. rewrite Hcopy.
    split; [|split; [|split]].
    + rewrite set_wbuf_set_wbuf. cbn [wbuf set_wbuf].
      rewrite frames_wire_app, <- app_assoc, length_app.
      do 4 f_equal. lia.
    + rewrite concat_app, <- app_assoc, <- Hdata2, !app_assoc. by rewrite Hdata1.
    + done.
    + by apply Forall_app.
Qed.
End Writer.

Lemma MAX_PAYLOAD_LENGTH_pos : 0 < MAX_PAYLOAD_LENGTH.
Proof. done. Qed.

(** Writing a stream in chunks and closing the writer puts a message on the
    wire that carries the stream. *)
Lemma write_stream_wire t source c :
  good c -> Z.of_nat (length (concat source)) < 2 ^ 63 ->
  exists w1 c1 w2 ps last,
    io_Copy (NewFrameBridgingWriter t (-1)) c source = Some (None, (w1, c1)) /\
    frameBridgingWriter_Close w1 c1 =
      (None, (w2, set_wbuf c (wbuf c ++ frames_wire t ps ++ frame_wire t true last))) /\
    concat source = concat ps ++ last /\
    Forall (fun p => Z.of_nat (length p) <= MAX_PAYLOAD_LENGTH) ps /\
    Z.of_nat (length last) <= MAX_PAYLOAD_LENGTH.
Proof.
  intros Hg Hlen. unfold NewFrameBridgingWriter.
  destruct (io_Copy_good t MAX_PAYLOAD_LENGTH MAX_PAYLOAD_LENGTH_pos ltac:(lia)
              source [] (-1) c) as (ps & last & Hcopy & Hdata & Hlast & Hps);
    try done; try lia.
  eexists _, _, _, ps, last. split; [exact Hcopy|].
  unfold frameBridgingWriter_Close.
  rewrite (flush_good t MAX_PAYLOAD_LENGTH ltac:(lia));
    [| by apply good_set_wbuf | lia].
  rewrite set_wbuf_set_wbuf. cbn [wbuf set_wbuf]. rewrite <- app_assoc.
  repeat split; try done. lia.
Qed.

(** C9. A stream written through the frame-bridging writer without a limit
    (in any chunks, then closed) and read through the frame-bridging reader
    of the same frame type comes out as it went in, followed by end of
    stream, and the reader takes nothing past the message.  A single frame
    of type [t] with NoMoreFrames set and a payload [P] of at most 4 MiB,
    written header first, is read back as the same header and payload. *)
Theorem framing_round_trip (t : FrameType) (source : list (list byte))
    (P : list byte) (c cr : Conn) (rest : list byte) (k : nat) :
  closed c = false -> wfault c = None -> closed cr = false -> (0 < k)%nat ->
  Z.of_nat (length (concat source)) < 2 ^ 63 ->
  Z.of_nat (length P) <= MAX_PAYLOAD_LENGTH ->
  stream_round_trip t source c cr rest k /\ frame_round_trip t P c cr rest.
Proof.
  intros Hc Hw Hcr Hk Hlen HP. unfold stream_round_trip, frame_round_trip. split.
  - destruct (write_stream_wire t source c) as
      (w1 & c1 & w2 & ps & last & Hcopy & Hclose & Hdata & Hps & Hlast); try done.
    eexists w1, c1, w2, _, _. split; [exact Hcopy|]. split; [exact Hclose|].
    split; [done|]. intros Hr.
    destruct (readAll_message t k Hk ps Byte.x00 last (-1) cr rest) as [j Hj];
      try done; try lia.
    { rewrite <- Hdata. lia. }
    { by rewrite <- app_assoc in Hr. }
    exists (S j), (mkReader t (-1 - Z.of_nat (length (concat ps ++ last))) (mkFrame t true 0)).
    intros fuel Hfuel. unfold NewFrameBridgingReader, zeroFrame.
    replace fuel with (j + S (fuel - S j))%nat by lia.
    by rewrite Hj, Hdata.
  - cbv zeta. set (f := mkFrame t true (Z.of_nat (length P))).
    pose proof (eq_refl : MAX_PAYLOAD_LENGTH = 4194304) as Hmax.
    eexists _, _, _. rewrite writeFrame_writable by done.
    replace (PayloadLength f >? MAX_PAYLOAD_LENGTH) with false by (subst f; cbn [PayloadLength]; lia).
    split; [done|]. rewrite Write_good by (by apply good_set_wbuf).
    split; [done|]. rewrite set_wbuf_set_wbuf. cbn [wbuf set_wbuf]. rewrite <- app_assoc.
    split; [done|]. intros Hr. rewrite <- app_assoc in Hr.
    rewrite (readFrame_frame_octets cr f (P ++ rest)); [| done | subst f; cbn [PayloadLength]; lia | done].
    replace (PayloadLength f >? MAX_PAYLOAD_LENGTH) with false by (subst f; cbn [PayloadLength]; lia).
    split; [done|].
    rewrite (Read_enough _ (length P) P rest); [| done | done | done].
    by destruct cr.
Qed.

Lemma framing_round_trip_witness :
  let c := mkConn [] [] None None false in
  let source := [[Byte.x7a; Byte.x66]; [Byte.x73]] in
  let P := [Byte.x40; Byte.x61] in
  let wire1 := [Byte.x02; Byte.x01; Byte.x03; Byte.x00; Byte.x00; Byte.x00;
                Byte.x7a; Byte.x66; Byte.x73] in
  let wire2 := [Byte.x01; Byte.x01; Byte.x02; Byte.x00; Byte.x00; Byte.x00;
                Byte.x40; Byte.x61] in
  let cr1 := mkConn wire1 [] None None false in
  let cr2 := mkConn wire2 [] None None false in
  (exists w c2,
     io_Copy (NewFrameBridgingWriter FrameTypeData (-1)) c source = Some (None, w) /\
     frameBridgingWriter_Close (fst w) (snd w) = (None, c2) /\
     wbuf (snd c2) = wire1) /\
  (exists j r', forall fuel, (j <= fuel)%nat ->
     readAll fuel (NewFrameBridgingReader FrameTypeData (-1)) cr1 1 =
       Some ((concat source, io_EOF), (r', set_rbuf cr1 []))) /\
  readFrame cr2 = ((mkFrame FrameTypeHeader true 2, None), set_rbuf cr2 P) /\
  Read (set_rbuf cr2 P) 2 = ((P, None), set_rbuf cr2 []).
Proof.
  intros c source P wire1 wire2 cr1 cr2.
  destruct (framing_round_trip FrameTypeData source [] c cr1 [] 1) as [Hs _];
    [reflexivity | reflexivity | reflexivity | lia | by vm_compute | by vm_compute |].
  destruct (framing_round_trip FrameTypeHeader [] P c cr2 [] 1) as [_ Hf];
    [reflexivity | reflexivity | reflexivity | lia | by vm_compute | by vm_compute |].
  destruct Hs as (w1 & c1 & w2 & c2 & wire & Hcopy & Hclose & Hwire & Hread).
  assert (Hcopy' := Hcopy). vm_compute in Hcopy'. injection Hcopy' as <- <-.
  assert (Hclose' := Hclose). vm_compute in Hclose'. injection Hclose' as <- <-.
  cbn in Hwire. subst wire.
  destruct Hf as (d1 & d2 & wire & Hwf & Hwr & Hwire & Hback).
  assert (Hwf' := Hwf). vm_compute in Hwf'. injection Hwf' as <-.
  assert (Hwr' := Hwr). vm_compute in Hwr'. injection Hwr' as <-.
  cbn in Hwire. subst wire.
  split; [eexists (_, _), (_, _); split; [exact Hcopy|]; split; [exact Hclose|];
          reflexivity|].
  split; [exact (Hread eq_refl)|].
  exact (Hback eq_refl).
Defined.

(** A writer whose frames hold three octets cuts seven octets into three
    frames; the reader, reading two octets at a time, returns the seven. *)
Example small_frames_round_trip :
  let c := mkConn [] [] None None false in
  let s := map byte_of_Z [10; 11; 12; 13; 14; 15; 16] in
  match frameBridgingWriter_Write (mkWriter FrameTypeData (-1) 3 []) c s with
  | Some ((n, None), (w1, c1)) =>
      match frameBridgingWriter_Close w1 c1 with
      | (None, (_, c2)) =>
          n = 7%nat /\
          map Z_of_byte (wbuf c2) =
            [2; 0; 3; 0; 0; 0; 10; 11; 12;  2; 0; 3; 0; 0; 0; 13; 14; 15;
             2; 1; 1; 0; 0; 0; 16] /\
          fst <$> readAll 20 ReadData (mkConn (wbuf c2) [] None None false) 2
            = Some (s, io_EOF)
      | _ => False
      end
  | _ => False
  end.
Proof. vm_compute. repeat split. Qed.

(** ** Hanging up *)

(** C10. [HangUp] closes the channel whatever [writeFrame] returned for the
    RST frame; it returns the error of that write when there is one, and
    the result of [Close] otherwise. *)
Theorem HangUp_closes_channel (c : Conn) :
  let rst := writeFrame c (mkFrame FrameTypeRST false 0) in
  snd (HangUp c) = snd (Close (snd rst)) /\
  closed (snd (HangUp c)) = true /\
  fst (HangUp c) = match fst rst with
                   | Some e => Some e
                   | None => fst (Close (snd rst))
                   end.
Proof.
  intros rst. subst rst. unfold HangUp.
  destruct (writeFrame c _) as [rstFrameError c1]. simpl.
  pose proof (Close_closed c1) as Hcl.
  destruct (Close c1) as [closeErr c2]. simpl in *.
  by destruct rstFrameError.
Qed.

(** ** The limit of a reader *)

Lemma Read_length c n : (length (fst (fst (Read c n))) <= n)%nat.
Proof.
  unfold Read. destruct (closed c); [simpl; lia|].
  destruct n; [simpl; lia|]. destruct (rbuf c) eqn:E; [simpl; lia|].
  cbn [fst]. rewrite length_take. lia.
Qed.

Lemma readPayload_limit r c k :
  0 < r_bytesLeftToLimit r < 2 ^ 63 ->
  let '((bs, _), (r', _)) := readPayload r c k in
  r_bytesLeftToLimit r' = r_bytesLeftToLimit r - Z.of_nat (length bs) /\
  0 <= r_bytesLeftToLimit r'.
Proof.
  intros Hbl. unfold readPayload.
  set (m0 := if Z.of_nat k >? PayloadLength (r_f r)
             then PayloadLength (r_f r) else Z.of_nat k).
  set (m1 := if (r_bytesLeftToLimit r >? 0) && (m0 >? r_bytesLeftToLimit r)
             then r_bytesLeftToLimit r else m0).
  assert (Hm1 : m1 <= r_bytesLeftToLimit r).
  { subst m1. replace (r_bytesLeftToLimit r >? 0) with true by lia. cbn [andb].
    destruct (Z.gtb_spec m0 (r_bytesLeftToLimit r)); lia. }
  pose proof (Read_length c (Z.to_nat m1)) as Hlen.
  destruct (Read c (Z.to_nat m1)) as [[bs e] c']. cbn [fst] in Hlen.
  cbn [r_bytesLeftToLimit].
  rewrite wrap_int_small by lia. lia.
Qed.

Lemma frameBridgingReader_Read_limit r c k :
  0 <= r_bytesLeftToLimit r < 2 ^ 63 ->
  let '((bs, _), (r', _)) := frameBridgingReader_Read r c k in
  r_bytesLeftToLimit r' = r_bytesLeftToLimit r - Z.of_nat (length bs) /\
  0 <= r_bytesLeftToLimit r'.
Proof.
  intros Hbl. unfold frameBridgingReader_Read.
  destruct (Z.eqb_spec (r_bytesLeftToLimit r) 0) as [H0|H0]; [simpl; lia|].
  destruct (PayloadLength (r_f r) =? 0).
  - destruct (NoMoreFrames (r_f r)); [simpl; lia|].
    destruct (readFrame c) as [[f [e|]] c1]; [simpl; lia|].
    destruct (negb _); [simpl; lia|].
    apply (readPayload_limit (set_r_f r f)). simpl. lia.
  - apply readPayload_limit. lia.
Qed.

(** X1. A reader with a limit hands out no more octets than its limit, and
    counts what it hands out: whatever the channel holds, a read to the end
    through a reader with [L] octets left returns at most [L] octets. *)
Theorem reader_limit : forall (fuel : nat) (r : frameBridgingReader) (c : Conn)
    (k : nat) (bs : list byte) (e : error) (r' : frameBridgingReader) (c' : Conn),
  0 <= r_bytesLeftToLimit r < 2 ^ 63 ->
  readAll fuel r c k = Some ((bs, e), (r', c')) ->
  Z.of_nat (length bs) <= r_bytesLeftToLimit r /\
  r_bytesLeftToLimit r' = r_bytesLeftToLimit r - Z.of_nat (length bs).
Proof.
  induction fuel as [|fuel IH]; intros r c k bs e r' c' Hbl Hrun; [done|].
  rewrite readAll_S in Hrun.
  pose proof (frameBridgingReader_Read_limit r c k Hbl) as Hstep.
  destruct (frameBridgingReader_Read r c k) as [[bs1 [e1|]] [r1 c1]].
  - injection Hrun as <- <- <- <-. lia.
  - destruct (readAll fuel r1 c1 k) as [[[rest e2] [r2 c2]]|] eqn:Hrest; [|done].
    cbn [prepend] in Hrun. injection Hrun as <- <- <- <-.
    destruct (IH r1 c1 k rest e2 r2 c2) as [Hle Heq]; [lia | done |].
    rewrite length_app. lia.
Qed.

Lemma reader_limit_witness :
  let p := [Byte.x7b; Byte.x7d; Byte.x0a; Byte.x41; Byte.x42] in
  let c := mkConn (frame_wire FrameTypeHeader true p) [] None None false in
  let r := NewFrameBridgingReader FrameTypeHeader 2 in
  let r' := mkReader FrameTypeHeader 0 (mkFrame FrameTypeHeader true 3) in
  let c' := set_rbuf c (drop 2 p) in
  0 <= r_bytesLeftToLimit r < 2 ^ 63 /\
  readAll 5 r c 4 = Some ((take 2 p, io_EOF), (r', c')) /\
  Z.of_nat (length (take 2 p)) <= r_bytesLeftToLimit r /\
  r_bytesLeftToLimit r' = r_bytesLeftToLimit r - Z.of_nat (length (take 2 p)).
Proof.
  intros p c r r' c'.
  assert (Hbl : 0 <= r_bytesLeftToLimit r < 2 ^ 63) by (simpl; lia).
  assert (Hrun : readAll 5 r c 4 = Some ((take 2 p, io_EOF), (r', c')))
    by (vm_compute; reflexivity).
  split; [exact Hbl|]. split; [exact Hrun|].
  exact (reader_limit 5 r c 4 (take 2 p) io_EOF r' c' Hbl Hrun).
Defined.

(** X2. A reader does not reject a frame of another type.  With a frame of type
    [t'] and a payload [p] waiting on the channel, the first [Read] of a
    reader for [t] returns no octets and no error and makes the frame its
    current one; the next [Read] hands out the payload like that of a frame
    of its own type. *)
Theorem reader_takes_frame_of_other_type (t t' : FrameType) (nm : bool)
    (p rest : list byte) (c : Conn) (k : nat) :
  t' <> t -> (0 < k)%nat -> closed c = false ->
  Z.of_nat (length p) <= MAX_PAYLOAD_LENGTH ->
  rbuf c = frame_wire t' nm p ++ rest ->
  let r := NewFrameBridgingReader t (-1) in
  let f := mkFrame t' nm (Z.of_nat (length p)) in
  let n := Nat.min k (length p) in
  frameBridgingReader_Read r c k =
    (([], None), (set_r_f r f, set_rbuf c (p ++ rest))) /\
  (p <> [] ->
   frameBridgingReader_Read (set_r_f r f) (set_rbuf c (p ++ rest)) k =
     ((take n p, None),
      (mkReader t (-1 - Z.of_nat n) (mkFrame t' nm (Z.of_nat (length (drop n p)))),
       set_rbuf c (drop n p ++ rest)))).
Proof.
  intros Ht Hk Hc Hmax Hr r f n.
  unfold frame_wire in Hr. rewrite <- app_assoc in Hr. fold f in Hr.
  split.
  - apply frameBridgingReader_Read_other_type; try done.
    subst f. cbn [PayloadLength]. lia.
  - intros Hp. unfold frameBridgingReader_Read.
    subst r f. unfold set_r_f, NewFrameBridgingReader.
    cbn [r_bytesLeftToLimit r_f PayloadLength r_frameType].
    change (-1 =? 0) with false. cbv iota.
    replace (Z.of_nat (length p) =? 0) with false
      by (destruct p; [done | simpl; lia]).
    unfold MAX_PAYLOAD_LENGTH in Hmax.
    rewrite (readPayload_chunk t k Hk (-1) t' nm p (set_rbuf c (p ++ rest)) rest);
      [| lia | lia | done | done | done].
    fold n. by destruct c.
Qed.

Lemma reader_takes_frame_of_other_type_witness :
  let p := [Byte.x61; Byte.x62; Byte.x63] in
  let c := mkConn (frame_wire FrameTypeData true p) [] None None false in
  let r := NewFrameBridgingReader FrameTypeHeader (-1) in
  FrameTypeData <> FrameTypeHeader /\
  fst (frameBridgingReader_Read r c 2) = ([], None) /\
  fst (frameBridgingReader_Read (snd (frameBridgingReader_Read r c 2)).1
                                (snd (frameBridgingReader_Read r c 2)).2 2)
    = ([Byte.x61; Byte.x62], None).
Proof.
  intros p c r.
  assert (Ht : FrameTypeData <> FrameTypeHeader) by discriminate.
  split; [exact Ht|].
  destruct (reader_takes_frame_of_other_type FrameTypeHeader FrameTypeData true p [] c 2)
    as [H1 H2]; [exact Ht | lia | reflexivity | by vm_compute | by rewrite app_nil_r |].
  fold r in H1, H2. rewrite H1. split; [reflexivity|].
  cbn [fst snd]. rewrite H2; [reflexivity | discriminate].
Defined.

(** ** The end of the channel *)

(** X3. A channel that ends before the six octets of a frame header are there:
    [readFrame] takes what is left and returns an error, [io.EOF] when a
    field starts at the end of the input and [io.ErrUnexpectedEOF] when the
    length field is cut.  A reader that needs a frame passes the error on
    wrapped, so that it is not the [io.EOF] that ends a stream. *)
Theorem readFrame_truncated (c : Conn) :
  closed c = false -> (length (rbuf c) < 6)%nat ->
  let e := if (length (rbuf c) <? 3)%nat then io_EOF else io_ErrUnexpectedEOF in
  (exists f, readFrame c = ((f, Some (WithStack e)), set_rbuf c [])) /\
  (forall r k,
     r_bytesLeftToLimit r <> 0 ->
     PayloadLength (r_f r) = 0 -> NoMoreFrames (r_f r) = false ->
     exists r',
       frameBridgingReader_Read r c k =
         (([], Some (Wrap (WithStack e) "error reading frame")), (r', set_rbuf c []))).
Proof.
  intros Hc Hlen e.
  assert (Hrf : exists f, readFrame c = ((f, Some (WithStack e)), set_rbuf c [])).
  { subst e. destruct c as [rb wb wf cf cl]. cbn in Hc, Hlen. subst cl.
    unfold readFrame, binary_Read, io_ReadFull.
    destruct rb as [|b0 [|b1 [|b2 [|b3 [|b4 [|b5 [|b6 rb]]]]]]];
      try (simpl in Hlen; lia); by eexists. }
  split; [exact Hrf|].
  intros r k Hbl Hpl Hnm. destruct Hrf as [f Hrf].
  unfold frameBridgingReader_Read.
  replace (r_bytesLeftToLimit r =? 0) with false by (symmetry; by apply Z.eqb_neq).
  rewrite Hpl, Hnm, Hrf. change (0 =? 0) with true. by eexists.
Qed.

Lemma readFrame_truncated_witness :
  let c := mkConn [Byte.x02; Byte.x01; Byte.x05; Byte.x00] [] None None false in
  (length (rbuf c) < 6)%nat /\
  (exists f, readFrame c = ((f, Some (WithStack io_ErrUnexpectedEOF)), set_rbuf c [])) /\
  exists r',
    frameBridgingReader_Read ReadData c 8 =
      (([], Some (Wrap (WithStack io_ErrUnexpectedEOF) "error reading frame")),
       (r', set_rbuf c [])).
Proof.
  intros c.
  assert (Hlen : (length (rbuf c) < 6)%nat) by (simpl; lia).
  split; [exact Hlen|].
  destruct (readFrame_truncated c eq_refl Hlen) as [Hf Hr].
  split; [exact Hf|].
  apply (Hr ReadData 8%nat); [discriminate | reflexivity | reflexivity].
Defined.

(** ** The frames of a message *)

Section WriterFrames.
Variable t : FrameType.
Variable P : Z.
Hypothesis P_pos : 0 < P.
Hypothesis P_max : P <= MAX_PAYLOAD_LENGTH.

(** The frames a [Write] flushes are full. *)
Lemma Write_loop_full : forall fuel b n buf bl c,
  (length b - n <= fuel)%nat -> (n <= length b)%nat ->
  good c -> bl < 0 -> - 2 ^ 63 <= bl - Z.of_nat (length b - n) ->
  Z.of_nat (length buf) < P ->
  exists ps buf',
    Write_loop fuel (mkWriter t bl P buf) c b n =
      Some ((length b, None),
            (mkWriter t (bl - Z.of_nat (length b - n)) P buf',
             set_wbuf c (wbuf c ++ frames_wire t ps))) /\
    buf ++ drop n b = concat ps ++ buf' /\
    Z.of_nat (length buf') < P /\
    Forall (fun p => Z.of_nat (length p) = P) ps.
Proof.
  induction fuel as [|fuel IH]; intros b n buf bl c Hfuel Hn Hg Hbl Hlo Hbuf.
  - assert (n = length b) by lia. subst n.
    exists [], buf. cbn [Write_loop]. rewrite Nat.ltb_irrefl.
    rewrite Nat.sub_diag, Z.sub_0_r. cbn [frames_wire map concat].
    rewrite set_wbuf_nil, drop_all, app_nil_r. done.
  - cbn [Write_loop]. destruct (Nat.ltb_spec n (length b)) as [Hlt|Hge].
    2:{ assert (n = length b) by lia. subst n.
        exists [], buf.
        rewrite Nat.sub_diag, Z.sub_0_r. cbn [frames_wire map concat].
        rewrite set_wbuf_nil, drop_all, app_nil_r. done. }
    assert (Hd : length (drop n b) = (length b - n)%nat) by apply length_drop.
    assert (Hdne : drop n b <> []).
    { intros E. rewrite E in Hd. simpl in Hd. lia. }
    rewrite (writeUntilFrameFull_good t P P_pos P_max); [| done | done | done | lia | done].
    rewrite Hd.
    set (i := Nat.min (length b - n) (Z.to_nat P - length buf)).
    assert (Hi : (0 < i)%nat) by lia.
    destruct (Nat.eqb_spec (length buf + i) (Z.to_nat P)) as [Heq|Hne].
    + destruct (IH b (n + i)%nat [] (bl - Z.of_nat i)
                  (set_wbuf c (wbuf c ++ frame_wire t false (buf ++ take i (drop n b)))))
        as (ps & buf' & Hrun & Hdata & Hb' & Hps); try lia.
      { by apply good_set_wbuf. }
      { simpl. lia. }
      exists ((buf ++ take i (drop n b)) :: ps), buf'.
      rewrite Hrun. split; [|split; [|split]].
      * rewrite set_wbuf_set_wbuf. cbn [wbuf set_wbuf].
        rewrite frames_wire_cons, <- app_assoc.
        do 4 f_equal. lia.
      * cbn [concat]. rewrite <- app_assoc, <- Hdata. cbn [app].
        rewrite <- (drop_drop b i n), <- app_assoc. by rewrite take_drop.
      * done.
      * constructor; [|done]. rewrite length_app, length_take. lia.
    + destruct (IH b (n + i)%nat (buf ++ take i (drop n b)) (bl - Z.of_nat i) c)
        as (ps & buf' & Hrun & Hdata & Hb' & Hps); try lia.
      { done. }
      { rewrite length_app, length_take. lia. }
      exists ps, buf'.
      rewrite Hrun. split; [|split; [|split]]; try done.
      * do 4 f_equal. lia.
      * rewrite <- Hdata, <- app_assoc. f_equal.
        rewrite <- (drop_drop b i n). by rewrite take_drop.
Qed.

Lemma io_Copy_full : forall source buf bl c,
  good c -> bl < 0 -> - 2 ^ 63 <= bl - Z.of_nat (length (concat source)) ->
  Z.of_nat (length buf) < P ->
  exists ps buf',
    io_Copy (mkWriter t bl P buf) c source =
      Some (None,
            (mkWriter t (bl - Z.of_nat (length (concat source))) P buf',
             set_wbuf c (wbuf c ++ frames_wire t ps))) /\
    buf ++ concat source = concat ps ++ buf' /\
    Z.of_nat (length buf') < P /\
    Forall (fun p => Z.of_nat (length p) = P) ps.
Proof.
  induction source as [|b source IH]; intros buf bl c Hg Hbl Hlo Hbuf.
  - exists [], buf. cbn [io_Copy concat length frames_wire map].
    rewrite Z.sub_0_r, set_wbuf_nil, app_nil_r. done.
  - cbn [concat] in *. rewrite length_app in Hlo.
    cbn [io_Copy]. unfold frameBridgingWriter_Write.
    destruct (Write_loop_full (S (2 * length b)) b 0 buf bl c)
      as (ps1 & buf1 & Hrun & Hdata1 & Hb1 & Hps1); try done; try lia.
    rewrite Hrun, Nat.eqb_refl. rewrite Nat.sub_0_r in *. rewrite drop_0 in Hdata1.
    destruct (IH buf1 (bl - Z.of_nat (length b))
                (set_wbuf c (wbuf c ++ frames_wire t ps1)))
      as (ps2 & buf2 & Hcopy & Hdata2 & Hb2 & Hps2);
      [by apply good_set_wbuf | lia | lia | done |].
    exists (ps1 ++ ps2), buf2. rewrite Hcopy.
    split; [|split; [|split]].
    + rewrite set_wbuf_set_wbuf. cbn [wbuf set_wbuf].
      rewrite frames_wire_app, <- app_assoc, length_app.
      do 4 f_equal. lia.
    + rewrite concat_app, <- app_assoc, <- Hdata2, !app_assoc. by rewrite Hdata1.
    + done.
    + by apply Forall_app.
Qed.
End WriterFrames.

(** X4. What [WriteData] puts on the wire for a stream: frames of type Data
    that carry the stream in order; every frame but the last is not marked
    as the last and carries 4 MiB, the last is marked and carries the
    rest, less than 4 MiB (nothing, when the stream fills the frames before
    it).  So a stream of [n] octets takes [n / 4 MiB + 1] frames. *)
Theorem WriteData_wire (source : list (list byte)) (c : Conn) :
  closed c = false -> wfault c = None ->
  Z.of_nat (length (concat source)) < 2 ^ 63 ->
  exists ps last,
    WriteData c source =
      Some (None, set_wbuf c (wbuf c ++ frames_wire FrameTypeData ps
                                     ++ frame_wire FrameTypeData true last)) /\
    concat source = concat ps ++ last /\
    Forall (fun p => Z.of_nat (length p) = MAX_PAYLOAD_LENGTH) ps /\
    Z.of_nat (length last) < MAX_PAYLOAD_LENGTH /\
    Z.of_nat (length ps) = Z.of_nat (length (concat source)) / MAX_PAYLOAD_LENGTH.
Proof.
  intros Hc Hw Hlen. assert (Hg : good c) by done.
  unfold WriteData, NewFrameBridgingWriter.
  destruct (io_Copy_full FrameTypeData MAX_PAYLOAD_LENGTH MAX_PAYLOAD_LENGTH_pos
              ltac:(lia) source [] (-1) c)
    as (ps & last & Hcopy & Hdata & Hlast & Hps); try done; try lia.
  exists ps, last. rewrite Hcopy. unfold frameBridgingWriter_Close.
  rewrite (flush_good FrameTypeData MAX_PAYLOAD_LENGTH ltac:(lia));
    [| by apply good_set_wbuf | lia].
  rewrite set_wbuf_set_wbuf. cbn [wbuf set_wbuf]. rewrite <- app_assoc.
  cbn [app] in Hdata.
  do 4 (split; [done|]).
  assert (Hsum : Z.of_nat (length (concat ps)) = Z.of_nat (length ps) * MAX_PAYLOAD_LENGTH).
  { clear -Hps. induction Hps as [|p ps Hp _ IH]; [done|].
    cbn [concat length]. rewrite length_app. lia. }
  rewrite Hdata, length_app.
  apply (Z.div_unique_pos _ _ _ (Z.of_nat (length last))); lia.
Qed.

Lemma WriteData_wire_witness :
  let c := mkConn [] [] None None false in
  let source := [[Byte.x7a; Byte.x66]; [Byte.x73]] in
  exists ps last,
    WriteData c source =
      Some (None, set_wbuf c (wbuf c ++ frames_wire FrameTypeData ps
                                     ++ frame_wire FrameTypeData true last)) /\
    concat source = concat ps ++ last /\
    Z.of_nat (length ps) = 0.
Proof.
  intros c source.
  destruct (WriteData_wire source c) as (ps & last & Hw & Hd & _ & _ & Hn);
    [reflexivity | reflexivity | by vm_compute |].
  exists ps, last. split; [exact Hw|]. split; [exact Hd|].
  rewrite Hn. reflexivity.
Defined.

(** ** The wire of a hang-up *)

(** X5. [HangUp] on an open channel whose peer listens puts the six octets of
    an RST frame without payload on the wire, closes the channel and
    returns what [Close] returned.  On a channel that is closed already
    it returns the error of the write. *)
Theorem HangUp_wire (c : Conn) :
  (closed c = false -> wfault c = None ->
   HangUp c = (cfault c,
               set_closed (set_wbuf c (wbuf c ++ [Byte.xff; Byte.x00; Byte.x00;
                                                   Byte.x00; Byte.x00; Byte.x00])))) /\
  (closed c = true -> HangUp c = (Some (WithStack os_ErrClosed), c)).
Proof.
  split.
  - intros Hc Hw. unfold HangUp. rewrite writeFrame_writable by done.
    unfold Close. cbn. destruct c; simpl in *; by subst.
  - intros Hc. unfold HangUp, writeFrame, binary_Write, Write, Close.
    rewrite Hc. cbn. by rewrite Hc.
Qed.

Lemma HangUp_wire_witness :
  let c := mkConn [] [Byte.x31] None (Some io_ErrShortWrite) false in
  HangUp c = (Some io_ErrShortWrite,
              mkConn [] [Byte.x31; Byte.xff; Byte.x00; Byte.x00;
                         Byte.x00; Byte.x00; Byte.x00]
                     None (Some io_ErrShortWrite) true) /\
  HangUp (snd (HangUp c)) = (Some (WithStack os_ErrClosed), snd (HangUp c)).
Proof.
  intros c. destruct (HangUp_wire c) as [Hopen _].
  destruct (HangUp_wire (snd (HangUp c))) as [_ Hclosed].
  split; [exact (Hopen eq_refl eq_refl) | exact (Hclosed eq_refl)].
Defined.

(** ** A writer with a limit *)

Lemma Write_loop_done fuel w c b :
  Write_loop fuel w c b (length b) = Some ((length b, None), (w, c)).
Proof. destruct fuel; cbn [Write_loop]; by rewrite Nat.ltb_irrefl. Qed.

(** Fewer octets than the limit: they stay in the buffer, and the channel
    is not touched. *)
Lemma Write_buffers t L b c :
  Z.of_nat (length b) < L -> L <= MAX_PAYLOAD_LENGTH ->
  frameBridgingWriter_Write (NewFrameBridgingWriter t L) c b =
    Some ((length b, None),
          (mkWriter t (L - Z.of_nat (length b)) MAX_PAYLOAD_LENGTH b, c)).
Proof.
  intros Hlen HL. unfold frameBridgingWriter_Write, NewFrameBridgingWriter.
  unfold MAX_PAYLOAD_LENGTH in HL.
  destruct b as [|b0 b'] eqn:Eb.
  { cbn. by rewrite Z.sub_0_r. }
  cbn [Write_loop]. change (0 <? length (b0 :: b'))%nat with true. cbv iota.
  rewrite drop_0. unfold writeUntilFrameFull. rewrite <- Eb in *.
  cbn [w_bytesLeftToLimit w_payloadLength w_frameType w_buffer].
  unfold buffer_Len. cbn [w_buffer w_payloadLength w_bytesLeftToLimit length].
  assert (Hpos : 0 < Z.of_nat (length b)) by (subst b; simpl; lia).
  replace (L =? 0) with false by lia.
  rewrite Z.sub_0_r.
  replace (Z.of_nat (length b) >? MAX_PAYLOAD_LENGTH) with false
    by (unfold MAX_PAYLOAD_LENGTH; lia).
  replace (Z.of_nat (length b) >? L) with false by lia.
  rewrite andb_false_r, Nat2Z.id, firstn_all.
  rewrite wrap_int_small by lia.
  replace (L - Z.of_nat (length b) =? 0) with false by lia.
  cbn [app].
  replace (Z.of_nat (length b) =? MAX_PAYLOAD_LENGTH) with false
    by (unfold MAX_PAYLOAD_LENGTH; lia).
  cbn [Nat.add]. apply Write_loop_done.
Qed.

(** As many octets as the limit, or more: the writer takes as many as the
    limit, sends them in a frame marked as the last, and refuses the
    rest. *)
Lemma Write_fills_limit t L b c :
  good c -> 0 < L <= MAX_PAYLOAD_LENGTH -> L <= Z.of_nat (length b) ->
  frameBridgingWriter_Write (NewFrameBridgingWriter t L) c b =
    Some ((Z.to_nat L,
           if (Z.to_nat L <? length b)%nat
           then Some (WithStack err_limit_exceeded) else None),
          (mkWriter t 0 MAX_PAYLOAD_LENGTH [],
           set_wbuf c (wbuf c ++ frame_wire t true (take (Z.to_nat L) b)))).
Proof.
  intros Hg HL Hlen. unfold frameBridgingWriter_Write, NewFrameBridgingWriter.
  pose proof (eq_refl : MAX_PAYLOAD_LENGTH = 4194304) as HP.
  destruct b as [|b0 b'] eqn:Eb; [simpl in Hlen; lia|].
  cbn [Write_loop]. change (0 <? length (b0 :: b'))%nat with true. cbv iota.
  rewrite drop_0. unfold writeUntilFrameFull. rewrite <- Eb in *.
  cbn [w_bytesLeftToLimit w_payloadLength w_frameType w_buffer].
  unfold buffer_Len. cbn [w_buffer w_payloadLength w_bytesLeftToLimit length].
  replace (L =? 0) with false by lia.
  rewrite Z.sub_0_r.
  set (m0 := if Z.of_nat (length b) >? MAX_PAYLOAD_LENGTH
             then MAX_PAYLOAD_LENGTH else Z.of_nat (length b)).
  assert (Hm : (if (L >? 0) && (m0 >? L) then L else m0) = L).
  { subst m0. destruct (Z.gtb_spec (Z.of_nat (length b)) MAX_PAYLOAD_LENGTH);
      replace (L >? 0) with true by lia; cbn [andb];
      match goal with |- context [?a >? ?b] => destruct (Z.gtb_spec a b) end; lia. }
  rewrite Hm, Z.sub_diag. cbn [app].
  change (wrap_int 0 =? 0) with true. cbv iota.
  change (wrap_int 0) with 0.
  rewrite (flush_good t MAX_PAYLOAD_LENGTH ltac:(lia)); [| done |].
  2:{ rewrite length_take. lia. }
  cbn [Nat.add].
  destruct (Nat.ltb_spec (Z.to_nat L) (length b)) as [Hlt|Hge].
  - replace (2 * length b)%nat with (S (2 * length b - 1)) by lia.
    cbn [Write_loop].
    replace (Z.to_nat L <? length b)%nat with true by (symmetry; by apply Nat.ltb_lt).
    unfold writeUntilFrameFull.
    destruct (drop (Z.to_nat L) b) as [|d0 d'] eqn:Ed.
    { apply (f_equal length) in Ed. rewrite length_drop in Ed. simpl in Ed. lia. }
    cbn [w_bytesLeftToLimit]. change (0 =? 0) with true. cbv iota.
    by rewrite Nat.add_0_r.
  - replace (Z.to_nat L) with (length b) by lia. apply Write_loop_done.
Qed.

Lemma HangUp_closed c : closed (snd (HangUp c)) = true.
Proof.
  unfold HangUp. destruct (writeFrame c _) as [e c1].
  pose proof (Close_closed c1) as H. destruct (Close c1) as [e' c2].
  by destruct e.
Qed.

End Rpc.

Module Dispatch.

(** ** Headers (declared in rpc/frame_layer.go) *)

(** [Status] is a [uint64], [DataType] a [uint8]: a header read from the
    wire can hold any value of these, so they are numbers here, with the
    constants the sources declare. *)
Definition status := Z.
Definition StatusOK : status := 1.
Definition StatusRequestError : status := 2.
Definition StatusServerError : status := 3.

Definition data_type := Z.
Definition DataTypeMarshaledJSON : data_type := 1.
Definition DataTypeOctets : data_type := 2.

Record Header : Type := mkHeader {
  Endpoint : string;        (* request only *)
  DataType : data_type;     (* request and reply *)
  Accept : data_type;       (* request only *)
  Error : status;           (* reply only *)
  ErrorMessage : string     (* reply only *)
}.

(** The panic of the Go runtime when a nil pointer is dereferenced. *)
Definition nil_dereference : string :=
  "runtime error: invalid memory address or nil pointer dereference".

(** [NewErrorHeader(status, format, args...)], the message formatted. *)
Definition NewErrorHeader (st : status) (msg : string) : Header :=
  mkHeader "" 0 0 st msg.

(** ** What the dispatcher runs on

    The dispatcher calls the message layer ([s.ml]), [encoding/json] and,
    through [reflect], the registered handlers.  All of them act on the
    connection, and a handler on the machine besides; [St] is the state of
    both.  [Value] is a Go value (a decoded request, a handler's result, an
    [io.Reader]), [rtype] a [reflect.Type]. *)
Inductive DataSource (Value : Type) : Type :=
  | BufferSource (buf : list byte)    (* &dataBuf, the marshaled result *)
  | ReaderSource (r : Value).         (* the handler's io.Reader *)
Arguments BufferSource {Value} buf.
Arguments ReaderSource {Value} r.

Record MessageLayer (St Value rtype : Type) : Type := mkMessageLayer {
  (** [ml.ReadHeader()].  The header comes as a pointer; [None] is the
      nil pointer, which the JSON decoder leaves in it for the header
      text [null]. *)
  ml_ReadHeader : St -> (option Header * option error) * St;
  (** [ml.WriteHeader(h)] *)
  ml_WriteHeader : Header -> St -> option error * St;
  (** [ml.ReadData()] as a value, the reader a handler of octets gets *)
  ml_ReadData : Value;
  (** [json.NewDecoder(ml.ReadData()).Decode(reflect.New(t.Elem()).Interface())] *)
  ml_DecodeData : rtype -> St -> (Value * option error) * St;
  (** [json.NewEncoder(&dataBuf).Encode(v)] *)
  json_Encode : Value -> list byte * option error;
  (** [ml.WriteData(source)] *)
  ml_WriteData : DataSource Value -> St -> option error * St;
  (** [ml.HangUp()] *)
  ml_HangUp : St -> option error * St;
  (** [%s] of a [DataType] *)
  fmt_DataType : data_type -> string
}.
Arguments ml_ReadHeader {St Value rtype} _ _.
Arguments ml_WriteHeader {St Value rtype} _ _ _.
Arguments ml_ReadData {St Value rtype} _.
Arguments ml_DecodeData {St Value rtype} _ _ _.
Arguments json_Encode {St Value rtype} _ _.
Arguments ml_WriteData {St Value rtype} _ _ _.
Arguments ml_HangUp {St Value rtype} _ _.
Arguments fmt_DataType {St Value rtype} _ _.

Section Server.
Context {St Value rtype : Type}.
Variable ml : MessageLayer St Value rtype.

(** The status a handler's error is reported with.  [ServeRequest] names
    it [StatusError]; rpc/frame_layer.go declares [StatusOK],
    [StatusRequestError] and [StatusServerError], and no constant of that
    name. *)
Variable StatusError : status.

Record typeMap : Type := mkTypeMap {
  local : rtype;
  proto : data_type
}.

(** A handler as [handler.Call] runs it: from the input value to the
    value behind the output pointer and the error. *)
Definition handler_func : Type := Value -> St -> (Value * option error) * St.

Record endpointDescr : Type := mkEndpointDescr {
  inType : typeMap;
  outType : typeMap;
  handler : handler_func
}.

Record Server : Type := mkServer {
  endpoints : gmap string endpointDescr
}.

(** [Server.RegisterEndpoint], [descr] being what [makeEndpointDescr]
    returned for the handler. *)
Definition RegisterEndpoint (s : Server) (name : string)
    (descr : endpointDescr * option error) : option error * Server :=
  match endpoints s !! name with
  | Some _ =>
      (Some (Errorf ("already set up an endpoint for '" ++ name ++ "'")%string), s)
  | None => (snd descr, mkServer (<[name := fst descr]> (endpoints s)))
  end.

Definition writeResponse (h : Header) (st : St) : option error * St :=
  ml_WriteHeader ml h st.

(** [Server.recvRequest]: the validation is a TODO in the source, so a
    header that was read is returned as it is, also a nil one. *)
Definition recvRequest (st : St) : (option Header + error) * St :=
  let '((h, err), st1) := ml_ReadHeader ml st in
  match err with
  | Some e => (inr e, st1)
  | None => (inl h, st1)
  end.

Definition msg_unregistered (h : Header) : string :=
  ("unregistered endpoint " ++ Endpoint h)%string.

Definition msg_wrong_DataType (h : Header) (ep : endpointDescr) : string :=
  ("wrong DataType for endpoint " ++ Endpoint h ++ " (has "
     ++ fmt_DataType ml (proto (inType ep)) ++ ", you provided "
     ++ fmt_DataType ml (DataType h) ++ ")")%string.

Definition msg_wrong_Accept (h : Header) (ep : endpointDescr) : string :=
  ("wrong Accept for endpoint " ++ Endpoint h ++ " (has "
     ++ fmt_DataType ml (proto (outType ep)) ++ ", you provided "
     ++ fmt_DataType ml (Accept h) ++ ")")%string.

(** The reply of [ServeRequest] once the handler has returned without
    error. *)
Definition sendResult (ep : endpointDescr) (outval : Value) (st : St)
  : outcome (option error) * St :=
  if proto (outType ep) =? DataTypeMarshaledJSON then
    match json_Encode ml outval with
    | (_, Some e) =>
        let r := NewErrorHeader StatusServerError
                   ("cannot marshal response: " ++ error_Error e)%string in
        let '(err, st1) := writeResponse r st in (Ret err, st1)
    | (dataBuf, None) =>
        let replyHeader := mkHeader "" (proto (outType ep)) 0 StatusOK "" in
        match writeResponse replyHeader st with
        | (Some e, st1) => (Ret (Some e), st1)
        | (None, st1) =>
            match ml_WriteData ml (BufferSource dataBuf) st1 with
            | (Some e, st2) => (Ret (Some e), st2)
            | (None, st2) => (Ret None, st2)
            end
        end
    end
  else if proto (outType ep) =? DataTypeOctets then
    let h := mkHeader "" DataTypeOctets 0 StatusOK "" in
    match writeResponse h st with
    | (Some e, st1) => (Ret (Some e), st1)
    | (None, st1) =>
        match ml_WriteData ml (ReaderSource outval) st1 with
        | (Some e, st2) => (Ret (Some e), st2)
        | (None, st2) => (Ret None, st2)
        end
    end
  else (Ret None, st).

(** [ServeRequest] from the handler call on. *)
Definition callHandler (ep : endpointDescr) (inval : Value) (st : St)
  : outcome (option error) * St :=
  match handler ep inval st with
  | ((_, Some he), st1) =>
      let r := NewErrorHeader StatusError (error_Error he) in
      let '(err, st2) := writeResponse r st1 in (Ret err, st2)
  | ((outval, None), st1) => sendResult ep outval st1
  end.

(** [Server.ServeRequest]: serve a single request.  The error it returns
    is what [Serve] hangs up on. *)
Definition ServeRequest (s : Server) (st : St) : outcome (option error) * St :=
  match recvRequest st with
  | (inr e, st1) => (Ret (Some e), st1)
  | (inl None, st1) => (Panic nil_dereference, st1)      (* h.Endpoint *)
  | (inl (Some h), st1) =>
  match endpoints s !! Endpoint h with
  | None =>
      let r := NewErrorHeader StatusRequestError (msg_unregistered h) in
      let '(err, st2) := writeResponse r st1 in (Ret err, st2)
  | Some ep =>
  if negb (proto (inType ep) =? DataType h) then
    let r := NewErrorHeader StatusRequestError (msg_wrong_DataType h ep) in
    let '(err, st2) := writeResponse r st1 in (Ret err, st2)
  else if negb (proto (outType ep) =? Accept h) then
    let r := NewErrorHeader StatusRequestError (msg_wrong_Accept h ep) in
    let '(err, st2) := writeResponse r st1 in (Ret err, st2)
  else if proto (inType ep) =? DataTypeMarshaledJSON then
    match ml_DecodeData ml (local (inType ep)) st1 with
    | ((_, Some e), st2) =>
        let r := NewErrorHeader StatusRequestError
                   ("cannot decode marshaled JSON: " ++ error_Error e)%string in
        let '(err, st3) := writeResponse r st2 in (Ret err, st3)
    | ((inval, None), st2) => callHandler ep inval st2
    end
  else if proto (inType ep) =? DataTypeOctets then
    callHandler ep (ml_ReadData ml) st1
  else (Panic "not implemented", st1)
  end end.

Definition is_doneServeNext (e : error) : bool :=
  match e with doneServeNext => true | _ => false end.

(** [Server.Serve]: serve the connection until failure.  The loop has no
    exit but an error; [None] says that it is still running after
    [fuel] requests. *)
Fixpoint Serve (fuel : nat) (s : Server) (st : St) : option (outcome error) * St :=
  match fuel with
  | O => (None, st)
  | S fuel' =>
      match ServeRequest s st with
      | (Panic msg, st1) => (Some (Panic msg), st1)
      | (Ret None, st1) => Serve fuel' s st1
      | (Ret (Some e), st1) =>
          if is_doneServeNext e then Serve fuel' s st1
          else let '(_, st2) := ml_HangUp ml st1 in (Some (Ret e), st2)
      end
  end.

(** [Server.ServeConn] of rpc/rpc_layer.go, the older entry point that
    serves one request: every error reply is followed by [HangUp], and a
    handler's error is not implemented. *)
Definition replyAndHangUp (r : Header) (st : St) : outcome (option error) * St :=
  match ml_WriteHeader ml r st with
  | (Some e, st1) => (Ret (Some (WithStack e)), st1)
  | (None, st1) => let '(err, st2) := ml_HangUp ml st1 in (Ret err, st2)
  end.

(** [ServeConn] from the handler call on. *)
Definition callHandlerConn (ep : endpointDescr) (inval : Value) (st : St)
  : outcome (option error) * St :=
  match handler ep inval st with
  | ((_, Some _), st1) => (Panic "not implemented", st1)
  | ((outval, None), st1) =>
      if proto (outType ep) =? DataTypeMarshaledJSON then
        match json_Encode ml outval with
        | (_, Some e) =>
            replyAndHangUp
              (NewErrorHeader StatusServerError
                 ("cannot marshal response: " ++ error_Error e)%string) st1
        | (dataBuf, None) =>
            let replyHeader := mkHeader "" (proto (outType ep)) 0 StatusOK "" in
            match ml_WriteHeader ml replyHeader st1 with
            | (Some e, st2) => (Ret (Some (WithStack e)), st2)
            | (None, st2) =>
                let '(err, st3) := ml_WriteData ml (BufferSource dataBuf) st2 in
                (Ret (errors_WithStack err), st3)
            end
        end
      else if proto (outType ep) =? DataTypeOctets then
        let h := mkHeader "" DataTypeOctets 0 0 "" in
        match ml_WriteHeader ml h st1 with
        | (Some e, st2) => (Ret (Some (WithStack e)), st2)
        | (None, st2) =>
            let '(err, st3) := ml_WriteData ml (ReaderSource outval) st2 in
            (Ret (errors_WithStack err), st3)
        end
      else (Ret None, st1)
  end.

Definition ServeConn (s : Server) (st : St) : outcome (option error) * St :=
  match ml_ReadHeader ml st with
  | ((None, _), st1) => (Panic nil_dereference, st1)     (* h.Endpoint *)
  | ((Some h, _), st1) =>
  match endpoints s !! Endpoint h with
  | None =>
      replyAndHangUp (NewErrorHeader StatusRequestError (msg_unregistered h)) st1
  | Some ep =>
  if negb (proto (inType ep) =? DataType h) then
    replyAndHangUp (NewErrorHeader StatusRequestError (msg_wrong_DataType h ep)) st1
  else if negb (proto (outType ep) =? Accept h) then
    replyAndHangUp (NewErrorHeader StatusRequestError (msg_wrong_Accept h ep)) st1
  else if proto (inType ep) =? DataTypeMarshaledJSON then
    match ml_DecodeData ml (local (inType ep)) st1 with
    | ((_, Some e), st2) =>
        replyAndHangUp
          (NewErrorHeader StatusRequestError
             "cannot decode marshaled JSON: %!s(MISSING)") st2
    | ((inval, None), st2) => callHandlerConn ep inval st2
    end
  else if proto (inType ep) =? DataTypeOctets then
    callHandlerConn ep (ml_ReadData ml) st1
  else (Panic "not implemented", st1)
  end end.

(** What the server has read of a request when it calls the handler:
    the header [h], and for an endpoint that takes JSON the decoded data
    message. *)
Definition handler_input (ep : endpointDescr) (st1 : St) (inval : Value) (st2 : St)
  : Prop :=
  (proto (inType ep) = DataTypeMarshaledJSON /\
   ml_DecodeData ml (local (inType ep)) st1 = ((inval, None), st2)) \/
  (proto (inType ep) = DataTypeOctets /\ inval = ml_ReadData ml /\ st2 = st1).


End Server.

(** Modelled from the spec: the constant [StatusError], which
    [ServeRequest] passes to [NewErrorHeader] for a handler's error and
    which no source file declares.  The specification has three
    statuses, "OK=1, RequestError=2, ServerError=3", and reports a
    handler's error as "{Error: ServerError, ErrorMessage: e}". *)
Definition StatusError : status := StatusServerError.


(** ** An in-memory message layer

    The dispatcher is run below on a connection that holds whole messages:
    the requests the client has sent, and the replies written so far.
    The values of the examples are Go ints; a data message holds the JSON
    text of one. *)
Inductive Msg : Type :=
  | HeaderMsg (h : Header)
  | NullMsg                     (* a header message with the text null *)
  | DataMsg (v : list byte).

Record MemConn : Type := mkMemConn {
  inbox : list Msg;
  outbox : list Msg;
  hungUp : bool
}.

Definition zeroHeader : Header := mkHeader "" 0 0 0 "".

(** What a read at the end of the connection returns: [io.EOF] from
    [readFrame], with a stack, wrapped by the frame reader. *)
Definition mem_EOF : error := Wrap (WithStack io_EOF) "error reading frame".

(** The error of the JSON decoder for a text of another shape than the Go
    value it is to fill. *)
Definition json_UnmarshalTypeError (value type : string) : error :=
  Errorf ("json: cannot unmarshal " ++ value ++ " into Go value of type " ++ type).

(** [ReadHeader].  The frame reader hands out the payload of a frame of
    any type, so a data message is read where a header is expected; the
    text of a number does not decode into a header. *)
Definition mem_ReadHeader (st : MemConn) : (option Header * option error) * MemConn :=
  match inbox st with
  | HeaderMsg h :: rest => ((Some h, None), mkMemConn rest (outbox st) (hungUp st))
  | NullMsg :: rest => ((None, None), mkMemConn rest (outbox st) (hungUp st))
  | DataMsg _ :: rest =>
      ((Some zeroHeader, Some (json_UnmarshalTypeError "number" "rpc.Header")),
       mkMemConn rest (outbox st) (hungUp st))
  | [] => ((Some zeroHeader, Some mem_EOF), st)
  end.

(** Decoding the data message into an int.  A header message is read
    where data is expected and does not decode; null leaves the int at
    zero. *)
Definition mem_DecodeData (_ : unit) (st : MemConn)
  : (list byte * option error) * MemConn :=
  match inbox st with
  | DataMsg v :: rest => ((v, None), mkMemConn rest (outbox st) (hungUp st))
  | HeaderMsg _ :: rest =>
      (([], Some (json_UnmarshalTypeError "object" "int")),
       mkMemConn rest (outbox st) (hungUp st))
  | NullMsg :: rest => (([Byte.x30], None), mkMemConn rest (outbox st) (hungUp st))
  | [] => (([], Some mem_EOF), st)
  end.

Definition mem_send (m : Msg) (st : MemConn) : option error * MemConn :=
  if hungUp st then (Some os_ErrClosed, st)
  else (None, mkMemConn (inbox st) (outbox st ++ [m]) (hungUp st)).

Definition mem_WriteData (src : DataSource (list byte)) (st : MemConn)
  : option error * MemConn :=
  match src with
  | BufferSource b => mem_send (DataMsg b) st
  | ReaderSource r => mem_send (DataMsg r) st
  end.

Definition mem_HangUp (st : MemConn) : option error * MemConn :=
  (None, mkMemConn (inbox st) (outbox st) true).

(** [%s] of a [DataType], a uint8 without a String method. *)
Definition mem_fmt_DataType (d : data_type) : string :=
  "%!s(rpc.DataType=" ++ pretty d ++ ")".

Definition memLayer : MessageLayer MemConn (list byte) unit :=
  mkMessageLayer MemConn (list byte) unit
    mem_ReadHeader (fun h => mem_send (HeaderMsg h)) [] mem_DecodeData
    (fun v => (v, None)) mem_WriteData mem_HangUp mem_fmt_DataType.

(** Two handlers from JSON to JSON: one returns its input, one fails. *)
Definition echoHandler : @handler_func MemConn (list byte) :=
  fun v st => ((v, None), st).
Definition failingHandler : @handler_func MemConn (list byte) :=
  fun _ st => (([], Some (Errorf "cannot list versions")), st).

Definition jsonEndpoint (h : @handler_func MemConn (list byte))
  : @endpointDescr MemConn (list byte) unit :=
  mkEndpointDescr (mkTypeMap tt DataTypeMarshaledJSON) (mkTypeMap tt DataTypeMarshaledJSON) h.

Definition demoServer : @Server MemConn (list byte) unit :=
  mkServer (<["Echo" := jsonEndpoint echoHandler]>
              (<["Fail" := jsonEndpoint failingHandler]> ∅)).

Definition request (endpoint : string) : Header :=
  mkHeader endpoint DataTypeMarshaledJSON DataTypeMarshaledJSON 0 "".

Definition demoConn : MemConn :=
  mkMemConn [HeaderMsg (request "Nope");
             HeaderMsg (request "Echo"); DataMsg [Byte.x31]] [] false.


Definition failConn : MemConn :=
  mkMemConn [HeaderMsg (request "Fail"); DataMsg [Byte.x31];
             HeaderMsg (request "Echo"); DataMsg [Byte.x32]] [] false.


(** ** Headers on the frame layer (rpc/frame_layer.go) *)

(** [json.NewEncoder(w).Encode(v)], [marshaled] being the text of [v] with
    the newline the encoder puts after it, or the error of marshaling:
    the text goes to the writer in one [Write]. *)
Definition json_Encoder_Encode (marshaled : list byte * option error)
    (w : Rpc.frameBridgingWriter) (c : Rpc.Conn)
  : option (option error * (Rpc.frameBridgingWriter * Rpc.Conn)) :=
  match marshaled with
  | (_, Some e) => Some (Some e, (w, c))
  | (text, None) =>
      match Rpc.frameBridgingWriter_Write w c text with
      | None => None
      | Some ((_, err), wc) => Some (err, wc)
      end
  end.

(** [MessageLayer.WriteHeader]: what [w.Close()] returns is dropped. *)
Definition WriteHeader (json_Marshal : Header -> list byte * option error)
    (c : Rpc.Conn) (h : Header) : option (option error * Rpc.Conn) :=
  let w := Rpc.NewFrameBridgingWriter Rpc.FrameTypeHeader Rpc.MAX_HEADER_LENGTH in
  match json_Encoder_Encode (json_Marshal h) w c with
  | None => None
  | Some (Some e, (_, c1)) =>
      Some (Some (Wrap e "cannot encode header, probably fatal"), c1)
  | Some (None, (w1, c1)) =>
      let '(_, (_, c2)) := Rpc.frameBridgingWriter_Close w1 c1 in
      Some (None, c2)
  end.

(** [checkResponseHeader]. *)
Definition checkResponseHeader (h : Header) : option error :=
  let statusNotSet : status := 0 in
  if Error h =? statusNotSet then Some (Errorf "status has zero-value") else None.

(** ** Handlers as [reflect] shows them

    [makeEndpointDescr] looks at a handler through package reflect.  The
    types it can meet: function types, pointers, slices, and named
    interface and struct types. *)
Inductive reflect_Kind : Type := Func | Ptr | Slice | Interface | Struct.

#[warnings="-register-all"] Inductive reflect_Type : Type :=
  | FuncOf (ins outs : list reflect_Type)
  | PtrTo (elem : reflect_Type)
  | SliceOf (elem : reflect_Type)
  | InterfaceType (name : string)
  | StructType (name : string).

Definition Kind (t : reflect_Type) : reflect_Kind :=
  match t with
  | FuncOf _ _ => Func
  | PtrTo _ => Ptr
  | SliceOf _ => Slice
  | InterfaceType _ => Interface
  | StructType _ => Struct
  end.

Definition is_Func (k : reflect_Kind) : bool :=
  match k with Func => true | _ => false end.
Definition is_Ptr (k : reflect_Kind) : bool :=
  match k with Ptr => true | _ => false end.

(** [ht.NumIn()], [ht.NumOut()], [ht.In(i)], [ht.Out(i)] of a function
    type; reflect panics on them for a type of another kind, and for an
    index out of range. *)
Definition NumIn (t : reflect_Type) : nat :=
  match t with FuncOf ins _ => length ins | _ => O end.
Definition NumOut (t : reflect_Type) : nat :=
  match t with FuncOf _ outs => length outs | _ => O end.
Definition In (t : reflect_Type) (i : nat) : option reflect_Type :=
  match t with FuncOf ins _ => ins !! i | _ => None end.
Definition Out (t : reflect_Type) (i : nat) : option reflect_Type :=
  match t with FuncOf _ outs => outs !! i | _ => None end.

(** The types [io.Reader] and [error], which the sources get from a nil
    pointer to them by [reflect.TypeOf(...).Elem()]. *)
Definition io_Reader : reflect_Type := InterfaceType "io.Reader".
Definition errInterfaceType : reflect_Type := InterfaceType "error".

(** [typeIsIOReader] and [typeIsIOReaderPtr] (rpc/shared.go). *)
Definition typeIsIOReader (t : reflect_Type) : bool :=
  match t with InterfaceType n => String.eqb n "io.Reader" | _ => false end.
Definition typeIsIOReaderPtr (t : reflect_Type) : bool :=
  match t with PtrTo (InterfaceType n) => String.eqb n "io.Reader" | _ => false end.

(** [reflect.Kind.String()]. *)
Definition Kind_String (k : reflect_Kind) : string :=
  match k with
  | Func => "func" | Ptr => "ptr" | Slice => "slice"
  | Interface => "interface" | Struct => "struct"
  end.

Section Registry.
Context {St Value : Type}.

(** A handler as it is handed to [RegisterEndpoint]: a Go value that is
    not nil, with its type and what a call of it does. *)
Record GoValue : Type := mkGoValue {
  TypeOf : reflect_Type;
  Call : @handler_func St Value
}.

(** [t.Implements(errInterfaceType)] and [t.String()], which depend on
    the declarations of the program. *)
Variable Implements_error : reflect_Type -> bool.
Variable Type_String : reflect_Type -> string.
(** The zero [reflect.Value], which the descriptor of a rejected handler
    holds. *)
Variable zeroValue : @handler_func St Value.

Definition zeroDescr : @endpointDescr St Value (option reflect_Type) :=
  mkEndpointDescr (mkTypeMap None 0) (mkTypeMap None 0) zeroValue.

(** [makeEndpointDescr]. *)
Definition makeEndpointDescr (handler : GoValue)
  : @endpointDescr St Value (option reflect_Type) * option error :=
  let descr := zeroDescr in
  let ht := TypeOf handler in
  if negb (is_Func (Kind ht))
  then (descr, Some (Errorf "handler must be of kind reflect.Func"))
  else if negb (NumIn ht =? 2)%nat || negb (NumOut ht =? 1)%nat
  then (descr, Some (Errorf ("handler must have exactly two input parameters "
                               ++ "and one output parameter")%string))
  else
    match In ht 0, In ht 1, Out ht 0 with
    | Some in0, Some in1, Some out0 =>
        if negb (is_Ptr (Kind in0) || typeIsIOReader in0)
        then (descr, Some (Errorf ("input parameter must be a pointer or an "
                                     ++ "io.Reader, is of kind "
                                     ++ Kind_String (Kind in0) ++ ", type "
                                     ++ Type_String in0)%string))
        else if negb (is_Ptr (Kind in1))
        then (descr, Some (Errorf ("second input parameter (the non-error output "
                                     ++ "parameter) must be a pointer or an "
                                     ++ "*io.Reader")%string))
        else if negb (Implements_error out0)
        then (descr, Some (Errorf "handler must return an error"))
        else
          (mkEndpointDescr
             (mkTypeMap (Some in0)
                (if typeIsIOReader in0 then DataTypeOctets else DataTypeMarshaledJSON))
             (mkTypeMap (Some in1)
                (if typeIsIOReaderPtr in1 then DataTypeOctets else DataTypeMarshaledJSON))
             (Call handler),
           None)
    | _, _, _ =>
        (* not reached: a function type with two parameters and one result
           has these three; reflect panics on an index out of range *)
        (descr, Some (Errorf "reflect: Func index out of bounds"))
    end.

(** [NewServer]: no endpoint is registered. *)
Definition NewServer : @Server St Value (option reflect_Type) := mkServer ∅.

(** [Server.RegisterEndpoint(name, handler)]. *)
Definition RegisterHandler (s : @Server St Value (option reflect_Type))
    (name : string) (handler : GoValue)
  : option error * @Server St Value (option reflect_Type) :=
  RegisterEndpoint s name (makeEndpointDescr handler).

(** [local.Elem()] as [ServeRequest] calls it on the types of a
    descriptor; reflect panics on a type that has no element type. *)
Definition Elem (t : option reflect_Type) : option reflect_Type :=
  match t with
  | Some (PtrTo e) | Some (SliceOf e) => Some e
  | _ => None
  end.
End Registry.

(** ** Recording the reply headers

    A message layer next to a list of the headers that were handed to
    [WriteHeader], in order; handlers run as before and leave the list
    alone. *)
Section Logged.
Context {St Value rtype : Type}.
Variable ml : MessageLayer St Value rtype.

Definition logged : MessageLayer (St * list Header) Value rtype :=
  mkMessageLayer (St * list Header) Value rtype
    (fun s => let '(r, st') := ml_ReadHeader ml (fst s) in (r, (st', snd s)))
    (fun h s => let '(e, st') := ml_WriteHeader ml h (fst s) in (e, (st', snd s ++ [h])))
    (ml_ReadData ml)
    (fun t s => let '(r, st') := ml_DecodeData ml t (fst s) in (r, (st', snd s)))
    (json_Encode ml)
    (fun src s => let '(e, st') := ml_WriteData ml src (fst s) in (e, (st', snd s)))
    (fun s => let '(e, st') := ml_HangUp ml (fst s) in (e, (st', snd s)))
    (fmt_DataType ml).

Definition logged_handler (f : @handler_func St Value)
  : @handler_func (St * list Header) Value :=
  fun v s => let '(r, st') := f v (fst s) in (r, (st', snd s)).

Definition logged_endpoint (ep : @endpointDescr St Value rtype)
  : @endpointDescr (St * list Header) Value rtype :=
  mkEndpointDescr (inType ep) (outType ep) (logged_handler (handler ep)).

Definition logged_server (s : @Server St Value rtype)
  : @Server (St * list Header) Value rtype :=
  mkServer (logged_endpoint <$> endpoints s).
End Logged.

(** ** Facts about the dispatcher *)

Section ServerFacts.
Context {St Value rtype : Type}.
Variable ml : MessageLayer St Value rtype.
(** The facts of this section hold whatever status the source's
    [StatusError] is. *)
Variable StatusError : status.

Abbreviation ServeRequest := (ServeRequest ml StatusError).
Abbreviation Serve := (Serve ml StatusError).
Abbreviation Server := (@Server St Value rtype).
Abbreviation endpointDescr := (@endpointDescr St Value rtype).

(** One round of the loop of [Serve]. *)
Lemma Serve_continues fuel (s : Server) st st' :
  ServeRequest s st = (Ret None, st') ->
  Serve (S fuel) s st = Serve fuel s st'.
Proof. intros H. cbn [Dispatch.Serve]. by rewrite H. Qed.

Lemma Serve_hangs_up fuel (s : Server) st e st' :
  ServeRequest s st = (Ret (Some e), st') -> is_doneServeNext e = false ->
  Serve (S fuel) s st = (Some (Ret e), snd (ml_HangUp ml st')).
Proof.
  intros H He. cbn [Dispatch.Serve]. rewrite H, He.
  by destruct (ml_HangUp ml st').
Qed.

Lemma ServeRequest_calls_handler (s : Server) st h st1 ep inval st2 :
  ml_ReadHeader ml st = ((Some h, None), st1) ->
  endpoints s !! Endpoint h = Some ep ->
  proto (inType ep) = DataType h ->
  proto (outType ep) = Accept h ->
  handler_input ml ep st1 inval st2 ->
  ServeRequest s st = callHandler ml StatusError ep inval st2.
Proof.
  intros Hh Hep Hin Hout Hinput.
  unfold Dispatch.ServeRequest, recvRequest. rewrite Hh, Hep.
  rewrite Hin, Hout, !Z.eqb_refl. cbn [negb]. rewrite <- Hin.
  destruct Hinput as [[Hj Hd] | (Ho & -> & ->)].
  - by rewrite Hj, Z.eqb_refl, Hd.
  - by rewrite Ho.
Qed.



(** A request whose handler returns an error. *)
Lemma ServeRequest_handler_error (s : Server) st h st1 ep inval st2 outval he st3 :
  ml_ReadHeader ml st = ((Some h, None), st1) ->
  endpoints s !! Endpoint h = Some ep ->
  proto (inType ep) = DataType h ->
  proto (outType ep) = Accept h ->
  handler_input ml ep st1 inval st2 ->
  handler ep inval st2 = ((outval, Some he), st3) ->
  let r := mkHeader "" 0 0 StatusError (error_Error he) in
  ServeRequest s st = (Ret (fst (ml_WriteHeader ml r st3)),
                       snd (ml_WriteHeader ml r st3)).
Proof.
  intros Hh Hep Hin Hout Hinput Hcall. cbv zeta.
  rewrite (ServeRequest_calls_handler s st h st1 ep inval st2) by done.
  unfold callHandler, writeResponse, NewErrorHeader. rewrite Hcall.
  by destruct (ml_WriteHeader ml _ st3).
Qed.


(** X30. A request for a registered endpoint, of the data type and with
    the accept type of the endpoint, whose handler returns an error
    [he]: [ServeRequest] writes a reply header with the status the
    source names StatusError and the message of [he], writes no data
    message, and returns what that write returned.  When the reply was
    written [Serve] goes on with the next request. *)
Theorem handler_error_status (s : Server) (st st1 st2 st3 : St) (h : Header)
    (ep : endpointDescr) (inval outval : Value) (he : error) :
  ml_ReadHeader ml st = ((Some h, None), st1) ->
  endpoints s !! Endpoint h = Some ep ->
  proto (inType ep) = DataType h ->
  proto (outType ep) = Accept h ->
  handler_input ml ep st1 inval st2 ->
  handler ep inval st2 = ((outval, Some he), st3) ->
  let r := mkHeader "" 0 0 StatusError (error_Error he) in
    ServeRequest s st = (Ret (fst (ml_WriteHeader ml r st3)),
                         snd (ml_WriteHeader ml r st3)) /\
    (fst (ml_WriteHeader ml r st3) = None ->
     forall fuel, Serve (S fuel) s st = Serve fuel s (snd (ml_WriteHeader ml r st3))).
Proof.
  intros Hh Hep Hin Hout Hinput Hcall. cbv zeta.
  pose proof (ServeRequest_handler_error s st h st1 ep inval st2 outval he st3
                Hh Hep Hin Hout Hinput Hcall) as Hreq.
  cbv zeta in Hreq. split; [exact Hreq|].
  intros Hw fuel. apply Serve_continues. by rewrite Hreq, Hw.
Qed.

(** X6. The older [ServeConn] replies to an unregistered endpoint in the same
    way and then hangs up. *)
Lemma ServeConn_unregistered_hangs_up (s : Server) st st1 st2 h e :
  ml_ReadHeader ml st = ((Some h, e), st1) ->
  endpoints s !! Endpoint h = None ->
  ml_WriteHeader ml (mkHeader "" 0 0 StatusRequestError (msg_unregistered h)) st1
    = (None, st2) ->
  ServeConn ml s st = (Ret (fst (ml_HangUp ml st2)), snd (ml_HangUp ml st2)).
Proof.
  intros Hh Hep Hw. unfold ServeConn, replyAndHangUp, NewErrorHeader.
  rewrite Hh, Hep, Hw. by destruct (ml_HangUp ml st2).
Qed.

(** X7. The older [ServeConn] panics when a handler returns an error. *)
Lemma ServeConn_handler_error_panics (s : Server) st st1 st2 st3 h e ep
    inval outval he :
  ml_ReadHeader ml st = ((Some h, e), st1) ->
  endpoints s !! Endpoint h = Some ep ->
  proto (inType ep) = DataType h ->
  proto (outType ep) = Accept h ->
  handler_input ml ep st1 inval st2 ->
  handler ep inval st2 = ((outval, Some he), st3) ->
  ServeConn ml s st = (Panic "not implemented", st3).
Proof.
  intros Hh Hep Hin Hout Hinput Hcall. unfold ServeConn. rewrite Hh, Hep.
  rewrite Hin, Hout, !Z.eqb_refl. cbn [negb]. rewrite <- Hin.
  destruct Hinput as [[Hj Hd] | (Ho & -> & ->)].
  - rewrite Hj, Z.eqb_refl, Hd. unfold callHandlerConn. by rewrite Hcall.
  - rewrite Ho. cbn. unfold callHandlerConn. by rewrite Hcall.
Qed.
End ServerFacts.

(** C4. A request for a registered endpoint, of the data type and with
    the accept type of the endpoint, whose handler returns an error
    [he]: [ServeRequest] writes a reply header with Error =
    StatusServerError and ErrorMessage = the message of [he], writes no
    data message, and returns what that write returned.  When the reply
    was written [Serve] does not hang up: it goes on with the next
    request.  The status is that of the constant [StatusError], which is
    taken from the specification. *)
Theorem handler_error_reply {St Value rtype : Type}
    (ml : MessageLayer St Value rtype) (s : @Server St Value rtype)
    (st st1 st2 st3 : St) (h : Header) (ep : @endpointDescr St Value rtype)
    (inval outval : Value) (he : error) :
  ml_ReadHeader ml st = ((Some h, None), st1) ->
  endpoints s !! Endpoint h = Some ep ->
  proto (inType ep) = DataType h ->
  proto (outType ep) = Accept h ->
  handler_input ml ep st1 inval st2 ->
  handler ep inval st2 = ((outval, Some he), st3) ->
  let r := mkHeader "" 0 0 StatusServerError (error_Error he) in
    ServeRequest ml StatusError s st
      = (Ret (fst (ml_WriteHeader ml r st3)), snd (ml_WriteHeader ml r st3)) /\
    (fst (ml_WriteHeader ml r st3) = None ->
     forall fuel,
       Serve ml StatusError (S fuel) s st
         = Serve ml StatusError fuel s (snd (ml_WriteHeader ml r st3))).
Proof.
  intros Hh Hep Hin Hout Hinput Hcall. cbv zeta.
  pose proof (ServeRequest_handler_error ml StatusError s st h st1 ep inval st2
                outval he st3 Hh Hep Hin Hout Hinput Hcall) as Hreq.
  cbv zeta in Hreq. change (mkHeader "" 0 0 StatusError (error_Error he))
    with (mkHeader "" 0 0 StatusServerError (error_Error he)) in Hreq.
  split; [exact Hreq|].
  intros Hw fuel. apply Serve_continues. by rewrite Hreq, Hw.
Qed.



Lemma handler_error_reply_witness :
  let r := mkHeader "" 0 0 StatusServerError "cannot list versions" in
  let rest := [HeaderMsg (request "Echo"); DataMsg [Byte.x32]] in
  endpoints demoServer !! "Fail" = Some (jsonEndpoint failingHandler) /\
  forall fuel,
    Serve memLayer StatusError (S fuel) demoServer failConn =
    Serve memLayer StatusError fuel demoServer
      (mkMemConn rest [HeaderMsg r] false).
Proof.
  intros r rest.
  assert (H2 : endpoints demoServer !! Endpoint (request "Fail")
               = Some (jsonEndpoint failingHandler)) by (vm_compute; reflexivity).
  split; [exact H2|].
  destruct (handler_error_reply memLayer demoServer failConn
              (mkMemConn (DataMsg [Byte.x31] :: rest) [] false)
              (mkMemConn rest [] false) (mkMemConn rest [] false)
              (request "Fail") (jsonEndpoint failingHandler)
              [Byte.x31] [] (Errorf "cannot list versions"))
    as (_ & Hserve);
    [reflexivity | exact H2 | reflexivity | reflexivity
    | left; split; reflexivity | reflexivity |].
  intros fuel. rewrite Hserve; reflexivity.
Defined.

Lemma handler_error_status_witness :
  let r := mkHeader "" 0 0 4 "cannot list versions" in
  let rest := [HeaderMsg (request "Echo"); DataMsg [Byte.x32]] in
  endpoints demoServer !! "Fail" = Some (jsonEndpoint failingHandler) /\
  ServeRequest memLayer 4 demoServer failConn =
    (Ret None, mkMemConn rest [HeaderMsg r] false).
Proof.
  intros r rest.
  assert (H2 : endpoints demoServer !! Endpoint (request "Fail")
               = Some (jsonEndpoint failingHandler)) by (vm_compute; reflexivity).
  split; [exact H2|].
  destruct (handler_error_status memLayer 4 demoServer failConn
              (mkMemConn (DataMsg [Byte.x31] :: rest) [] false)
              (mkMemConn rest [] false) (mkMemConn rest [] false)
              (request "Fail") (jsonEndpoint failingHandler)
              [Byte.x31] [] (Errorf "cannot list versions"))
    as (Hreq & _);
    [reflexivity | exact H2 | reflexivity | reflexivity
    | left; split; reflexivity | reflexivity |].
  rewrite Hreq. reflexivity.
Defined.

(** A request for an endpoint that is not registered, then one for [Echo]:
    the first is answered with RequestError, the second with OK and the
    handler's result; the server hangs up when the client has gone. *)
Example unregistered_then_echo :
  Serve memLayer StatusServerError 3 demoServer demoConn =
    (Some (Ret mem_EOF),
     mkMemConn []
       [HeaderMsg (mkHeader "" 0 0 StatusRequestError "unregistered endpoint Nope");
        HeaderMsg (mkHeader "" DataTypeMarshaledJSON 0 StatusOK "");
        DataMsg [Byte.x31]] true).
Proof. vm_compute. reflexivity. Qed.

(** ** Facts about headers on the frame layer *)

Section HeaderFacts.
Variable json_Marshal : Header -> list byte * option error.

(** X8. A header whose text is shorter than 4096 octets.  [WriteHeader]
    returns no error on every channel: the text stays in the writer's
    buffer until [Close], and the result of [Close] is dropped.  On an
    open channel whose peer listens the text goes out as one Header frame
    marked as the last; on a closed channel nothing is written. *)
Theorem WriteHeader_short (c : Rpc.Conn) (h : Header) (text : list byte) :
  json_Marshal h = (text, None) ->
  Z.of_nat (length text) < Rpc.MAX_HEADER_LENGTH ->
  (exists c', WriteHeader json_Marshal c h = Some (None, c')) /\
  (Rpc.closed c = true -> WriteHeader json_Marshal c h = Some (None, c)) /\
  (Rpc.closed c = false -> Rpc.wfault c = None ->
   WriteHeader json_Marshal c h =
     Some (None, Rpc.set_wbuf c (Rpc.wbuf c
                                   ++ Rpc.frame_wire Rpc.FrameTypeHeader true text))).
Proof.
  intros Hm Hlen.
  assert (Hrun : WriteHeader json_Marshal c h =
            let '(_, (_, c2)) :=
              Rpc.frameBridgingWriter_Close
                (Rpc.mkWriter Rpc.FrameTypeHeader
                   (Rpc.MAX_HEADER_LENGTH - Z.of_nat (length text))
                   Rpc.MAX_PAYLOAD_LENGTH text) c in
            Some (None, c2)).
  { unfold WriteHeader, json_Encoder_Encode. rewrite Hm.
    by rewrite Rpc.Write_buffers. }
  rewrite Hrun. unfold Rpc.frameBridgingWriter_Close.
  split; [|split].
  - destruct (Rpc.flush _ c true) as [e [w c']]. by eexists.
  - intros Hc. unfold Rpc.flush, Rpc.writeFrame, Rpc.binary_Write, Rpc.Write.
    rewrite Hc. cbn. unfold Rpc.buffer_WriteTo, Rpc.Write.
    destruct text; [done|]. by rewrite Hc.
  - intros Hc Hw. rewrite (Rpc.flush_good _ Rpc.MAX_PAYLOAD_LENGTH); try done.
    unfold Rpc.MAX_HEADER_LENGTH, Rpc.MAX_PAYLOAD_LENGTH in *. lia.
Qed.

(** X9. A header whose text has 4096 octets or more, on an open channel whose
    peer listens.  With exactly 4096 octets the text goes out as a Header
    frame marked as the last, and [Close] sends a second frame marked as
    the last, without payload, after it.  With more, the first 4096
    octets go out as a frame marked as the last and [WriteHeader]
    returns an error. *)
Theorem WriteHeader_limit (c : Rpc.Conn) (h : Header) (text : list byte) :
  json_Marshal h = (text, None) ->
  Rpc.closed c = false -> Rpc.wfault c = None ->
  Rpc.MAX_HEADER_LENGTH <= Z.of_nat (length text) ->
  WriteHeader json_Marshal c h =
    if (4096 <? length text)%nat
    then Some (Some (Wrap (WithStack Rpc.err_limit_exceeded)
                          "cannot encode header, probably fatal"),
               Rpc.set_wbuf c (Rpc.wbuf c
                      ++ Rpc.frame_wire Rpc.FrameTypeHeader true (take 4096 text)))
    else Some (None,
               Rpc.set_wbuf c (Rpc.wbuf c
                      ++ Rpc.frame_wire Rpc.FrameTypeHeader true text
                      ++ Rpc.frame_wire Rpc.FrameTypeHeader true [])).
Proof.
  intros Hm Hc Hw Hlen. assert (Hg : Rpc.good c) by done.
  unfold WriteHeader, json_Encoder_Encode. rewrite Hm.
  rewrite Rpc.Write_fills_limit; [| done | by vm_compute | done].
  change (Z.to_nat Rpc.MAX_HEADER_LENGTH) with 4096%nat.
  destruct (Nat.ltb_spec 4096 (length text)) as [Hlt|Hge]; [done|].
  unfold Rpc.frameBridgingWriter_Close.
  rewrite (Rpc.flush_good _ Rpc.MAX_PAYLOAD_LENGTH);
    [| done | by apply Rpc.good_set_wbuf | by vm_compute].
  rewrite Rpc.set_wbuf_set_wbuf. cbn [Rpc.wbuf Rpc.set_wbuf].
  rewrite <- app_assoc, firstn_all2; [done|].
  unfold Rpc.MAX_HEADER_LENGTH in Hlen. lia.
Qed.

End HeaderFacts.

Lemma WriteHeader_short_witness :
  let text := [Byte.x7b; Byte.x7d; Byte.x0a] in
  let h := mkHeader "" 0 0 StatusRequestError "unregistered endpoint Nope" in
  let closedConn := Rpc.mkConn [] [] None None true in
  let c := Rpc.mkConn [] [] None None false in
  Z.of_nat (length text) < Rpc.MAX_HEADER_LENGTH /\
  WriteHeader (fun _ => (text, None)) closedConn h = Some (None, closedConn) /\
  WriteHeader (fun _ => (text, None)) c h =
    Some (None, Rpc.set_wbuf c [Byte.x01; Byte.x01; Byte.x03; Byte.x00; Byte.x00;
                               Byte.x00; Byte.x7b; Byte.x7d; Byte.x0a]).
Proof.
  intros text h closedConn c.
  assert (Hlen : Z.of_nat (length text) < Rpc.MAX_HEADER_LENGTH) by (by vm_compute).
  split; [exact Hlen|].
  destruct (WriteHeader_short (fun _ => (text, None)) closedConn h text eq_refl Hlen)
    as (_ & Hclosed & _).
  destruct (WriteHeader_short (fun _ => (text, None)) c h text eq_refl Hlen)
    as (_ & _ & Hopen).
  split; [exact (Hclosed eq_refl) | exact (Hopen eq_refl eq_refl)].
Defined.

Lemma WriteHeader_limit_witness :
  let text := replicate 4097 Byte.x20 in
  let c := Rpc.mkConn [] [] None None false in
  Rpc.MAX_HEADER_LENGTH <= Z.of_nat (length text) /\
  WriteHeader (fun _ => (text, None)) c zeroHeader =
    Some (Some (Wrap (WithStack Rpc.err_limit_exceeded)
                     "cannot encode header, probably fatal"),
          Rpc.set_wbuf c (Rpc.frame_wire Rpc.FrameTypeHeader true
                            (replicate 4096 Byte.x20))).
Proof.
  intros text c.
  assert (Hlen : Rpc.MAX_HEADER_LENGTH <= Z.of_nat (length text)).
  { subst text. rewrite length_replicate. by vm_compute. }
  split; [exact Hlen|].
  rewrite (WriteHeader_limit (fun _ => (text, None)) c zeroHeader text eq_refl
             eq_refl eq_refl Hlen).
  subst text. rewrite length_replicate. reflexivity.
Defined.

(** ** More facts about the dispatcher *)

Section RequestFacts.
Context {St Value rtype : Type}.
Variable ml : MessageLayer St Value rtype.
Variable StatusError : status.

Abbreviation ServeRequest := (ServeRequest ml StatusError).
Abbreviation Serve := (Serve ml StatusError).
Abbreviation Server := (@Server St Value rtype).
Abbreviation endpointDescr := (@endpointDescr St Value rtype).

Lemma Serve_after_reply (s : Server) st r st1 :
  ServeRequest s st = (Ret (fst (ml_WriteHeader ml r st1)),
                       snd (ml_WriteHeader ml r st1)) ->
  fst (ml_WriteHeader ml r st1) = None ->
  forall fuel, Serve (S fuel) s st = Serve fuel s (snd (ml_WriteHeader ml r st1)).
Proof. intros Hreq Hw fuel. apply Serve_continues. by rewrite Hreq, Hw. Qed.

(** X10. A request for a registered endpoint whose DataType or Accept is not
    the endpoint's: [ServeRequest] replies with a RequestError header that
    names the field (DataType first), calls no handler and reads nothing
    after the request header; when the reply was written [Serve] goes on
    with the next request. *)
Theorem type_mismatch_reply (s : Server) (st st1 : St) (h : Header)
    (ep : endpointDescr) :
  ml_ReadHeader ml st = ((Some h, None), st1) ->
  endpoints s !! Endpoint h = Some ep ->
  proto (inType ep) <> DataType h \/ proto (outType ep) <> Accept h ->
  let r := mkHeader "" 0 0 StatusRequestError
             (if proto (inType ep) =? DataType h
              then msg_wrong_Accept ml h ep else msg_wrong_DataType ml h ep) in
    ServeRequest s st = (Ret (fst (ml_WriteHeader ml r st1)),
                         snd (ml_WriteHeader ml r st1)) /\
    (fst (ml_WriteHeader ml r st1) = None ->
     forall fuel, Serve (S fuel) s st = Serve fuel s (snd (ml_WriteHeader ml r st1))).
Proof.
  intros Hh Hep Hne. cbv zeta.
  match goal with |- ?A /\ _ => assert (Hreq : A) end.
  { unfold Dispatch.ServeRequest, recvRequest, writeResponse. rewrite Hh, Hep.
    destruct (Z.eqb_spec (proto (inType ep)) (DataType h)) as [Hin|Hin]; cbn [negb].
    - destruct (Z.eqb_spec (proto (outType ep)) (Accept h)) as [Hout|Hout]; cbn [negb].
      + by destruct Hne.
      + by destruct (ml_WriteHeader ml _ st1).
    - by destruct (ml_WriteHeader ml _ st1). }
  split; [exact Hreq|]. by apply Serve_after_reply.
Qed.

(** X11. A request for an endpoint that takes JSON, whose data message does not
    decode: [ServeRequest] replies with a RequestError header that carries
    the decoder's error and calls no handler; when the reply was written
    [Serve] goes on with the next request. *)
Theorem decode_failure_reply (s : Server) (st st1 st2 : St) (h : Header)
    (ep : endpointDescr) (inval : Value) (e : error) :
  ml_ReadHeader ml st = ((Some h, None), st1) ->
  endpoints s !! Endpoint h = Some ep ->
  proto (inType ep) = DataType h ->
  proto (outType ep) = Accept h ->
  proto (inType ep) = DataTypeMarshaledJSON ->
  ml_DecodeData ml (local (inType ep)) st1 = ((inval, Some e), st2) ->
  let r := mkHeader "" 0 0 StatusRequestError
             ("cannot decode marshaled JSON: " ++ error_Error e)%string in
    ServeRequest s st = (Ret (fst (ml_WriteHeader ml r st2)),
                         snd (ml_WriteHeader ml r st2)) /\
    (fst (ml_WriteHeader ml r st2) = None ->
     forall fuel, Serve (S fuel) s st = Serve fuel s (snd (ml_WriteHeader ml r st2))).
Proof.
  intros Hh Hep Hin Hout Hj Hd. cbv zeta.
  match goal with |- ?A /\ _ => assert (Hreq : A) end.
  { unfold Dispatch.ServeRequest, recvRequest, writeResponse. rewrite Hh, Hep.
    rewrite <- Hin, <- Hout, !Z.eqb_refl. cbn [negb].
    rewrite Hj, Z.eqb_refl, Hd.
    by destruct (ml_WriteHeader ml _ st2). }
  split; [exact Hreq|]. by apply Serve_after_reply.
Qed.

(** X12. A request that is served: the handler has returned [outval] without
    error.  For an endpoint that returns JSON the reply is a header with
    Error = StatusOK and the endpoint's data type, then a data message
    with the text of [outval]; when [outval] cannot be marshaled it is a
    ServerError header instead.  For an endpoint that returns octets the
    reply is a header with Error = StatusOK and DataType = Octets, then
    the handler's stream as the data message.  [ServeRequest] returns
    what the last write returned, and nil lets [Serve] go on. *)
Theorem request_served (s : Server) (st st1 st2 st3 : St) (h : Header)
    (ep : endpointDescr) (inval outval : Value) :
  ml_ReadHeader ml st = ((Some h, None), st1) ->
  endpoints s !! Endpoint h = Some ep ->
  proto (inType ep) = DataType h ->
  proto (outType ep) = Accept h ->
  handler_input ml ep st1 inval st2 ->
  handler ep inval st2 = ((outval, None), st3) ->
  (proto (outType ep) = DataTypeMarshaledJSON ->
   forall buf,
     (forall e, json_Encode ml outval = (buf, Some e) ->
        let r := mkHeader "" 0 0 StatusServerError
                   ("cannot marshal response: " ++ error_Error e)%string in
        ServeRequest s st = (Ret (fst (ml_WriteHeader ml r st3)),
                             snd (ml_WriteHeader ml r st3))) /\
     (json_Encode ml outval = (buf, None) ->
      forall st4,
        ml_WriteHeader ml (mkHeader "" DataTypeMarshaledJSON 0 StatusOK "") st3
          = (None, st4) ->
        ServeRequest s st = (Ret (fst (ml_WriteData ml (BufferSource buf) st4)),
                             snd (ml_WriteData ml (BufferSource buf) st4)))) /\
  (proto (outType ep) = DataTypeOctets ->
   forall st4,
     ml_WriteHeader ml (mkHeader "" DataTypeOctets 0 StatusOK "") st3 = (None, st4) ->
     ServeRequest s st = (Ret (fst (ml_WriteData ml (ReaderSource outval) st4)),
                          snd (ml_WriteData ml (ReaderSource outval) st4))) /\
  (forall st', ServeRequest s st = (Ret None, st') ->
   forall fuel, Serve (S fuel) s st = Serve fuel s st').
Proof.
  intros Hh Hep Hin Hout Hinput Hcall.
  pose proof (ServeRequest_calls_handler ml StatusError s st h st1 ep inval st2
                Hh Hep Hin Hout Hinput) as Heq.
  split; [|split]; [| | intros st' Hreq fuel; by apply Serve_continues];
    rewrite Heq; unfold callHandler; rewrite Hcall; unfold sendResult, writeResponse.
  - intros Hj buf. rewrite Hj, Z.eqb_refl. split.
    + intros e He. cbv zeta. rewrite He. by destruct (ml_WriteHeader ml _ st3).
    + intros He st4 Hw. rewrite He, Hw. by destruct (ml_WriteData ml _ st4) as [[?|] ?].
  - intros Ho st4 Hw. rewrite Ho. cbn. rewrite Hw.
    by destruct (ml_WriteData ml _ st4) as [[?|] ?].
Qed.

(** The loop of [Serve], by induction on the requests served. *)
Lemma Serve_returns_inv : forall fuel (s : Server) st e st',
  Serve fuel s st = (Some (Ret e), st') ->
  is_doneServeNext e = false /\
  exists st0 st1,
    ServeRequest s st0 = (Ret (Some e), st1) /\ st' = snd (ml_HangUp ml st1).
Proof.
  induction fuel as [|fuel IH]; intros s st e st' Hrun; [done|].
  cbn [Dispatch.Serve] in Hrun.
  destruct (ServeRequest s st) as [[[e1|]|msg] st1] eqn:Hreq; [| by eapply IH | done].
  destruct (is_doneServeNext e1) eqn:Hd; [by eapply IH|].
  destruct (ml_HangUp ml st1) as [eh st2] eqn:Hh.
  injection Hrun as <- <-. split; [done|]. exists st, st1. by rewrite Hh.
Qed.

(** X13. [Serve] returns an error only after it has hung up, and what it
    returns is an error that a [ServeRequest] has returned and that is
    not [doneServeNext]. *)
Theorem Serve_hangs_up_before_return (fuel : nat) (s : Server) (st st' : St)
    (e : error) :
  Serve fuel s st = (Some (Ret e), st') ->
  is_doneServeNext e = false /\
  exists st0 st1,
    ServeRequest s st0 = (Ret (Some e), st1) /\ st' = snd (ml_HangUp ml st1).
Proof. apply Serve_returns_inv. Qed.

(** X14. When [ServeRequest] panics, handlers and package reflect taken
    not to.  It does so in two cases and no other: [ReadHeader] has
    returned a nil header without an error (the header text null), which
    [ServeRequest] dereferences; or the request is for a registered
    endpoint, with the endpoint's data type and accept type, whose input
    is neither JSON nor octets.  In both cases the connection is as it
    was after the header: nothing was written. *)
Theorem ServeRequest_panics_iff (s : Server) (st : St) :
  forall msg st',
    ServeRequest s st = (Panic msg, st') <->
    (msg = nil_dereference /\ ml_ReadHeader ml st = ((None, None), st')) \/
    (msg = "not implemented"%string /\
     exists h ep,
       ml_ReadHeader ml st = ((Some h, None), st') /\
       endpoints s !! Endpoint h = Some ep /\
       proto (inType ep) = DataType h /\ proto (outType ep) = Accept h /\
       proto (inType ep) <> DataTypeMarshaledJSON /\
       proto (inType ep) <> DataTypeOctets).
Proof.
  intros msg st'.
  assert (Hcall : forall ep inval st2,
            callHandler ml StatusError ep inval st2 <> (Panic msg, st')).
  { intros ep inval st2. unfold callHandler, sendResult, writeResponse.
    destruct (handler ep inval st2) as [[outval [he|]] st3].
    { by destruct (ml_WriteHeader ml _ st3). }
    destruct (proto (outType ep) =? DataTypeMarshaledJSON).
    - destruct (json_Encode ml outval) as [buf [e|]].
      { by destruct (ml_WriteHeader ml _ st3). }
      destruct (ml_WriteHeader ml _ st3) as [[?|] st4]; [done|].
      by destruct (ml_WriteData ml _ st4) as [[?|] ?].
    - destruct (proto (outType ep) =? DataTypeOctets); [|done].
      destruct (ml_WriteHeader ml _ st3) as [[?|] st4]; [done|].
      by destruct (ml_WriteData ml _ st4) as [[?|] ?]. }
  unfold Dispatch.ServeRequest, recvRequest, writeResponse.
  destruct (ml_ReadHeader ml st) as [[h [e|]] st1].
  { split; [done|]. by intros [[_ [=]] | (_ & ? & ? & [=] & _)]. }
  destruct h as [h|].
  2:{ split.
      - intros [= <- <-]. by left.
      - intros [[-> [= <-]] | (_ & ? & ? & [=] & _)]. done. }
  destruct (endpoints s !! Endpoint h) as [ep|] eqn:Hep.
  2:{ split.
      - by destruct (ml_WriteHeader ml _ st1).
      - intros [[_ [=]] | (_ & h' & ep' & [= <- <-] & Hep' & _)]. congruence. }
  destruct (Z.eqb_spec (proto (inType ep)) (DataType h)) as [Hin|Hin]; cbn [negb].
  2:{ split.
      - by destruct (ml_WriteHeader ml _ st1).
      - intros [[_ [=]] | (_ & h' & ep' & [= <- <-] & Hep' & Hin' & _)]. congruence. }
  destruct (Z.eqb_spec (proto (outType ep)) (Accept h)) as [Hout|Hout]; cbn [negb].
  2:{ split.
      - by destruct (ml_WriteHeader ml _ st1).
      - intros [[_ [=]] | (_ & h' & ep' & [= <- <-] & Hep' & _ & Hout' & _)].
        congruence. }
  destruct (Z.eqb_spec (proto (inType ep)) DataTypeMarshaledJSON) as [Hj|Hj].
  { split.
    - destruct (ml_DecodeData ml _ st1) as [[inval [e|]] st2].
      + by destruct (ml_WriteHeader ml _ st2).
      + intros H. by apply Hcall in H.
    - intros [[_ [=]] | (_ & h' & ep' & [= <- <-] & Hep' & _ & _ & Hj' & _)].
      congruence. }
  destruct (Z.eqb_spec (proto (inType ep)) DataTypeOctets) as [Ho|Ho].
  { split.
    - intros H. by apply Hcall in H.
    - intros [[_ [=]] | (_ & h' & ep' & [= <- <-] & Hep' & _ & _ & _ & Ho')].
      congruence. }
  split.
  - intros [= <- <-]. right. split; [done|]. by exists h, ep.
  - by intros [[_ [=]] | (-> & ? & ? & [= <- <-] & _)].
Qed.
End RequestFacts.

(** X15. On the frame layer's [HangUp] the channel is closed when [Serve]
    returns. *)
Theorem Serve_closes_channel {Value rtype : Type}
    (ml : MessageLayer Rpc.Conn Value rtype) (StatusError : status)
    (fuel : nat) (s : @Server Rpc.Conn Value rtype) (c c' : Rpc.Conn) (e : error) :
  (forall c0, ml_HangUp ml c0 = Rpc.HangUp c0) ->
  Serve ml StatusError fuel s c = (Some (Ret e), c') ->
  Rpc.closed c' = true.
Proof.
  intros Hhang Hrun.
  destruct (Serve_returns_inv ml StatusError fuel s c e c' Hrun)
    as (_ & st0 & st1 & _ & ->).
  rewrite Hhang. apply Rpc.HangUp_closed.
Qed.

Lemma type_mismatch_reply_witness :
  let h := mkHeader "Echo" DataTypeOctets DataTypeMarshaledJSON 0 "" in
  let st := mkMemConn [HeaderMsg h; HeaderMsg (request "Echo")] [] false in
  let r := mkHeader "" 0 0 StatusRequestError
             ("wrong DataType for endpoint Echo (has %!s(rpc.DataType=1), "
                ++ "you provided %!s(rpc.DataType=2))") in
  proto (inType (jsonEndpoint echoHandler)) <> DataType h /\
  forall fuel,
    Serve memLayer StatusServerError (S fuel) demoServer st =
    Serve memLayer StatusServerError fuel demoServer
      (mkMemConn [HeaderMsg (request "Echo")] [HeaderMsg r] false).
Proof.
  intros h st r.
  assert (Hne : proto (inType (jsonEndpoint echoHandler)) <> DataType h) by discriminate.
  split; [exact Hne|].
  destruct (type_mismatch_reply memLayer StatusServerError demoServer st
              (mkMemConn [HeaderMsg (request "Echo")] [] false) h
              (jsonEndpoint echoHandler))
    as [_ Hserve]; [reflexivity | by vm_compute | by left |].
  intros fuel. rewrite Hserve; reflexivity.
Defined.

Lemma decode_failure_reply_witness :
  let st := mkMemConn [HeaderMsg (request "Echo"); HeaderMsg (request "Echo")] [] false in
  let st1 := mkMemConn [HeaderMsg (request "Echo")] [] false in
  let st2 := mkMemConn [] [] false in
  let e := json_UnmarshalTypeError "object" "int" in
  let r := mkHeader "" 0 0 StatusRequestError
             ("cannot decode marshaled JSON: "
                ++ "json: cannot unmarshal object into Go value of type int") in
  mem_DecodeData tt st1 = (([], Some e), st2) /\
  ServeRequest memLayer StatusServerError demoServer st =
    (Ret None, mkMemConn [] [HeaderMsg r] false).
Proof.
  intros st st1 st2 e r.
  assert (Hd : mem_DecodeData tt st1 = (([], Some e), st2)) by reflexivity.
  split; [exact Hd|].
  destruct (decode_failure_reply memLayer StatusServerError demoServer st st1 st2
              (request "Echo") (jsonEndpoint echoHandler) [] e)
    as [Hreq _];
    [reflexivity | by vm_compute | reflexivity | reflexivity | reflexivity | exact Hd |].
  rewrite Hreq. reflexivity.
Defined.

Lemma request_served_witness :
  let st := mkMemConn [HeaderMsg (request "Echo"); DataMsg [Byte.x31]] [] false in
  ServeRequest memLayer StatusServerError demoServer st =
    (Ret None,
     mkMemConn [] [HeaderMsg (mkHeader "" DataTypeMarshaledJSON 0 StatusOK "");
                   DataMsg [Byte.x31]] false).
Proof.
  intros st.
  destruct (request_served memLayer StatusServerError demoServer st
              (mkMemConn [DataMsg [Byte.x31]] [] false)
              (mkMemConn [] [] false) (mkMemConn [] [] false)
              (request "Echo") (jsonEndpoint echoHandler) [Byte.x31] [Byte.x31])
    as (Hjson & _ & _);
    [reflexivity | by vm_compute | reflexivity | reflexivity
    | left; split; reflexivity | reflexivity |].
  destruct (Hjson eq_refl [Byte.x31]) as [_ Hok].
  rewrite (Hok eq_refl _ eq_refl). reflexivity.
Defined.

Lemma Serve_hangs_up_before_return_witness :
  Serve memLayer StatusServerError 3 demoServer demoConn =
    (Some (Ret mem_EOF),
     mkMemConn []
       [HeaderMsg (mkHeader "" 0 0 StatusRequestError "unregistered endpoint Nope");
        HeaderMsg (mkHeader "" DataTypeMarshaledJSON 0 StatusOK "");
        DataMsg [Byte.x31]] true) /\
  is_doneServeNext mem_EOF = false.
Proof.
  assert (Hrun : Serve memLayer StatusServerError 3 demoServer demoConn =
    (Some (Ret mem_EOF),
     mkMemConn []
       [HeaderMsg (mkHeader "" 0 0 StatusRequestError "unregistered endpoint Nope");
        HeaderMsg (mkHeader "" DataTypeMarshaledJSON 0 StatusOK "");
        DataMsg [Byte.x31]] true)) by (vm_compute; reflexivity).
  split; [exact Hrun|].
  exact (proj1 (Serve_hangs_up_before_return memLayer StatusServerError 3
                  demoServer demoConn _ mem_EOF Hrun)).
Defined.

(** A header message with the text null makes [ServeRequest] panic. *)
Example ServeRequest_null_header :
  ServeRequest memLayer StatusServerError demoServer
    (mkMemConn [NullMsg; HeaderMsg (request "Echo")] [] false) =
  (Panic nil_dereference, mkMemConn [HeaderMsg (request "Echo")] [] false).
Proof. reflexivity. Qed.

Lemma Serve_closes_channel_witness :
  let ml := mkMessageLayer Rpc.Conn (list byte) unit
              (fun c => ((Some zeroHeader, Some io_EOF), c)) (fun _ c => (None, c)) []
              (fun _ c => (([], None), c)) (fun v => (v, None)) (fun _ c => (None, c))
              Rpc.HangUp mem_fmt_DataType in
  let c := Rpc.mkConn [] [] None None false in
  Serve ml StatusServerError 1 (mkServer ∅) c =
    (Some (Ret io_EOF), snd (Rpc.HangUp c)) /\
  Rpc.closed (snd (Rpc.HangUp c)) = true.
Proof.
  intros ml c.
  assert (Hrun : Serve ml StatusServerError 1 (mkServer ∅) c =
                 (Some (Ret io_EOF), snd (Rpc.HangUp c))) by reflexivity.
  split; [exact Hrun|].
  exact (Serve_closes_channel ml StatusServerError 1 (mkServer ∅) c _ io_EOF
           (fun _ => eq_refl) Hrun).
Defined.

Lemma ServeConn_unregistered_hangs_up_witness :
  let r := mkHeader "" 0 0 StatusRequestError "unregistered endpoint Nope" in
  let rest := [HeaderMsg (request "Echo"); DataMsg [Byte.x31]] in
  endpoints demoServer !! "Nope" = None /\
  ServeConn memLayer demoServer demoConn =
    (Ret None, mkMemConn rest [HeaderMsg r] true).
Proof.
  intros r rest.
  assert (H2 : endpoints demoServer !! Endpoint (request "Nope") = None)
    by (vm_compute; reflexivity).
  split; [exact H2|].
  rewrite (ServeConn_unregistered_hangs_up memLayer demoServer demoConn
             (mkMemConn rest [] false) (mkMemConn rest [HeaderMsg r] false)
             (request "Nope") None eq_refl H2 eq_refl).
  reflexivity.
Defined.

Lemma ServeConn_handler_error_panics_witness :
  let rest := [HeaderMsg (request "Echo"); DataMsg [Byte.x32]] in
  failingHandler [Byte.x31] (mkMemConn rest [] false)
    = (([], Some (Errorf "cannot list versions")), mkMemConn rest [] false) /\
  ServeConn memLayer demoServer failConn =
    (Panic "not implemented", mkMemConn rest [] false).
Proof.
  intros rest. split; [reflexivity|].
  apply (ServeConn_handler_error_panics memLayer demoServer failConn
           (mkMemConn (DataMsg [Byte.x31] :: rest) [] false)
           (mkMemConn rest [] false) (mkMemConn rest [] false)
           (request "Fail") None (jsonEndpoint failingHandler)
           [Byte.x31] [] (Errorf "cannot list versions"));
    [reflexivity | by vm_compute | reflexivity | reflexivity
    | left; split; reflexivity | reflexivity].
Defined.

(** ** Facts about the registry *)

Lemma typeIsIOReader_spec t : typeIsIOReader t = true <-> t = io_Reader.
Proof.
  unfold typeIsIOReader, io_Reader. destruct t; try (split; [done | discriminate]).
  rewrite String.eqb_eq. split; [by intros -> | by intros [= ->]].
Qed.

Lemma typeIsIOReaderPtr_spec t : typeIsIOReaderPtr t = true <-> t = PtrTo io_Reader.
Proof.
  unfold typeIsIOReaderPtr, io_Reader. destruct t as [| e | | |];
    try (split; [done | discriminate]).
  destruct e; try (split; [done | discriminate]).
  rewrite String.eqb_eq. split; [by intros -> | by intros [= ->]].
Qed.

Section RegistryFacts.
Context {St Value : Type}.
Variable Implements_error : reflect_Type -> bool.
Variable Type_String : reflect_Type -> string.
Variable zeroValue : @handler_func St Value.

Abbreviation makeEndpointDescr :=
  (@makeEndpointDescr St Value Implements_error Type_String zeroValue).
Abbreviation zeroDescr := (@zeroDescr St Value zeroValue).

(** X16. What [makeEndpointDescr] accepts.  A handler is accepted exactly when
    it is a function of two parameters and one result, whose first
    parameter is a pointer or [io.Reader], whose second parameter is a
    pointer, and whose result implements [error].  The descriptor of an
    accepted handler holds the handler and the two parameter types; its
    input is octets when the first parameter is [io.Reader] and JSON
    otherwise (a pointer, then), its output is octets when the second
    parameter is a pointer to [io.Reader] and JSON otherwise.  So the
    types on which [ServeRequest] calls [Elem] have an element type.  A
    rejected handler gives the zero descriptor, with one of the errors of
    the source. *)
Theorem makeEndpointDescr_spec (h : @GoValue St Value) :
  let accepted in0 e1 out0 :=
    TypeOf h = FuncOf [in0; PtrTo e1] [out0] /\
    (in0 = io_Reader \/ exists e0, in0 = PtrTo e0) /\
    Implements_error out0 = true in
  match makeEndpointDescr h with
  | (descr, None) =>
      exists in0 e1 out0, accepted in0 e1 out0 /\
        handler descr = Call h /\
        local (inType descr) = Some in0 /\
        local (outType descr) = Some (PtrTo e1) /\
        (proto (inType descr) = DataTypeOctets /\ in0 = io_Reader \/
         proto (inType descr) = DataTypeMarshaledJSON /\
         exists e0, in0 = PtrTo e0 /\ Elem (local (inType descr)) = Some e0) /\
        (proto (outType descr) = DataTypeOctets /\ e1 = io_Reader \/
         proto (outType descr) = DataTypeMarshaledJSON /\ e1 <> io_Reader) /\
        Elem (local (outType descr)) = Some e1
  | (descr, Some e) =>
      descr = zeroDescr /\
      e <> Errorf "reflect: Func index out of bounds" /\
      ~ exists in0 e1 out0, accepted in0 e1 out0
  end.
Proof.
  intros accepted. subst accepted. unfold Dispatch.makeEndpointDescr.
  destruct h as [ht call]. cbn [TypeOf Call].
  destruct ht as [ins outs| | | |]; cbn [Kind is_Func negb];
    try (split; [done | split; [done | by intros (? & ? & ? & [=] & _)]]).
  cbn [NumIn NumOut In Out].
  destruct ins as [|in0 [|in1 [|in2 ins]]]; cbn [length Nat.eqb negb orb];
    try (split; [done | split; [done | by intros (? & ? & ? & [=] & _)]]).
  destruct outs as [|out0 [|out1 outs]]; cbn [length Nat.eqb negb orb];
    try (split; [done | split; [done | by intros (? & ? & ? & [=] & _)]]).
  cbn [lookup list_lookup].
  destruct (is_Ptr (Kind in0) || typeIsIOReader in0) eqn:Hin0; cbn [negb].
  2:{ split; [done|]. split; [done|].
      intros (i0 & e1 & o0 & [= -> -> ->] & Hi & _).
      apply orb_false_iff in Hin0 as [Hk Hr].
      destruct Hi as [->|[e0 ->]]; [done | done]. }
  destruct (is_Ptr (Kind in1)) eqn:Hin1; cbn [negb].
  2:{ split; [done|]. split; [done|].
      by intros (i0 & e1 & o0 & [= -> -> ->] & _). }
  destruct in1 as [| e1 | | |]; try done.
  destruct (Implements_error out0) eqn:Hout; cbn [negb].
  2:{ split; [done|]. split; [done|].
      intros (i0 & e1' & o0 & [= -> -> ->] & _ & Ho). congruence. }
  exists in0, e1, out0. cbn [handler local inType outType proto Elem].
  assert (Hi : in0 = io_Reader \/ exists e0, in0 = PtrTo e0).
  { apply orb_true_iff in Hin0 as [Hk|Hr].
    - right. destruct in0; try done. by eexists.
    - left. by apply typeIsIOReader_spec. }
  do 4 (split; [done|]). split; [|split; [|done]].
  - destruct (typeIsIOReader in0) eqn:Hr.
    + left. split; [done|]. by apply typeIsIOReader_spec.
    + right. split; [done|]. destruct Hi as [->|[e0 ->]]; [done|]. by exists e0.
  - destruct (typeIsIOReaderPtr (PtrTo e1)) eqn:Hr.
    + left. split; [done|]. apply typeIsIOReaderPtr_spec in Hr. congruence.
    + right. split; [done|]. intros ->. done.
Qed.

(** X17. Registering under a name that is free stores the descriptor that
    [makeEndpointDescr] returned and returns its error: the name is taken
    also when the handler was rejected, by the zero descriptor.  Other
    names keep what they had.  Registering under the name again fails
    and leaves the registry as it is. *)
Theorem RegisterEndpoint_takes_name (s : @Server St Value (option reflect_Type))
    (name : string) (h1 h2 : @GoValue St Value) :
  endpoints s !! name = None ->
  let r1 := RegisterHandler Implements_error Type_String zeroValue s name h1 in
  fst r1 = snd (makeEndpointDescr h1) /\
  endpoints (snd r1) !! name = Some (fst (makeEndpointDescr h1)) /\
  (forall other, other <> name ->
     endpoints (snd r1) !! other = endpoints s !! other) /\
  RegisterHandler Implements_error Type_String zeroValue (snd r1) name h2 =
    (Some (Errorf ("already set up an endpoint for '" ++ name ++ "'")%string), snd r1).
Proof.
  intros Hfree r1. subst r1. unfold RegisterHandler, RegisterEndpoint.
  rewrite Hfree. cbn [fst snd endpoints].
  split; [done|]. split; [by rewrite lookup_insert_eq|].
  split; [intros other Hne; by rewrite lookup_insert_ne|].
  by rewrite lookup_insert_eq.
Qed.
End RegistryFacts.

Lemma RegisterEndpoint_takes_name_witness :
  let reg := @RegisterHandler MemConn (list byte)
               (fun _ => true) (fun _ => ""%string) echoHandler in
  let notAFunc := mkGoValue (StructType "cmd.Handler") echoHandler in
  let func := mkGoValue (FuncOf [PtrTo (StructType "cmd.FilesystemRequest");
                                 PtrTo io_Reader] [errInterfaceType]) echoHandler in
  endpoints (@NewServer MemConn (list byte)) !! "FilesystemRequest" = None /\
  fst (reg NewServer "FilesystemRequest" notAFunc) =
    Some (Errorf "handler must be of kind reflect.Func") /\
  reg (snd (reg NewServer "FilesystemRequest" notAFunc)) "FilesystemRequest" func =
    (Some (Errorf "already set up an endpoint for 'FilesystemRequest'"),
     snd (reg NewServer "FilesystemRequest" notAFunc)).
Proof.
  intros reg notAFunc func.
  assert (Hfree : endpoints (@NewServer MemConn (list byte)) !! "FilesystemRequest" = None)
    by apply lookup_empty.
  split; [exact Hfree|].
  destruct (RegisterEndpoint_takes_name (fun _ => true) (fun _ => ""%string) echoHandler
              NewServer "FilesystemRequest" notAFunc func Hfree)
    as (Herr & _ & _ & Hagain).
  split; [exact Herr | exact Hagain].
Defined.

(** ** One reply header for a request *)

Section ReplyFacts.
Context {St Value rtype : Type}.
Variable ml : MessageLayer St Value rtype.
Variable StatusError : status.

Ltac reply_done :=
  eexists _, _, _; split; [reflexivity|]; split; [reflexivity|];
  try done; eexists; split; [reflexivity|]; done.

(** X18. With a registry of endpoints that return JSON or octets (the two that
    [makeEndpointDescr] gives), [ServeRequest] writes one reply header
    for every request header it has read, and none when the read failed
    or when it panics.  The header it writes has a status that is set,
    as [checkResponseHeader] asks, provided that the status of a
    handler's error is not zero.  Recording the headers does not change
    the run. *)
Theorem one_reply_per_request (s : @Server St Value rtype) (st : St)
    (log : list Header) :
  (forall name ep, endpoints s !! name = Some ep ->
     proto (outType ep) = DataTypeMarshaledJSON \/ proto (outType ep) = DataTypeOctets) ->
  exists res st' new,
    ServeRequest (logged ml) StatusError (logged_server s) (st, log)
      = (res, (st', log ++ new)) /\
    ServeRequest ml StatusError s st = (res, st') /\
    match snd (fst (ml_ReadHeader ml st)), res with
    | Some _, _ => new = []
    | None, Panic _ => new = []
    | None, Ret _ =>
        exists r, new = [r] /\ (StatusError <> 0 -> checkResponseHeader r = None)
    end.
Proof.
  intros Hreg. unfold ServeRequest, recvRequest, writeResponse. cbn.
  destruct (ml_ReadHeader ml st) as [[h [e|]] st1]; cbn.
  { eexists _, _, []. rewrite app_nil_r. by repeat split. }
  destruct h as [h|]; cbn.
  2:{ eexists _, _, []. rewrite app_nil_r. by repeat split. }
  rewrite lookup_fmap.
  destruct (endpoints s !! Endpoint h) as [ep|] eqn:Hep; cbn.
  2:{ destruct (ml_WriteHeader ml _ st1) as [e st2]. reply_done. }
  destruct (negb (proto (inType ep) =? DataType h)).
  { destruct (ml_WriteHeader ml _ st1) as [e st2]. reply_done. }
  destruct (negb (proto (outType ep) =? Accept h)).
  { destruct (ml_WriteHeader ml _ st1) as [e st2]. reply_done. }
  assert (Hcall : forall inval st2,
    exists res st' new,
      callHandler (logged ml) StatusError (logged_endpoint ep) inval (st2, log)
        = (res, (st', log ++ new)) /\
      callHandler ml StatusError ep inval st2 = (res, st') /\
      exists err r, res = Ret err /\ new = [r] /\
        (StatusError <> 0 -> checkResponseHeader r = None)).
  { intros inval st2. unfold callHandler, sendResult, writeResponse. cbn.
    unfold logged_handler. cbn.
    destruct (handler ep inval st2) as [[outval [he|]] st3]; cbn.
    { destruct (ml_WriteHeader ml _ st3) as [e st4].
      eexists _, _, _. split; [reflexivity|]. split; [reflexivity|].
      eexists _, _. split; [done|]. split; [done|].
      intros Hne. unfold checkResponseHeader. cbn.
      by replace (StatusError =? 0) with false by (symmetry; by apply Z.eqb_neq). }
    destruct (Hreg _ _ Hep) as [Hout|Hout]; rewrite Hout; cbn.
    - destruct (json_Encode ml outval) as [buf [e|]]; cbn.
      { destruct (ml_WriteHeader ml _ st3) as [e' st4].
        eexists _, _, _. split; [reflexivity|]. split; [reflexivity|].
        by eexists _, _. }
      destruct (ml_WriteHeader ml _ st3) as [[e'|] st4]; cbn.
      { eexists _, _, _. split; [reflexivity|]. split; [reflexivity|].
        by eexists _, _. }
      destruct (ml_WriteData ml _ st4) as [[e'|] st5];
        (eexists _, _, _; split; [reflexivity|]; split; [reflexivity|];
         by eexists _, _).
    - destruct (ml_WriteHeader ml _ st3) as [[e'|] st4]; cbn.
      { eexists _, _, _. split; [reflexivity|]. split; [reflexivity|].
        by eexists _, _. }
      destruct (ml_WriteData ml _ st4) as [[e'|] st5];
        (eexists _, _, _; split; [reflexivity|]; split; [reflexivity|];
         by eexists _, _). }
  assert (Hfin : forall inval st2,
    exists res st' new,
      callHandler (logged ml) StatusError (logged_endpoint ep) inval (st2, log)
        = (res, (st', log ++ new)) /\
      callHandler ml StatusError ep inval st2 = (res, st') /\
      match res with
      | Panic _ => new = []
      | Ret _ => exists r, new = [r] /\ (StatusError <> 0 -> checkResponseHeader r = None)
      end).
  { intros inval st2.
    destruct (Hcall inval st2) as (res & st' & new & H1 & H2 & err & r & -> & -> & Hr).
    eexists _, _, _. split; [exact H1|]. split; [exact H2|]. by eexists. }
  destruct (proto (inType ep) =? DataTypeMarshaledJSON).
  - destruct (ml_DecodeData ml _ st1) as [[inval [e|]] st2]; cbn.
    { destruct (ml_WriteHeader ml _ st2) as [e' st3]. reply_done. }
    apply Hfin.
  - destruct (proto (inType ep) =? DataTypeOctets); [apply Hfin|].
    eexists _, _, []. rewrite app_nil_r. by repeat split.
Qed.
End ReplyFacts.

Lemma demoServer_out_protos name ep :
  endpoints demoServer !! name = Some ep ->
  proto (outType ep) = DataTypeMarshaledJSON \/ proto (outType ep) = DataTypeOctets.
Proof.
  unfold demoServer. cbn [endpoints]. intros H.
  apply lookup_insert_Some in H as [[_ <-]|[_ H]]; [by left|].
  apply lookup_insert_Some in H as [[_ <-]|[_ H]]; [by left|].
  by rewrite lookup_empty in H.
Qed.

Lemma one_reply_per_request_witness :
  let r := mkHeader "" 0 0 StatusServerError "cannot list versions" in
  exists res st',
    ServeRequest (logged memLayer) StatusServerError (logged_server demoServer)
      (failConn, []) = (res, (st', [r])) /\
    ServeRequest memLayer StatusServerError demoServer failConn = (res, st').
Proof.
  intros r.
  destruct (one_reply_per_request memLayer StatusServerError demoServer failConn []
              demoServer_out_protos)
    as (res & st' & new & Hlogged & Hrun & _).
  exists res, st'. split; [|exact Hrun].
  rewrite Hlogged. f_equal. f_equal.
  assert (Hc : snd (snd (ServeRequest (logged memLayer) StatusServerError
                           (logged_server demoServer) (failConn, []))) = [r])
    by (vm_compute; reflexivity).
  by rewrite Hlogged in Hc.
Defined.

End Dispatch.

Module Cmd.

(** ** Datasets and versions (package zfs) *)

(** Modelled from the spec: package zfs is not among the sources.  A
    DatasetPath is "an ordered sequence of non-empty name components",
    "serialized with / separators". *)
Definition DatasetPath : Type := list string.
Definition ToString (p : DatasetPath) : string := String.concat "/" p.

(** Modelled from the spec: a FilesystemVersion is a record "{Type in
    {Snapshot, Bookmark}, Name, GUID:u64, CreateTXG:u64,
    Creation:timestamp}". *)
Inductive VersionType : Type := Snapshot | Bookmark.

Record FilesystemVersion : Type := mkVersion {
  Typ : VersionType;
  Name : string;
  Guid : Z;
  CreateTXG : Z;
  Creation : Z
}.

Definition is_Snapshot (v : FilesystemVersion) : bool :=
  match Typ v with Snapshot => true | Bookmark => false end.

(** Modelled from the spec: the four conflict classes of a FilesystemDiff
    and its three version lists. *)
Inductive Conflict : Type :=
  | ConflictAllRight
  | ConflictIncremental
  | ConflictNoCommonAncestor
  | ConflictDiverged.

Record FilesystemDiff : Type := mkDiff {
  DiffConflict : Conflict;
  MRCAPathLeft : list FilesystemVersion;
  MRCAPathRight : list FilesystemVersion;
  IncrementalPath : list FilesystemVersion
}.

(** Modelled from the spec: the local state of a filesystem is
    "{Placeholder: bool}". *)
Record FilesystemState : Type := mkState {
  Placeholder : bool
}.

(** ** Requests (cmd/handler.go) *)

Record FilesystemVersionsRequest : Type := mkVersionsRequest {
  versions_Filesystem : DatasetPath
}.

Record InitialTransferRequest : Type := mkInitialRequest {
  initial_Filesystem : DatasetPath;
  initial_FilesystemVersion : FilesystemVersion
}.

Record IncrementalTransferRequest : Type := mkIncrementalRequest {
  incremental_Filesystem : DatasetPath;
  incremental_From : FilesystemVersion;
  incremental_To : FilesystemVersion
}.

(** ** Calls out of the program

    What handler and puller do to the machine and to the remote side: each
    call is recorded, in order, before it is made. *)
Inductive event : Type :=
  | ZFSListFilesystemVersions (fs : DatasetPath)
  | ZFSSend (fs : DatasetPath) (from : FilesystemVersion) (to : option FilesystemVersion)
  | ZFSCreatePlaceholderFilesystem (fs : DatasetPath)
  | ZFSRecv (fs : DatasetPath) (args : list string)
  | ZFSSet (fs : DatasetPath) (prop val : string)
  | CallFilesystemVersions (r : FilesystemVersionsRequest)
  | CallInitialTransfer (r : InitialTransferRequest)
  | CallIncrementalTransfer (r : IncrementalTransferRequest)
  | TotalRX (n : Z).             (* watcher.Progress().TotalRX, as read *)

(** The state a run threads: the world the calls act on, the calls made so
    far, and [err], the named result of the enclosing function. *)
Record RunState (World : Type) : Type := mkRun {
  world : World;
  trace : list event;
  err : option error
}.
Arguments mkRun {World} _ _ _.
Arguments world {World} _.
Arguments trace {World} _.
Arguments err {World} _.

Definition M (World A : Type) : Type := RunState World -> outcome A * RunState World.

Definition ret {World A} (a : A) : M World A := fun s => (Ret a, s).
Definition bind {World A B} (m : M World A) (f : A -> M World B) : M World B :=
  fun s => match m s with
           | (Ret a, s') => f a s'
           | (Panic msg, s') => (Panic msg, s')
           end.
Definition panic {World A} (msg : string) : M World A := fun s => (Panic msg, s).
Definition emit {World} (ev : event) : M World unit :=
  fun s => (Ret tt, mkRun (world s) (trace s ++ [ev]) (err s)).
Definition setErr {World} (e : option error) : M World unit :=
  fun s => (Ret tt, mkRun (world s) (trace s) e).
(** A call into the world, recorded as [ev]. *)
Definition call {World A} (ev : event) (f : World -> A * World) : M World A :=
  fun s => let '(a, w) := f (world s) in
           (Ret a, mkRun w (trace s ++ [ev]) (err s)).

Global Instance M_ret {World} : MRet (M World) := @ret World.
Global Instance M_bind {World} : MBind (M World) := fun A B f m => bind m f.

(** ** The server-side handler (cmd/handler.go) *)

Section Handler.
Context {World Stream : Type}.

(** [zfs.ZFSListFilesystemVersions] and [zfs.ZFSSend], and the zero
    [io.Reader]. *)
Variable zfs_ListFilesystemVersions :
  DatasetPath -> World -> (list FilesystemVersion * option error) * World.
Variable zfs_Send :
  DatasetPath -> FilesystemVersion -> option FilesystemVersion ->
  World -> (Stream * option error) * World.
Variable nilStream : Stream.
(** [v.ToAbsPath(p)] *)
Variable ToAbsPath : FilesystemVersion -> DatasetPath -> string.

(** A filter is a predicate that admits, denies or fails:
    [Filter(x) (pass bool, err error)]. *)
Record Handler : Type := mkHandler {
  dsf : DatasetPath -> bool * option error;
  fsvf : FilesystemVersion -> bool * option error
}.

(** [Handler.pullACLCheck(p, v)]; [v] may be nil. *)
Definition pullACLCheck (h : Handler) (p : DatasetPath) (v : option FilesystemVersion)
  : option error :=
  let '(fsAllowed, err) := dsf h p in
  match err with
  | Some e => Some (Errorf ("error evaluating ACL: " ++ error_Error e)%string)
  | None =>
      if negb fsAllowed
      then Some (Errorf ("ACL prohibits access to " ++ ToString p)%string)
      else match v with
           | None => None
           | Some v =>
               let '(vAllowed, err) := fsvf h v in
               match err with
               | Some e => Some (Wrap e "error evaluating version filter")
               | None =>
                   if negb vAllowed
                   then Some (Errorf ("ACL prohibits access to " ++ ToAbsPath v p)%string)
                   else None
               end
           end
  end.

(** [Handler.HandleFilesystemVersionsRequest(r, versions)]: the value left
    in [*versions] and the error.  The source calls [pullACLCheck] as the
    init statement of an [if] whose condition tests the named result
    [err], which nothing has assigned yet. *)
Definition HandleFilesystemVersionsRequest (h : Handler) (r : FilesystemVersionsRequest)
  : M World (list FilesystemVersion * option error) :=
  let err : option error := None in
  let _ := pullACLCheck h (versions_Filesystem r) None in
  match err with
  | Some e => ret ([], Some e)
  | None =>
      '(vs, err) ← call (ZFSListFilesystemVersions (versions_Filesystem r))
                         (zfs_ListFilesystemVersions (versions_Filesystem r));
      match err with
      | Some e => ret ([], Some e)
      | None => ret (vs, None)
      end
  end.

(** [Handler.HandleInitialTransferRequest(r, stream)]. *)
Definition HandleInitialTransferRequest (h : Handler) (r : InitialTransferRequest)
  : M World (Stream * option error) :=
  match pullACLCheck h (initial_Filesystem r) (Some (initial_FilesystemVersion r)) with
  | Some e => ret (nilStream, Some e)
  | None =>
      call (ZFSSend (initial_Filesystem r) (initial_FilesystemVersion r) None)
           (zfs_Send (initial_Filesystem r) (initial_FilesystemVersion r) None)
  end.

(** [Handler.HandleIncrementalTransferRequest(r, stream)]. *)
Definition HandleIncrementalTransferRequest (h : Handler) (r : IncrementalTransferRequest)
  : M World (Stream * option error) :=
  match pullACLCheck h (incremental_Filesystem r) (Some (incremental_From r)) with
  | Some e => ret (nilStream, Some e)
  | None =>
  match pullACLCheck h (incremental_Filesystem r) (Some (incremental_To r)) with
  | Some e => ret (nilStream, Some e)
  | None =>
      call (ZFSSend (incremental_Filesystem r) (incremental_From r)
                    (Some (incremental_To r)))
           (zfs_Send (incremental_Filesystem r) (incremental_From r)
                     (Some (incremental_To r)))
  end end.

(** The older handler of the same file has one filter, [PullACL], and
    checks the path only. *)
Definition pullACLCheck_path (PullACL : DatasetPath -> bool * option error)
    (p : DatasetPath) : option error :=
  let '(allowed, err) := PullACL p in
  match err with
  | Some e => Some (Errorf ("error evaluating ACL: " ++ error_Error e)%string)
  | None =>
      if negb allowed
      then Some (Errorf ("ACL prohibits access to " ++ ToString p)%string)
      else None
  end.

Definition HandleInitialTransferRequest_path
    (PullACL : DatasetPath -> bool * option error) (r : InitialTransferRequest)
  : M World (Stream * option error) :=
  match pullACLCheck_path PullACL (initial_Filesystem r) with
  | Some e => ret (nilStream, Some e)
  | None =>
      call (ZFSSend (initial_Filesystem r) (initial_FilesystemVersion r) None)
           (zfs_Send (initial_Filesystem r) (initial_FilesystemVersion r) None)
  end.
End Handler.

(** ** The puller (cmd/replication.go) *)

Definition InitialReplPolicy : Type := string.
Definition InitialReplPolicyMostRecent : InitialReplPolicy := "most_recent".
Definition InitialReplPolicyAll : InitialReplPolicy := "all".

Record RemoteLocalMapping : Type := mkMapping {
  Remote : DatasetPath;
  Local : DatasetPath
}.

(** Modelled from the spec: the forest walk passes "{Path, FilledIn}" to
    the visitor. *)
Record DatasetPathVisit : Type := mkVisit {
  Path : DatasetPath;
  FilledIn : bool
}.

Definition is_AllRight (c : Conflict) : bool :=
  match c with ConflictAllRight => true | _ => false end.

Section Pull.
Context {World Stream : Type}.

(** [pull.Remote.Call] on the three endpoints the walk uses, with the
    value it leaves behind the output pointer. *)
Variable remote_FilesystemVersions :
  FilesystemVersionsRequest -> World -> (list FilesystemVersion * option error) * World.
Variable remote_InitialTransfer :
  InitialTransferRequest -> World -> (Stream * option error) * World.
Variable remote_IncrementalTransfer :
  IncrementalTransferRequest -> World -> (Stream * option error) * World.
(** Package zfs. *)
Variable zfs_ListFilesystemVersions :
  DatasetPath -> World -> (list FilesystemVersion * option error) * World.
Variable zfs_MakeFilesystemDiff :
  list FilesystemVersion -> list FilesystemVersion -> FilesystemDiff.
Variable zfs_Recv : DatasetPath -> Stream -> list string -> World -> option error * World.
Variable zfs_Set : DatasetPath -> string -> string -> World -> option error * World.
Variable zfs_CreatePlaceholderFilesystem : DatasetPath -> World -> option error * World.
(** [watcher.Progress().TotalRX] of the [util.IOProgressWatcher] around a
    stream. *)
Variable watcher_TotalRX : Stream -> World -> Z * World.

Definition read_TotalRX (stream : Stream) : M World Z :=
  fun s => let '(n, w) := watcher_TotalRX stream (world s) in
           (Ret n, mkRun w (trace s ++ [TotalRX n]) (err s)).

(** [case zfs.ConflictAllRight] of [doPull]. *)
Definition initialSync (policy : InitialReplPolicy) (m : RemoteLocalMapping)
    (localState : FilesystemState) (diff : FilesystemDiff) : M World bool :=
  if negb (String.eqb policy InitialReplPolicyMostRecent)
  then panic ("policy '" ++ policy ++ "' not implemented")%string
  else
    let snapsOnly := filter (fun v => is_Snapshot v = true) (MRCAPathRight diff) in
    if (length snapsOnly <? 1)%nat then ret false
    else
      match snapsOnly !! (length snapsOnly - 1)%nat with
      | None => panic "index out of range"
      | Some v =>
          let r := mkInitialRequest (Remote m) v in
          '(stream, e) ← call (CallInitialTransfer r) (remote_InitialTransfer r);
          setErr e;;
          match e with
          | Some _ => ret false
          | None =>
              let recvArgs := ["-u"%string] in
              let recvArgs :=
                if Placeholder localState then recvArgs ++ ["-F"%string] else recvArgs in
              e ← call (ZFSRecv (Local m) recvArgs) (zfs_Recv (Local m) stream recvArgs);
              setErr e;;
              match e with
              | Some _ => ret false
              | None =>
                  _ ← read_TotalRX stream;
                  e ← call (ZFSSet (Local m) "readonly" "on")
                           (zfs_Set (Local m) "readonly" "on");
                  setErr e;;
                  ret true
              end
          end
      end.

(** The loop of [case zfs.ConflictIncremental]: [path] is what is left of
    [diff.IncrementalPath] from index [i] on, [pathRx] the octets counted
    so far. *)
Fixpoint followIncrementalPath (m : RemoteLocalMapping)
    (path : list FilesystemVersion) (pathRx : Z) : M World (bool * Z) :=
  match path with
  | from :: ((to :: _) as path') =>
      let r := mkIncrementalRequest (Remote m) from to in
      '(stream, e) ← call (CallIncrementalTransfer r) (remote_IncrementalTransfer r);
      setErr e;;
      match e with
      | Some _ => ret (false, pathRx)
      | None =>
          e ← call (ZFSRecv (Local m) []) (zfs_Recv (Local m) stream []);
          setErr e;;
          match e with
          | Some _ => ret (false, pathRx)
          | None =>
              totalRx ← read_TotalRX stream;
              followIncrementalPath m path' (wrap_uint64 (pathRx + totalRx))
          end
      end
  | _ => ret (true, pathRx)
  end.

(** [case zfs.ConflictIncremental] of [doPull], with the value of
    [pathRx] at its end. *)
Definition incrementalSync (m : RemoteLocalMapping) (diff : FilesystemDiff)
  : M World (bool * Z) :=
  if (length (IncrementalPath diff) <? 2)%nat then ret (true, 0)
  else followIncrementalPath m (IncrementalPath diff) 0.

(** [doPull] from the consistency check on the diff to the end of the
    switch on [diff.Conflict].  The panic after the switch is for a
    conflict class other than the four. *)
Definition replicate (policy : InitialReplPolicy) (m : RemoteLocalMapping)
    (localState : FilesystemState) (diff : FilesystemDiff) : M World bool :=
  if Placeholder localState && negb (is_AllRight (DiffConflict diff))
  then panic "internal inconsistency: local placeholder implies ConflictAllRight"
  else
    match DiffConflict diff with
    | ConflictAllRight => initialSync policy m localState diff
    | ConflictIncremental => '(ok, _) ← incrementalSync m diff; ret ok
    | ConflictNoCommonAncestor => ret false
    | ConflictDiverged => ret false
    end.

(** The visitor [doPull] hands to [WalkTopDown]. *)
Definition visit (policy : InitialReplPolicy)
    (replMapping : gmap string RemoteLocalMapping)
    (localFilesystemState : gmap string FilesystemState)
    (v : DatasetPathVisit) : M World bool :=
  if FilledIn v then
    match localFilesystemState !! ToString (Path v) with
    | Some _ => ret true
    | None =>
        e ← call (ZFSCreatePlaceholderFilesystem (Path v))
                 (zfs_CreatePlaceholderFilesystem (Path v));
        match e with
        | Some e' =>
            setErr (Some (Errorf ("aborting, cannot create placeholder filesystem "
                                    ++ ToString (Path v) ++ ": " ++ error_Error e')%string));;
            ret false
        | None => setErr None;; ret true
        end
    end
  else
    match replMapping !! ToString (Path v) with
    | None =>
        panic ("internal inconsistency: replMapping should contain mapping for "
                 ++ "any path that was not filled in by WalkTopDown()")%string
    | Some m =>
        let localExists := localFilesystemState !! ToString (Local m) in
        let localState := default (mkState false) localExists in
        versions ←
          match localExists with
          | None => ret (Some [])
          | Some _ =>
              if Placeholder localState then ret (Some [])
              else
                '(vs, e) ← call (ZFSListFilesystemVersions (Local m))
                                (zfs_ListFilesystemVersions (Local m));
                setErr e;;
                match e with
                | Some _ => ret None
                | None => ret (Some vs)
                end
          end;
        match versions with
        | None => ret false
        | Some versions =>
            let r := mkVersionsRequest (Remote m) in
            '(theirVersions, e) ← call (CallFilesystemVersions r)
                                       (remote_FilesystemVersions r);
            setErr e;;
            match e with
            | Some _ => ret false
            | None =>
                let diff := zfs_MakeFilesystemDiff versions theirVersions in
                replicate policy m localState diff
            end
        end
    end.
(** No incremental transfer request and no receive fails. *)
Definition incremental_calls_succeed : Prop :=
  (forall r w, snd (fst (remote_IncrementalTransfer r w)) = None) /\
  (forall fs s args w, fst (zfs_Recv fs s args w) = None).

End Pull.

(** ** Reading a trace *)

(** The initial transfers a trace requests. *)
Definition initial_requests (evs : list event) : list InitialTransferRequest :=
  omap (fun ev => match ev with CallInitialTransfer r => Some r | _ => None end) evs.

(** A trace without the readings of the octet counter. *)
Definition is_TotalRX (ev : event) : bool :=
  match ev with TotalRX _ => true | _ => false end.
Definition transfers (evs : list event) : list event :=
  filter (fun ev => is_TotalRX ev = false) evs.

(** The sum of the octet counts a trace reads. *)
Definition received (evs : list event) : Z :=
  foldr (fun ev acc => match ev with TotalRX n => n + acc | _ => acc end) 0 evs.

(** The adjacent pairs of a path, in index order. *)
Definition adjacent (path : list FilesystemVersion)
  : list (FilesystemVersion * FilesystemVersion) :=
  zip path (tail path).

(** One incremental transfer request and one receive per adjacent pair. *)
Definition incremental_steps (m : RemoteLocalMapping) (path : list FilesystemVersion)
  : list event :=
  flat_map (fun '(from, to) =>
              [CallIncrementalTransfer (mkIncrementalRequest (Remote m) from to);
               ZFSRecv (Local m) []])
           (adjacent path).

(** The arguments of the receives in a trace. *)
Definition recv_args (evs : list event) : list (DatasetPath * list string) :=
  omap (fun ev => match ev with ZFSRecv fs args => Some (fs, args) | _ => None end) evs.

(** The flags [doPull] passes to the receive of an initial transfer. *)
Definition initial_recvArgs (localState : FilesystemState) : list string :=
  if Placeholder localState then ["-u"; "-F"]%string else ["-u"%string].

(** ** A world to run the scenarios of the specification in

    A world in which every call succeeds: streams are named by the version
    they carry, and every receive counts 100 octets. *)
Module Demo.
Definition snap (name : string) (guid : Z) : FilesystemVersion :=
  mkVersion Snapshot name guid guid 0.
Definition bookmark (name : string) (guid : Z) : FilesystemVersion :=
  mkVersion Bookmark name guid guid 0.

Definition remote_InitialTransfer (r : InitialTransferRequest) (w : unit)
  : (string * option error) * unit :=
  ((Name (initial_FilesystemVersion r), None), w).
Definition remote_IncrementalTransfer (r : IncrementalTransferRequest) (w : unit)
  : (string * option error) * unit :=
  ((Name (incremental_To r), None), w).
Definition zfs_Recv (_ : DatasetPath) (_ : string) (_ : list string) (w : unit)
  : option error * unit := (None, w).
Definition zfs_Set (_ : DatasetPath) (_ _ : string) (w : unit)
  : option error * unit := (None, w).
Definition watcher_TotalRX (_ : string) (w : unit) : Z * unit := (100, w).
Definition zfs_ListFilesystemVersions (_ : DatasetPath) (w : unit)
  : (list FilesystemVersion * option error) * unit :=
  (([snap "b" 2], None), w).
Definition zfs_Send (_ : DatasetPath) (from : FilesystemVersion)
    (_ : option FilesystemVersion) (w : unit) : (string * option error) * unit :=
  ((Name from, None), w).
Definition ToAbsPath (v : FilesystemVersion) (p : DatasetPath) : string :=
  (ToString p ++ "@" ++ Name v)%string.

Definition replicate :=
  replicate remote_InitialTransfer remote_IncrementalTransfer
    zfs_Recv zfs_Set watcher_TotalRX.
Definition incrementalSync :=
  incrementalSync remote_IncrementalTransfer zfs_Recv watcher_TotalRX.

Definition start : RunState unit := mkRun tt [] None.
Definition db : RemoteLocalMapping := mkMapping ["tank"; "db"] ["backup"; "db"].

(** A dataset filter that admits nothing below [tank/secret]. *)
Definition denySecret (p : DatasetPath) : bool * option error :=
  (negb (bool_decide (p = ["tank"; "secret"])), None).
Definition snapshotsOnly (v : FilesystemVersion) : bool * option error :=
  (is_Snapshot v, None).
Definition handler : Handler := mkHandler denySecret snapshotsOnly.
End Demo.

(** ** The start of [doPull]: from remote to local paths *)

Section Mapping.
(** [pull.Mapping.Map(source)]: a local path, nil, or an error. *)
Variable Map : DatasetPath -> option DatasetPath * option error.
(** [%s] of a [*zfs.DatasetPath]. *)
Variable fmt_DatasetPath : DatasetPath -> string.

(** The loop of [doPull] over [remoteFilesystems] (the slice from the index
    that is next), with [replMapping] and the paths that have been added
    to [localTraversal], in the order of the [Add] calls. *)
Fixpoint mapFilesystems (remoteFilesystems : list DatasetPath)
    (replMapping : gmap string RemoteLocalMapping) (localTraversal : list DatasetPath)
  : error + (gmap string RemoteLocalMapping * list DatasetPath) :=
  match remoteFilesystems with
  | [] => inr (replMapping, localTraversal)
  | fs :: rest =>
      let '(localFs, err) := Map fs in
      match err with
      | Some e =>
          inl (Errorf ("error mapping " ++ fmt_DatasetPath fs ++ ": "
                         ++ error_Error e)%string)
      | None =>
          match localFs with
          | None => mapFilesystems rest replMapping localTraversal
          | Some localFs =>
              let m := mkMapping fs localFs in
              mapFilesystems rest (<[ToString (Local m) := m]> replMapping)
                             (localTraversal ++ [Local m])
          end
      end
  end.
End Mapping.

(** An event on the two filesystems of a mapping: on the local path for
    what package zfs does, on the remote path for a request. *)
Definition concerns (m : RemoteLocalMapping) (ev : event) : Prop :=
  match ev with
  | ZFSListFilesystemVersions fs | ZFSRecv fs _ | ZFSSet fs _ _ => fs = Local m
  | CallFilesystemVersions r => versions_Filesystem r = Remote m
  | CallInitialTransfer r => initial_Filesystem r = Remote m
  | CallIncrementalTransfer r => incremental_Filesystem r = Remote m
  | TotalRX _ => True
  | ZFSSend _ _ _ | ZFSCreatePlaceholderFilesystem _ => False
  end.

(** The two cases in which [replicate] panics. *)
Definition replicate_panic_condition (policy : InitialReplPolicy)
    (localState : FilesystemState) (diff : FilesystemDiff) : Prop :=
  (Placeholder localState = true /\ DiffConflict diff <> ConflictAllRight) \/
  (DiffConflict diff = ConflictAllRight /\ policy <> InitialReplPolicyMostRecent).

(** ** Registering the handler (cmd/handler.go) *)

(** The types of the four handler methods, as values: a method value has
    the method's parameters and results, without the receiver. *)
Definition HandleFilesystemRequest_type : Dispatch.reflect_Type :=
  Dispatch.FuncOf
    [Dispatch.PtrTo (Dispatch.StructType "cmd.FilesystemRequest");
     Dispatch.PtrTo (Dispatch.SliceOf
                       (Dispatch.PtrTo (Dispatch.StructType "zfs.DatasetPath")))]
    [Dispatch.errInterfaceType].
Definition HandleFilesystemVersionsRequest_type : Dispatch.reflect_Type :=
  Dispatch.FuncOf
    [Dispatch.PtrTo (Dispatch.StructType "cmd.FilesystemVersionsRequest");
     Dispatch.PtrTo (Dispatch.SliceOf (Dispatch.StructType "zfs.FilesystemVersion"))]
    [Dispatch.errInterfaceType].
Definition HandleInitialTransferRequest_type : Dispatch.reflect_Type :=
  Dispatch.FuncOf
    [Dispatch.PtrTo (Dispatch.StructType "cmd.InitialTransferRequest");
     Dispatch.PtrTo Dispatch.io_Reader]
    [Dispatch.errInterfaceType].
Definition HandleIncrementalTransferRequest_type : Dispatch.reflect_Type :=
  Dispatch.FuncOf
    [Dispatch.PtrTo (Dispatch.StructType "cmd.IncrementalTransferRequest");
     Dispatch.PtrTo Dispatch.io_Reader]
    [Dispatch.errInterfaceType].

Section Register.
Context {St Value : Type}.
Variable Implements_error : Dispatch.reflect_Type -> bool.
Variable Type_String : Dispatch.reflect_Type -> string.
Variable zeroValue : @Dispatch.handler_func St Value.
(** What a call of each of the four methods does, as the dispatcher sees
    it. *)
Variable callFilesystems callVersions callInitial callIncremental :
  @Dispatch.handler_func St Value.

Definition server_RegisterEndpoint
    (server : @Dispatch.Server St Value (option Dispatch.reflect_Type))
    (name : string) (t : Dispatch.reflect_Type) (f : @Dispatch.handler_func St Value) :=
  Dispatch.RegisterHandler Implements_error Type_String zeroValue server name
    (Dispatch.mkGoValue t f).

(** [registerEndpoints(server, handler)]: the server as the calls leave
    it, or the panic on the first registration that fails. *)
Definition registerEndpoints
    (server : @Dispatch.Server St Value (option Dispatch.reflect_Type))
  : outcome (option error * @Dispatch.Server St Value (option Dispatch.reflect_Type)) :=
  match server_RegisterEndpoint server "FilesystemRequest"
          HandleFilesystemRequest_type callFilesystems with
  | (Some e, _) => Panic (error_Error e)
  | (None, server) =>
  match server_RegisterEndpoint server "FilesystemVersionsRequest"
          HandleFilesystemVersionsRequest_type callVersions with
  | (Some e, _) => Panic (error_Error e)
  | (None, server) =>
  match server_RegisterEndpoint server "InitialTransferRequest"
          HandleInitialTransferRequest_type callInitial with
  | (Some e, _) => Panic (error_Error e)
  | (None, server) =>
  match server_RegisterEndpoint server "IncrementalTransferRequest"
          HandleIncrementalTransferRequest_type callIncremental with
  | (Some e, _) => Panic (error_Error e)
  | (None, server) => Ret (None, server)
  end end end end.
End Register.

(** ** A world for the visits

    The world of [Demo], with a remote that lists two snapshots, a diff
    that finds every pair of histories diverged, and a [zfs set] that
    fails. *)
Module DemoVisit.
Definition remote_FilesystemVersions (_ : FilesystemVersionsRequest) (w : unit)
  : (list FilesystemVersion * option error) * unit :=
  (([Demo.snap "a" 1; Demo.snap "c" 3], None), w).
Definition zfs_MakeFilesystemDiff (left right : list FilesystemVersion)
  : FilesystemDiff :=
  mkDiff ConflictDiverged left right [].
Definition zfs_CreatePlaceholderFilesystem (_ : DatasetPath) (w : unit)
  : option error * unit := (None, w).
Definition zfs_Set (_ : DatasetPath) (_ _ : string) (w : unit)
  : option error * unit := (Some (Errorf "cannot set property"), w).

Definition visit :=
  visit remote_FilesystemVersions Demo.remote_InitialTransfer
    Demo.remote_IncrementalTransfer Demo.zfs_ListFilesystemVersions
    zfs_MakeFilesystemDiff Demo.zfs_Recv Demo.zfs_Set
    zfs_CreatePlaceholderFilesystem Demo.watcher_TotalRX.
End DemoVisit.

(** ** Facts about handler and puller *)

Ltac run_unfold :=
  unfold mbind, M_bind, bind, mret, M_ret, ret, call, setErr, emit, panic.

Section HandlerFacts.
Context {World Stream : Type}.
Variable zfs_ListFilesystemVersions :
  DatasetPath -> World -> (list FilesystemVersion * option error) * World.
Variable zfs_Send :
  DatasetPath -> FilesystemVersion -> option FilesystemVersion ->
  World -> (Stream * option error) * World.
Variable nilStream : Stream.
Variable ToAbsPath : FilesystemVersion -> DatasetPath -> string.

Abbreviation HandleFilesystemVersionsRequest :=
  (HandleFilesystemVersionsRequest zfs_ListFilesystemVersions ToAbsPath).
Abbreviation HandleInitialTransferRequest :=
  (HandleInitialTransferRequest zfs_Send nilStream ToAbsPath).
Abbreviation pullACLCheck := (pullACLCheck ToAbsPath).

Lemma pullACLCheck_denied (h : Handler) p v :
  dsf h p = (false, None) \/ fsvf h v = (false, None) ->
  exists e, pullACLCheck h p (Some v) = Some e.
Proof.
  intros Hdeny. unfold Cmd.pullACLCheck.
  destruct (dsf h p) as [fsAllowed [e|]] eqn:Hd; [by eexists|].
  destruct fsAllowed; cbn [negb]; [|by eexists].
  destruct Hdeny as [Hdeny|Hdeny]; [done|]. rewrite Hdeny. cbn [negb]. by eexists.
Qed.

Lemma pullACLCheck_admitted (h : Handler) p v :
  dsf h p = (true, None) -> fsvf h v = (true, None) ->
  pullACLCheck h p (Some v) = None.
Proof. intros Hd Hv. unfold Cmd.pullACLCheck. by rewrite Hd, Hv. Qed.

(** The versions handler lists the versions whatever the dataset filter
    says of the path. *)
Lemma HandleFilesystemVersionsRequest_lists_always (h : Handler) r
    (st : RunState World) :
  exists res st',
    HandleFilesystemVersionsRequest h r st = (Ret res, st') /\
    trace st' = trace st ++ [ZFSListFilesystemVersions (versions_Filesystem r)].
Proof.
  unfold Cmd.HandleFilesystemVersionsRequest. run_unfold.
  destruct (zfs_ListFilesystemVersions _ _) as [[vs [e|]] w]; by eexists _, _.
Qed.

(** C3. The initial-transfer handler asks the dataset filter about the
    path and the version filter about the version.  When either of them
    denies, the handler returns an error, the stream it hands back is the
    nil one and nothing is sent: the run's state, its trace with it, is
    as before.  When both admit, the handler is the one call of
    [zfs.ZFSSend] for this path and version. *)
Theorem initial_transfer_checks_both_filters (h : Handler)
    (r : InitialTransferRequest) (st : RunState World) :
  let p := initial_Filesystem r in
  let v := initial_FilesystemVersion r in
  (dsf h p = (false, None) \/ fsvf h v = (false, None) ->
   exists e, HandleInitialTransferRequest h r st = (Ret (nilStream, Some e), st)) /\
  (dsf h p = (true, None) -> fsvf h v = (true, None) ->
   HandleInitialTransferRequest h r st =
     call (ZFSSend p v None) (zfs_Send p v None) st).
Proof.
  intros p v. split.
  - intros Hdeny. destruct (pullACLCheck_denied h p v Hdeny) as [e He].
    exists e. unfold Cmd.HandleInitialTransferRequest. fold p v. by rewrite He.
  - intros Hd Hv. unfold Cmd.HandleInitialTransferRequest. fold p v.
    by rewrite pullACLCheck_admitted.
Qed.

(** X19. The older initial-transfer handler sends a version whenever the path
    is admitted: it has no version filter to ask. *)
Lemma HandleInitialTransferRequest_path_sends PullACL (r : InitialTransferRequest)
    (st : RunState World) :
  PullACL (initial_Filesystem r) = (true, None) ->
  HandleInitialTransferRequest_path zfs_Send nilStream PullACL r st =
    call (ZFSSend (initial_Filesystem r) (initial_FilesystemVersion r) None)
         (zfs_Send (initial_Filesystem r) (initial_FilesystemVersion r) None) st.
Proof.
  intros Hp. unfold HandleInitialTransferRequest_path, pullACLCheck_path.
  by rewrite Hp.
Qed.
End HandlerFacts.

Section PullFacts.
Context {World Stream : Type}.
Variable remote_FilesystemVersions :
  FilesystemVersionsRequest -> World -> (list FilesystemVersion * option error) * World.
Variable remote_InitialTransfer :
  InitialTransferRequest -> World -> (Stream * option error) * World.
Variable remote_IncrementalTransfer :
  IncrementalTransferRequest -> World -> (Stream * option error) * World.
Variable zfs_ListFilesystemVersions :
  DatasetPath -> World -> (list FilesystemVersion * option error) * World.
Variable zfs_MakeFilesystemDiff :
  list FilesystemVersion -> list FilesystemVersion -> FilesystemDiff.
Variable zfs_Recv : DatasetPath -> Stream -> list string -> World -> option error * World.
Variable zfs_Set : DatasetPath -> string -> string -> World -> option error * World.
Variable zfs_CreatePlaceholderFilesystem : DatasetPath -> World -> option error * World.
Variable watcher_TotalRX : Stream -> World -> Z * World.

Abbreviation followIncrementalPath :=
  (followIncrementalPath remote_IncrementalTransfer zfs_Recv watcher_TotalRX).
Abbreviation incrementalSync :=
  (incrementalSync remote_IncrementalTransfer zfs_Recv watcher_TotalRX).
Abbreviation initialSync :=
  (initialSync remote_InitialTransfer zfs_Recv zfs_Set watcher_TotalRX).
Abbreviation replicate :=
  (replicate remote_InitialTransfer remote_IncrementalTransfer
     zfs_Recv zfs_Set watcher_TotalRX).

Lemma wrap_uint64_range z : 0 <= wrap_uint64 z < 2 ^ 64.
Proof. unfold wrap_uint64. apply Z.mod_pos_bound. lia. Qed.

Lemma wrap_uint64_add_l x y : wrap_uint64 (wrap_uint64 x + y) = wrap_uint64 (x + y).
Proof. unfold wrap_uint64. apply Z.add_mod_idemp_l. lia. Qed.

Lemma followIncrementalPath_spec m : forall path pathRx (st : RunState World),
  0 <= pathRx < 2 ^ 64 ->
  exists new ok rx st',
    followIncrementalPath m path pathRx st = (Ret (ok, rx), st') /\
    trace st' = trace st ++ new /\
    transfers new `prefix_of` incremental_steps m path /\
    rx = wrap_uint64 (pathRx + received new) /\
    (ok = true -> transfers new = incremental_steps m path) /\
    (incremental_calls_succeed remote_IncrementalTransfer zfs_Recv -> ok = true) /\
    (forall fs args, (fs, args) ∈ recv_args new -> fs = Local m /\ args = []).
Proof.
  induction path as [|from path IH]; intros pathRx st HRx.
  { exists [], true, pathRx, st. cbn. rewrite app_nil_r, Z.add_0_r.
    unfold wrap_uint64. rewrite Z.mod_small by lia.
    do 6 (split; [done|]). intros ?? H. by apply elem_of_nil in H. }
  destruct path as [|to path'].
  { exists [], true, pathRx, st. cbn. rewrite app_nil_r, Z.add_0_r.
    unfold wrap_uint64. rewrite Z.mod_small by lia.
    do 6 (split; [done|]). intros ?? H. by apply elem_of_nil in H. }
  set (r := mkIncrementalRequest (Remote m) from to).
  assert (Hsteps : incremental_steps m (from :: to :: path') =
                   CallIncrementalTransfer r :: ZFSRecv (Local m) [] ::
                   incremental_steps m (to :: path')) by reflexivity.
  rewrite Hsteps.
  cbn [Cmd.followIncrementalPath]. fold r. run_unfold.
  cbn [world trace err].
  destruct (remote_IncrementalTransfer r (world st)) as [[stream e1] w1] eqn:Hcall.
  destruct e1 as [e1|].
  { (* the request fails *)
    eexists [CallIncrementalTransfer r], false, pathRx, _.
    split; [reflexivity|]. cbn [trace]. split; [done|].
    split. { cbn. by apply prefix_cons, prefix_nil. }
    split. { cbn. rewrite Z.add_0_r. unfold wrap_uint64. by rewrite Z.mod_small by lia. }
    split; [done|]. split.
    - intros [Hc _]. specialize (Hc r (world st)). rewrite Hcall in Hc. done.
    - intros ?? H. by apply elem_of_nil in H. }
  cbn [world trace err].
  destruct (zfs_Recv (Local m) stream [] w1) as [e2 w2] eqn:Hrecv.
  destruct e2 as [e2|].
  { (* the receive fails *)
    eexists [CallIncrementalTransfer r; ZFSRecv (Local m) []], false, pathRx, _.
    split; [reflexivity|]. cbn [trace]. split; [by rewrite <- app_assoc|].
    split. { cbn. by apply prefix_cons, prefix_cons, prefix_nil. }
    split. { cbn. rewrite Z.add_0_r. unfold wrap_uint64. by rewrite Z.mod_small by lia. }
    split; [done|]. split.
    - intros [_ Hc]. specialize (Hc (Local m) stream [] w1). rewrite Hrecv in Hc. done.
    - intros ?? H. cbn in H. apply list_elem_of_singleton in H. by inversion H. }
  unfold read_TotalRX. cbn [world trace err].
  destruct (watcher_TotalRX stream w2) as [totalRx w3] eqn:Hrx.
  destruct (IH (wrap_uint64 (pathRx + totalRx))
              (mkRun w3 (((trace st ++ [CallIncrementalTransfer r])
                            ++ [ZFSRecv (Local m) []]) ++ [TotalRX totalRx]) None)
              (wrap_uint64_range _))
    as (new & ok & rx & st' & Hrun & Htrace & Hpre & Hrxeq & Hok & Hsucc & Hargs).
  exists (CallIncrementalTransfer r :: ZFSRecv (Local m) [] :: TotalRX totalRx :: new),
    ok, rx, st'.
  split; [exact Hrun|]. split.
  { rewrite Htrace. cbn [trace]. by rewrite <- !app_assoc. }
  split. { cbn. by apply prefix_cons, prefix_cons. }
  split.
  { rewrite Hrxeq, wrap_uint64_add_l. unfold received. cbn [foldr].
    f_equal. lia. }
  split. { intros H. cbn -[incremental_steps]. by rewrite <- (Hok H). }
  split; [done|].
  intros fs args H. cbn in H. apply elem_of_cons in H as [H|H]; [by inversion H|].
  by apply Hargs.
Qed.

Lemma filter_no_snapshot (l : list FilesystemVersion) :
  Forall (fun x => Typ x = Bookmark) l ->
  filter (fun v => is_Snapshot v = true) l = [].
Proof.
  induction 1 as [|x l Hx _ IH]; [done|].
  rewrite filter_cons_False; [done|]. unfold is_Snapshot. rewrite Hx. discriminate.
Qed.

Lemma filter_latest_snapshot pre v post :
  Typ v = Snapshot -> Forall (fun x => Typ x = Bookmark) post ->
  filter (fun v => is_Snapshot v = true) (pre ++ v :: post) =
    filter (fun v => is_Snapshot v = true) pre ++ [v].
Proof.
  intros Hv Hpost. rewrite filter_app, filter_cons_True.
  - by rewrite (filter_no_snapshot post).
  - unfold is_Snapshot. by rewrite Hv.
Qed.

(** What the initial synchronisation does under the MostRecent policy. *)
Lemma initialSync_spec m localState diff (st : RunState World) :
  match last (filter (fun v => is_Snapshot v = true) (MRCAPathRight diff)) with
  | None => initialSync InitialReplPolicyMostRecent m localState diff st = (Ret false, st)
  | Some v =>
      exists ok st' rest,
        initialSync InitialReplPolicyMostRecent m localState diff st = (Ret ok, st') /\
        trace st' = trace st ++ CallInitialTransfer (mkInitialRequest (Remote m) v) :: rest /\
        ((ok = false /\ rest = []) \/
         (ok = false /\ rest = [ZFSRecv (Local m) (initial_recvArgs localState)]) \/
         (ok = true /\ exists n,
            rest = [ZFSRecv (Local m) (initial_recvArgs localState); TotalRX n;
                    ZFSSet (Local m) "readonly" "on"]))
  end.
Proof.
  unfold Cmd.initialSync. cbn [negb]. rewrite String.eqb_refl. cbn [negb].
  set (snapsOnly := filter (fun v => is_Snapshot v = true) (MRCAPathRight diff)).
  rewrite last_lookup.
  replace (Init.Nat.pred (length snapsOnly)) with (length snapsOnly - 1)%nat by lia.
  destruct (snapsOnly !! (length snapsOnly - 1)%nat) as [v|] eqn:Hv.
  2:{ apply lookup_ge_None in Hv.
      destruct (Nat.ltb_spec (length snapsOnly) 1); [done|].
      lia. }
  apply lookup_lt_Some in Hv.
  replace (length snapsOnly <? 1)%nat with false
    by (symmetry; apply Nat.ltb_ge; lia).
  set (r := mkInitialRequest (Remote m) v).
  assert (Hargs : (if Placeholder localState then ["-u"%string] ++ ["-F"%string]
                   else ["-u"%string]) = initial_recvArgs localState)
    by (unfold initial_recvArgs; by destruct (Placeholder localState)).
  rewrite Hargs. run_unfold. cbn [world trace err].
  destruct (remote_InitialTransfer r (world st)) as [[stream e1] w1].
  destruct e1 as [e1|].
  { eexists false, _, []. split; [reflexivity|]. split; [done|]. by left. }
  cbn [world trace err].
  destruct (zfs_Recv (Local m) stream (initial_recvArgs localState) w1) as [e2 w2].
  destruct e2 as [e2|].
  { eexists false, _, [_]. split; [reflexivity|]. cbn [trace].
    split; [by rewrite <- app_assoc|]. right. by left. }
  unfold read_TotalRX. cbn [world trace err].
  destruct (watcher_TotalRX stream w2) as [n w3]. cbn [world trace err].
  destruct (zfs_Set (Local m) "readonly" "on" w3) as [e3 w4].
  eexists true, _, [_; _; _]. split; [reflexivity|]. cbn [trace].
  split; [by rewrite <- !app_assoc|]. right. right. split; [done|]. by exists n.
Qed.

(** C5. A filesystem whose diff is AllRight, under the MostRecent policy:
    when [v] is the last version of [diff.MRCAPathRight] that is a
    snapshot (only bookmarks follow it), the initial transfers the run
    requests are exactly one, for [v] on the remote path; when the list
    holds no snapshot, the run returns false and has called nothing. *)
Theorem initial_sync_requests_latest_snapshot (m : RemoteLocalMapping)
    (localState : FilesystemState) (diff : FilesystemDiff) (st : RunState World) :
  DiffConflict diff = ConflictAllRight ->
  exists res st' new,
    replicate InitialReplPolicyMostRecent m localState diff st = (res, st') /\
    trace st' = trace st ++ new /\
    (forall pre v post,
       MRCAPathRight diff = pre ++ v :: post ->
       Typ v = Snapshot -> Forall (fun x => Typ x = Bookmark) post ->
       initial_requests new = [mkInitialRequest (Remote m) v]) /\
    (Forall (fun x => Typ x = Bookmark) (MRCAPathRight diff) ->
     res = Ret false /\ st' = st).
Proof.
  intros Hc. unfold Cmd.replicate. rewrite Hc. cbn [is_AllRight negb].
  rewrite andb_false_r.
  pose proof (initialSync_spec m localState diff st) as Hspec.
  destruct (last _) as [v|] eqn:Hlast.
  - destruct Hspec as (ok & st' & rest & Hrun & Htrace & Hrest).
    exists (Ret ok), st', (CallInitialTransfer (mkInitialRequest (Remote m) v) :: rest).
    split; [exact Hrun|]. split; [exact Htrace|]. split.
    + intros pre v' post Hpath Hv' Hpost.
      rewrite Hpath, filter_latest_snapshot, last_snoc in Hlast by done.
      injection Hlast as ->.
      destruct Hrest as [[_ ->] | [[_ ->] | [_ [n ->]]]]; reflexivity.
    + intros Hall. by rewrite filter_no_snapshot in Hlast.
  - exists (Ret false), st, []. rewrite app_nil_r.
    split; [exact Hspec|]. split; [done|]. split; [|done].
    intros pre v post Hpath Hv Hpost.
    rewrite Hpath, filter_latest_snapshot, last_snoc in Hlast by done. done.
Qed.

Lemma elem_of_initial_recvArgs localState :
  "-u"%string ∈ initial_recvArgs localState /\
  ("-F"%string ∈ initial_recvArgs localState <-> Placeholder localState = true).
Proof.
  unfold initial_recvArgs. destruct (Placeholder localState).
  - split; [by left|]. split; [done|]. intros _. right. by left.
  - split; [by left|]. split; [|done].
    intros H. apply list_elem_of_singleton in H. discriminate.
Qed.

(** The initial synchronisation under the MostRecent policy, call by
    call, when the remote side has a snapshot. *)
Lemma initialSync_run m localState diff (st : RunState World) v :
  last (filter (fun v => is_Snapshot v = true) (MRCAPathRight diff)) = Some v ->
  let r := mkInitialRequest (Remote m) v in
  let args := initial_recvArgs localState in
  initialSync InitialReplPolicyMostRecent m localState diff st =
    match remote_InitialTransfer r (world st) with
    | ((_, Some e), w1) =>
        (Ret false, mkRun w1 (trace st ++ [CallInitialTransfer r]) (Some e))
    | ((stream, None), w1) =>
        match zfs_Recv (Local m) stream args w1 with
        | (Some e, w2) =>
            (Ret false,
             mkRun w2 (trace st ++ [CallInitialTransfer r; ZFSRecv (Local m) args])
               (Some e))
        | (None, w2) =>
            match watcher_TotalRX stream w2 with
            | (n, w3) =>
                match zfs_Set (Local m) "readonly" "on" w3 with
                | (e, w4) =>
                    (Ret true,
                     mkRun w4
                       (trace st ++ [CallInitialTransfer r; ZFSRecv (Local m) args;
                                     TotalRX n; ZFSSet (Local m) "readonly" "on"]) e)
                end
            end
        end
    end.
Proof.
  intros Hlast. cbv zeta. unfold Cmd.initialSync. rewrite String.eqb_refl. cbn [negb].
  set (snapsOnly := filter (fun v => is_Snapshot v = true) (MRCAPathRight diff)) in *.
  rewrite last_lookup in Hlast.
  replace (Init.Nat.pred (length snapsOnly)) with (length snapsOnly - 1)%nat in Hlast
    by lia.
  rewrite Hlast. apply lookup_lt_Some in Hlast.
  replace (length snapsOnly <? 1)%nat with false
    by (symmetry; apply Nat.ltb_ge; lia).
  assert (Hargs : (if Placeholder localState then ["-u"%string] ++ ["-F"%string]
                   else ["-u"%string]) = initial_recvArgs localState)
    by (unfold initial_recvArgs; by destruct (Placeholder localState)).
  rewrite Hargs. run_unfold. cbn [world trace err].
  destruct (remote_InitialTransfer _ (world st)) as [[stream [e1|]] w1]; [done|].
  cbn [world trace err].
  destruct (zfs_Recv (Local m) stream (initial_recvArgs localState) w1) as [[e2|] w2].
  { by rewrite <- app_assoc. }
  unfold read_TotalRX. cbn [world trace err].
  destruct (watcher_TotalRX stream w2) as [n w3]. cbn [world trace err].
  destruct (zfs_Set (Local m) "readonly" "on" w3) as [e3 w4].
  by rewrite <- !app_assoc.
Qed.

(** C6. The receives of a run of [replicate].
    An initial transfer is what an AllRight diff gets under the
    MostRecent policy when the remote side has a snapshot.  When the
    InitialTransferRequest for the last snapshot [v] returns a stream
    without error, the call after it is the receive of that stream into
    the local path, with the flags [-u] when the local state is no
    placeholder and [-u -F] when it is one; a failing receive ends the
    run with false and its error, otherwise the run returns true.  No
    other receive is made for an AllRight diff: every receive of the run
    is on the local path with [-u] among its flags, and [-F] among them
    exactly when the local state is a placeholder.  For an Incremental
    diff every receive is on the local path without any flag, so none
    has [-F]. *)
Theorem receive_flags (policy : InitialReplPolicy) (m : RemoteLocalMapping)
    (localState : FilesystemState) (diff : FilesystemDiff) (st : RunState World) :
  exists res st' new,
    replicate policy m localState diff st = (res, st') /\
    trace st' = trace st ++ new /\
    (DiffConflict diff = ConflictAllRight ->
     (policy = InitialReplPolicyMostRecent ->
      forall pre v post stream w1,
        MRCAPathRight diff = pre ++ v :: post ->
        Typ v = Snapshot -> Forall (fun x => Typ x = Bookmark) post ->
        remote_InitialTransfer (mkInitialRequest (Remote m) v) (world st)
          = ((stream, None), w1) ->
        let args := if Placeholder localState then ["-u"; "-F"]%string
                    else ["-u"%string] in
        exists rest,
          new = CallInitialTransfer (mkInitialRequest (Remote m) v)
                  :: ZFSRecv (Local m) args :: rest /\
          match zfs_Recv (Local m) stream args w1 with
          | (Some e, w2) =>
              res = Ret false /\ rest = [] /\
              st' = mkRun w2 (trace st ++ new) (Some e)
          | (None, w2) =>
              res = Ret true /\
              rest = [TotalRX (fst (watcher_TotalRX stream w2));
                      ZFSSet (Local m) "readonly" "on"]
          end) /\
     (forall fs args, (fs, args) ∈ recv_args new ->
        fs = Local m /\ "-u"%string ∈ args /\
        ("-F"%string ∈ args <-> Placeholder localState = true))) /\
    (DiffConflict diff = ConflictIncremental ->
     forall fs args, (fs, args) ∈ recv_args new ->
       fs = Local m /\ args = [] /\ "-F"%string ∉ args).
Proof.
  pose proof (elem_of_initial_recvArgs localState) as [Hu HF].
  (* a run that calls nothing *)
  match goal with |- ?G =>
    assert (Hnone : forall (res : outcome bool) (st' : RunState World),
      replicate policy m localState diff st = (res, st') -> st' = st ->
      (DiffConflict diff = ConflictAllRight -> policy = InitialReplPolicyMostRecent ->
       last (filter (fun v => is_Snapshot v = true) (MRCAPathRight diff)) = None) ->
      G)
  end.
  { intros res st' Hrun -> Hlast. exists res, st, [].
    split; [exact Hrun|]. split; [by rewrite app_nil_r|]. split.
    - intros Hc. split.
      + intros Hpol pre v post stream w1 Hpath Hv Hpost _.
        specialize (Hlast Hc Hpol).
        by rewrite Hpath, filter_latest_snapshot, last_snoc in Hlast.
      + intros ?? H. by apply elem_of_nil in H.
    - intros _ ?? H. by apply elem_of_nil in H. }
  unfold Cmd.replicate in *.
  destruct (Placeholder localState && negb (is_AllRight (DiffConflict diff))) eqn:Hp.
  { apply (Hnone _ _ eq_refl eq_refl).
    intros Hc. rewrite Hc in Hp. cbn in Hp. by rewrite andb_false_r in Hp. }
  destruct (DiffConflict diff) eqn:Hc.
  - (* AllRight *)
    destruct (String.eqb_spec policy InitialReplPolicyMostRecent) as [->|Hpol].
    2:{ apply (Hnone (Panic ("policy '" ++ policy ++ "' not implemented")%string) st);
          [|done|done].
        unfold Cmd.initialSync.
        by replace (policy =? InitialReplPolicyMostRecent)%string with false
          by (symmetry; by apply String.eqb_neq). }
    destruct (last (filter (fun v => is_Snapshot v = true) (MRCAPathRight diff)))
      as [v0|] eqn:Hlast.
    2:{ pose proof (initialSync_spec m localState diff st) as Hspec.
        rewrite Hlast in Hspec. by apply (Hnone _ _ Hspec). }
    pose proof (initialSync_run m localState diff st v0 Hlast) as Hrun.
    cbv zeta in Hrun.
    assert (Hargs : (if Placeholder localState then ["-u"; "-F"]%string
                     else ["-u"%string]) = initial_recvArgs localState) by done.
    assert (Hv0 : forall pre v post,
              MRCAPathRight diff = pre ++ v :: post -> Typ v = Snapshot ->
              Forall (fun x => Typ x = Bookmark) post -> v = v0).
    { intros pre v post Hpath Hv Hpost.
      rewrite Hpath, filter_latest_snapshot, last_snoc in Hlast by done. congruence. }
    set (r := mkInitialRequest (Remote m) v0) in *.
    destruct (remote_InitialTransfer r (world st)) as [[stream0 [e1|]] w1'] eqn:Hreq.
    { (* the request fails *)
      eexists _, _, [CallInitialTransfer r]. split; [exact Hrun|].
      split; [done|]. split; [|intros [=]]. intros _. split.
      - intros _ pre v post stream w1 Hpath Hv Hpost Hcall.
        rewrite (Hv0 pre v post Hpath Hv Hpost) in Hcall. fold r in Hcall.
        congruence.
      - intros ?? H. by apply elem_of_nil in H. }
    destruct (zfs_Recv (Local m) stream0 (initial_recvArgs localState) w1')
      as [[e2|] w2] eqn:Hrecv.
    { (* the receive fails *)
      eexists _, _, [CallInitialTransfer r; ZFSRecv (Local m) (initial_recvArgs localState)].
      split; [exact Hrun|]. split; [done|]. split; [|intros [=]]. intros _. split.
      - intros _ pre v post stream w1 Hpath Hv Hpost Hcall.
        rewrite (Hv0 pre v post Hpath Hv Hpost) in Hcall |- *. fold r in Hcall |- *.
        rewrite Hreq in Hcall. injection Hcall as <- <-.
        cbv zeta. rewrite Hargs, Hrecv. by exists [].
      - intros fs args H. cbn in H.
        apply list_elem_of_singleton in H. by injection H as -> ->. }
    destruct (watcher_TotalRX stream0 w2) as [n w3] eqn:Hrx.
    destruct (zfs_Set (Local m) "readonly" "on" w3) as [e3 w4].
    eexists _, _, [CallInitialTransfer r; ZFSRecv (Local m) (initial_recvArgs localState);
                   TotalRX n; ZFSSet (Local m) "readonly" "on"].
    split; [exact Hrun|]. split; [done|]. split; [|intros [=]]. intros _. split.
    + intros _ pre v post stream w1 Hpath Hv Hpost Hcall.
      rewrite (Hv0 pre v post Hpath Hv Hpost) in Hcall |- *. fold r in Hcall |- *.
      rewrite Hreq in Hcall. injection Hcall as <- <-.
      cbv zeta. rewrite Hargs, Hrecv, Hrx. by eexists.
    + intros fs args H. cbn in H.
      apply list_elem_of_singleton in H. by injection H as -> ->.
  - (* Incremental *)
    unfold Cmd.incrementalSync.
    destruct (length (IncrementalPath diff) <? 2)%nat.
    { run_unfold. eexists _, _, []. split; [reflexivity|].
      split; [by rewrite app_nil_r|]. split; [intros [=]|].
      intros _ ?? H. by apply elem_of_nil in H. }
    destruct (followIncrementalPath_spec m (IncrementalPath diff) 0 st ltac:(lia))
      as (new & ok & rx & st' & Hrun & Htrace & _ & _ & _ & _ & Hargs).
    exists (Ret ok), st', new. run_unfold. rewrite Hrun.
    split; [done|]. split; [done|]. split; [intros [=]|].
    intros _ fs args H. destruct (Hargs fs args H) as [-> ->].
    split; [done|]. split; [done|]. intros H'. by apply elem_of_nil in H'.
  - run_unfold. apply (Hnone _ _ eq_refl eq_refl). intros [=].
  - run_unfold. apply (Hnone _ _ eq_refl eq_refl). intros [=].
Qed.

Abbreviation visit :=
  (visit remote_FilesystemVersions remote_InitialTransfer remote_IncrementalTransfer
     zfs_ListFilesystemVersions zfs_MakeFilesystemDiff zfs_Recv zfs_Set
     zfs_CreatePlaceholderFilesystem watcher_TotalRX).

(** The visitor on a mapped filesystem, once both version lists are there:
    it runs [replicate] on their diff.  For a local filesystem that is
    absent or a placeholder no local versions are listed. *)
Lemma visit_replicates policy replMapping localFilesystemState v m
    (st : RunState World) versions theirVersions w1 w2 listed :
  FilledIn v = false ->
  replMapping !! ToString (Path v) = Some m ->
  match localFilesystemState !! ToString (Local m) with
  | Some (mkState false) =>
      zfs_ListFilesystemVersions (Local m) (world st) = ((versions, None), w1) /\
      listed = [ZFSListFilesystemVersions (Local m)]
  | _ => versions = [] /\ w1 = world st /\ listed = []
  end ->
  remote_FilesystemVersions (mkVersionsRequest (Remote m)) w1
    = ((theirVersions, None), w2) ->
  visit policy replMapping localFilesystemState v st =
    replicate policy m
      (default (mkState false) (localFilesystemState !! ToString (Local m)))
      (zfs_MakeFilesystemDiff versions theirVersions)
      (mkRun w2 (trace st ++ listed ++ [CallFilesystemVersions (mkVersionsRequest (Remote m))])
             None).
Proof.
  intros Hv Hm Hlocal Hremote. unfold Cmd.visit. rewrite Hv, Hm.
  destruct (localFilesystemState !! ToString (Local m)) as [[[|]]|];
    run_unfold; cbn.
  - destruct Hlocal as (-> & -> & ->). by rewrite Hremote.
  - destruct Hlocal as [Hlist ->]. rewrite Hlist. cbn. rewrite Hremote. cbn.
    by rewrite <- app_assoc.
  - destruct Hlocal as (-> & -> & ->). by rewrite Hremote.
Qed.
End PullFacts.

(** C2. A FilesystemVersionsRequest for [tank/secret], which the dataset
    filter denies: the handler lists the versions of the filesystem and
    returns them without error. *)
Theorem versions_request_on_denied_path :
  dsf Demo.handler ["tank"; "secret"] = (false, None) /\
  HandleFilesystemVersionsRequest Demo.zfs_ListFilesystemVersions Demo.ToAbsPath
    Demo.handler (mkVersionsRequest ["tank"; "secret"]) Demo.start
  = (Ret ([Demo.snap "b" 2], None),
     mkRun tt [ZFSListFilesystemVersions ["tank"; "secret"]] None).
Proof. split; reflexivity. Qed.

Lemma initial_transfer_checks_both_filters_witness :
  let r := mkInitialRequest ["tank"; "db"] (Demo.bookmark "c" 3) in
  fsvf Demo.handler (initial_FilesystemVersion r) = (false, None) /\
  exists e,
    HandleInitialTransferRequest Demo.zfs_Send "" Demo.ToAbsPath Demo.handler r Demo.start
    = (Ret ("", Some e), Demo.start).
Proof.
  intros r. split; [reflexivity|].
  apply (proj1 (initial_transfer_checks_both_filters
                  Demo.zfs_Send "" Demo.ToAbsPath Demo.handler r Demo.start)).
  right. reflexivity.
Defined.

Lemma initial_sync_requests_latest_snapshot_witness :
  let a := Demo.snap "a" 1 in
  let b := Demo.snap "b" 2 in
  let c := Demo.bookmark "c" 3 in
  let diff := mkDiff ConflictAllRight [] [a; b; c] [] in
  DiffConflict diff = ConflictAllRight /\
  exists res st' new,
    Demo.replicate InitialReplPolicyMostRecent Demo.db (mkState false) diff Demo.start
      = (res, st') /\
    trace st' = new /\
    initial_requests new = [mkInitialRequest ["tank"; "db"] b].
Proof.
  intros a b c diff. split; [reflexivity|].
  destruct (initial_sync_requests_latest_snapshot
              Demo.remote_InitialTransfer Demo.remote_IncrementalTransfer
              Demo.zfs_Recv Demo.zfs_Set Demo.watcher_TotalRX
              Demo.db (mkState false) diff Demo.start eq_refl)
    as (res & st' & new & Hrun & Htrace & Hreq & _).
  exists res, st', new. split; [exact Hrun|]. split; [exact Htrace|].
  apply (Hreq [a] b [c]); [reflexivity | reflexivity |].
  constructor; [reflexivity | constructor].
Defined.

(** The initial transfer into a placeholder: the receive that follows the
    request has [-u] and [-F]. *)
Lemma receive_flags_witness :
  let a := Demo.snap "a" 1 in
  let b := Demo.snap "b" 2 in
  let c := Demo.bookmark "c" 3 in
  let diff := mkDiff ConflictAllRight [] [a; b; c] [] in
  Demo.remote_InitialTransfer (mkInitialRequest ["tank"; "db"] b) tt
    = (("b"%string, None), tt) /\
  Demo.zfs_Recv ["backup"; "db"] "b" ["-u"; "-F"]%string tt = (None, tt) /\
  exists st',
    Demo.replicate InitialReplPolicyMostRecent Demo.db (mkState true) diff Demo.start
      = (Ret true, st') /\
    trace st' = [CallInitialTransfer (mkInitialRequest ["tank"; "db"] b);
                 ZFSRecv ["backup"; "db"] ["-u"; "-F"]%string;
                 TotalRX 100; ZFSSet ["backup"; "db"] "readonly" "on"].
Proof.
  intros a b c diff. split; [reflexivity|]. split; [reflexivity|].
  destruct (receive_flags
              Demo.remote_InitialTransfer Demo.remote_IncrementalTransfer
              Demo.zfs_Recv Demo.zfs_Set Demo.watcher_TotalRX
              InitialReplPolicyMostRecent Demo.db (mkState true) diff Demo.start)
    as (res & st' & new & Hrun & Htrace & Hinitial & _).
  destruct (Hinitial eq_refl) as [Hrecv _].
  destruct (Hrecv eq_refl [a] b [c] "b"%string tt eq_refl eq_refl
              ltac:(constructor; [reflexivity | constructor]) eq_refl)
    as (rest & Hnew & Hres).
  cbn in Hres. destruct Hres as [-> ->].
  exists st'. split; [exact Hrun|]. rewrite Htrace, Hnew. reflexivity.
Defined.

(** Scenario 1, initial sync: the remote has [@a, @b] and the bookmark
    [#c]; one initial transfer is requested, for [@b], and received with
    [-u]. *)
Example scenario_initial_sync :
  Demo.replicate InitialReplPolicyMostRecent Demo.db (mkState false)
    (mkDiff ConflictAllRight []
       [Demo.snap "a" 1; Demo.snap "b" 2; Demo.bookmark "c" 3] [])
    Demo.start
  = (Ret true,
     mkRun tt
       [CallInitialTransfer (mkInitialRequest ["tank"; "db"] (Demo.snap "b" 2));
        ZFSRecv ["backup"; "db"] ["-u"%string];
        TotalRX 100;
        ZFSSet ["backup"; "db"] "readonly" "on"] None).
Proof. reflexivity. Qed.

(** Scenario 2, placeholder promotion: the local target is a placeholder,
    and the receive gets [-F] too. *)
Example scenario_placeholder :
  trace (snd (Demo.replicate InitialReplPolicyMostRecent Demo.db (mkState true)
                (mkDiff ConflictAllRight [] [Demo.snap "a" 1] []) Demo.start))
  = [CallInitialTransfer (mkInitialRequest ["tank"; "db"] (Demo.snap "a" 1));
     ZFSRecv ["backup"; "db"] ["-u"; "-F"]%string;
     TotalRX 100;
     ZFSSet ["backup"; "db"] "readonly" "on"].
Proof. reflexivity. Qed.

(** Scenario 3, incremental chain: the path [@2, @3, @4] gives the requests
    (2, 3) and (3, 4), each followed by its receive; 200 octets in all. *)
Example scenario_incremental_chain :
  let v2 := Demo.snap "2" 2 in
  let v3 := Demo.snap "3" 3 in
  let v4 := Demo.snap "4" 4 in
  Demo.incrementalSync Demo.db (mkDiff ConflictIncremental [] [] [v2; v3; v4]) Demo.start
  = (Ret (true, 200),
     mkRun tt
       [CallIncrementalTransfer (mkIncrementalRequest ["tank"; "db"] v2 v3);
        ZFSRecv ["backup"; "db"] []; TotalRX 100;
        CallIncrementalTransfer (mkIncrementalRequest ["tank"; "db"] v3 v4);
        ZFSRecv ["backup"; "db"] []; TotalRX 100] None).
Proof. reflexivity. Qed.

(** Scenario 4, in sync: a path of one version asks for nothing. *)
Example scenario_in_sync :
  Demo.incrementalSync Demo.db
    (mkDiff ConflictIncremental [] [] [Demo.snap "2" 2]) Demo.start
  = (Ret (true, 0), Demo.start).
Proof. reflexivity. Qed.
(** ** More facts about the handler *)

Section AclFacts.
Context {World Stream : Type}.
Variable zfs_Send :
  DatasetPath -> FilesystemVersion -> option FilesystemVersion ->
  World -> (Stream * option error) * World.
Variable nilStream : Stream.
Variable ToAbsPath : FilesystemVersion -> DatasetPath -> string.

Abbreviation pullACLCheck := (pullACLCheck ToAbsPath).
Abbreviation HandleIncrementalTransferRequest :=
  (HandleIncrementalTransferRequest zfs_Send nilStream ToAbsPath).

(** X20. [pullACLCheck] fails closed: it returns nil exactly when the dataset
    filter admits the path without error and, for a check with a version,
    the version filter admits the version without error.  A filter that
    returns an error denies, whatever it says besides. *)
Theorem pullACLCheck_fail_closed (h : Handler) (p : DatasetPath)
    (v : option FilesystemVersion) :
  pullACLCheck h p v = None <->
  dsf h p = (true, None) /\ (forall v', v = Some v' -> fsvf h v' = (true, None)).
Proof.
  unfold Cmd.pullACLCheck.
  destruct (dsf h p) as [[|] [e|]]; cbn [negb];
    try (split; [done | by intros [[=] _]]).
  destruct v as [v|]; [|by split; [intros _; split | ]].
  destruct (fsvf h v) as [[|] [e|]] eqn:Hv; cbn [negb].
  - split; [done|]. intros [_ H]. specialize (H v eq_refl). congruence.
  - split; [|done]. intros _. split; [done|]. by intros v' [= <-].
  - split; [done|]. intros [_ H]. specialize (H v eq_refl). congruence.
  - split; [done|]. intros [_ H]. specialize (H v eq_refl). congruence.
Qed.

(** X21. The incremental-transfer handler sends from [From] to [To] when the
    dataset filter admits the path and the version filter admits both
    versions, all without error.  In every other case it returns an
    error with the nil stream and sends nothing: the run's state is as
    before. *)
Theorem incremental_transfer_checks (h : Handler) (r : IncrementalTransferRequest)
    (st : RunState World) :
  let p := incremental_Filesystem r in
  let from := incremental_From r in
  let to := incremental_To r in
  let admitted :=
    dsf h p = (true, None) /\ fsvf h from = (true, None) /\ fsvf h to = (true, None) in
  (admitted ->
   HandleIncrementalTransferRequest h r st =
     call (ZFSSend p from (Some to)) (zfs_Send p from (Some to)) st) /\
  (~ admitted ->
   exists e, HandleIncrementalTransferRequest h r st = (Ret (nilStream, Some e), st)).
Proof.
  intros p from to admitted. subst admitted.
  unfold Cmd.HandleIncrementalTransferRequest, Cmd.pullACLCheck. fold p from to.
  destruct (dsf h p) as [[|] [e1|]]; cbn [negb];
    try (split; [by intros [[=] _] | intros _; by eexists]).
  destruct (fsvf h from) as [[|] [e2|]]; cbn [negb];
    try (split; [by intros (_ & [=] & _) | intros _; by eexists]).
  destruct (fsvf h to) as [[|] [e3|]]; cbn [negb];
    try (split; [by intros (_ & _ & [=]) | intros _; by eexists]).
  split; [done|]. intros H. by destruct H.
Qed.
End AclFacts.

Lemma HandleInitialTransferRequest_path_sends_witness :
  let r := mkInitialRequest ["tank"; "db"] (Demo.bookmark "c" 3) in
  Demo.denySecret (initial_Filesystem r) = (true, None) /\
  HandleInitialTransferRequest_path Demo.zfs_Send "" Demo.denySecret r Demo.start =
    (Ret ("c"%string, None),
     mkRun tt [ZFSSend ["tank"; "db"] (Demo.bookmark "c" 3) None] None).
Proof.
  intros r.
  assert (Hp : Demo.denySecret (initial_Filesystem r) = (true, None)) by reflexivity.
  split; [exact Hp|].
  rewrite (HandleInitialTransferRequest_path_sends Demo.zfs_Send "" Demo.denySecret
             r Demo.start Hp).
  reflexivity.
Defined.

(** ** More facts about the puller *)

Lemma mapFilesystems_acc Map fmt : forall fss rm0 lt0 rm lt,
  mapFilesystems Map fmt fss rm0 lt0 = inr (rm, lt) ->
  lt = lt0 ++ omap (fun fs => fst (Map fs)) fss /\
  Forall (fun fs => snd (Map fs) = None) fss /\
  (forall l, l ∈ lt -> l ∈ lt0 \/
     exists m, rm !! ToString l = Some m /\ ToString (Local m) = ToString l) /\
  (forall k m, rm !! k = Some m -> rm0 !! k = Some m \/
     k = ToString (Local m) /\ Local m ∈ lt /\ Remote m ∈ fss /\
     Map (Remote m) = (Some (Local m), None)) /\
  (forall k, is_Some (rm0 !! k) -> is_Some (rm !! k)).
Proof.
  induction fss as [|fs fss IH]; intros rm0 lt0 rm lt Hrun.
  { cbn in Hrun. injection Hrun as <- <-. rewrite app_nil_r.
    split; [done|]. split; [done|]. split; [by left|]. split; [by left | done]. }
  cbn [mapFilesystems] in Hrun.
  destruct (Map fs) as [localFs [e|]] eqn:Hmap; [done|].
  destruct localFs as [l|].
  - destruct (IH _ _ _ _ Hrun) as (Hlt & Hok & Hadded & Hentries & Hkeep).
    cbn [Local] in *. split; [|split; [|split; [|split]]].
    + simpl. rewrite Hmap. simpl. by rewrite Hlt, <- app_assoc.
    + constructor; [by rewrite Hmap | done].
    + intros l' Hl'. destruct (Hadded l' Hl') as [Hin|Hex]; [|by right].
      apply elem_of_app in Hin as [Hin|Hin]; [by left|].
      apply list_elem_of_singleton in Hin as ->. right.
      destruct (Hkeep (ToString l)) as [m Hm]; [by rewrite lookup_insert_eq|].
      exists m. split; [done|].
      destruct (Hentries _ _ Hm) as [Hold|(Hk & _)]; [|done].
      rewrite lookup_insert_eq in Hold. by injection Hold as <-.
    + intros k m Hm. destruct (Hentries k m Hm) as [Hold|(Hk & Hin & Hfs & Hmp)].
      * destruct (decide (k = ToString l)) as [->|Hne].
        -- rewrite lookup_insert_eq in Hold. injection Hold as <-. right.
           cbn [Local Remote]. split; [done|]. split.
           ++ rewrite Hlt. apply elem_of_app. left. apply elem_of_app. right. by left.
           ++ split; [by left | done].
        -- rewrite lookup_insert_ne in Hold by done. by left.
      * right. split; [done|]. split; [done|]. split; [by right | done].
    + intros k Hk. apply Hkeep. destruct (decide (k = ToString l)) as [->|Hne].
      * by rewrite lookup_insert_eq.
      * by rewrite lookup_insert_ne.
  - destruct (IH _ _ _ _ Hrun) as (Hlt & Hok & Hadded & Hentries & Hkeep).
    split; [|split; [|split; [|split]]].
    + simpl. by rewrite Hmap.
    + constructor; [by rewrite Hmap | done].
    + done.
    + intros k m Hm. destruct (Hentries k m Hm) as [Hold|(Hk & Hin & Hfs & Hmp)];
        [by left|]. right. split; [done|]. split; [done|]. split; [by right | done].
    + done.
Qed.

(** X22. The index [doPull] builds before the walk.  When the loop over the
    remote filesystems ends without error, the paths added to the forest
    are the local paths the mapping gave, in the order of the remote
    list (a remote filesystem mapped to nil is left out).  Every added
    path has an entry in [replMapping] under its string, so the lookup of
    the visitor finds one; and every entry is under the string of its
    local path, for a remote filesystem of the list that the mapping sends
    to this local path. *)
Theorem mapFilesystems_index (Map : DatasetPath -> option DatasetPath * option error)
    (fmt : DatasetPath -> string) (fss : list DatasetPath)
    (rm : gmap string RemoteLocalMapping) (lt : list DatasetPath) :
  mapFilesystems Map fmt fss ∅ [] = inr (rm, lt) ->
  lt = omap (fun fs => fst (Map fs)) fss /\
  (forall l, l ∈ lt ->
     exists m, rm !! ToString l = Some m /\ ToString (Local m) = ToString l) /\
  (forall k m, rm !! k = Some m ->
     k = ToString (Local m) /\ Local m ∈ lt /\ Remote m ∈ fss /\
     Map (Remote m) = (Some (Local m), None)).
Proof.
  intros Hrun.
  destruct (mapFilesystems_acc Map fmt fss ∅ [] rm lt Hrun)
    as (Hlt & _ & Hadded & Hentries & _).
  split; [done|]. split.
  - intros l Hl. destruct (Hadded l Hl) as [Hin|Hex]; [|done].
    by apply elem_of_nil in Hin.
  - intros k m Hm. destruct (Hentries k m Hm) as [Hold|H]; [|done].
    by rewrite lookup_empty in Hold.
Qed.

(** The same, from any index of the loop on. *)
Lemma mapFilesystems_error Map fmt : forall fss rm0 lt0,
  (exists e, mapFilesystems Map fmt fss rm0 lt0 = inl e) <->
  Exists (fun fs => snd (Map fs) <> None) fss.
Proof.
  induction fss as [|fs fss IH]; intros rm0 lt0.
  { cbn. split; [by intros [e [=]] | by intros H%Exists_nil]. }
  cbn [mapFilesystems]. rewrite Exists_cons.
  destruct (Map fs) as [localFs [e|]]; cbn [snd].
  - split; [by left | intros _; by eexists].
  - destruct localFs as [l|]; rewrite IH; split; try tauto; by intros [[]|].
Qed.

Lemma mapFilesystems_index_witness :
  let Map := fun p : DatasetPath =>
    match p with
    | ["tank"; "db"] => (Some ["backup"; "db"], None)
    | _ => (None, None)
    end in
  mapFilesystems Map ToString [["tank"]; ["tank"; "db"]] ∅ []
    = inr ({[ "backup/db" := Demo.db ]}, [["backup"; "db"]]) /\
  exists m, ({[ "backup/db" := Demo.db ]} : gmap string RemoteLocalMapping)
              !! ToString ["backup"; "db"] = Some m /\
            ToString (Local m) = ToString ["backup"; "db"].
Proof.
  intros Map.
  assert (Hrun : mapFilesystems Map ToString [["tank"]; ["tank"; "db"]] ∅ []
                 = inr ({[ "backup/db" := Demo.db ]}, [["backup"; "db"]]))
    by reflexivity.
  split; [exact Hrun|].
  destruct (mapFilesystems_index Map ToString _ _ _ Hrun) as (_ & Hadded & _).
  apply Hadded. by left.
Defined.

(** X23. The loop over the remote filesystems ends with an error exactly when
    the mapping returns an error for one of them. *)
Theorem mapFilesystems_fails_iff (Map : DatasetPath -> option DatasetPath * option error)
    (fmt : DatasetPath -> string) (fss : list DatasetPath) :
  (exists e, mapFilesystems Map fmt fss ∅ [] = inl e) <->
  Exists (fun fs => snd (Map fs) <> None) fss.
Proof. apply mapFilesystems_error. Qed.

Lemma incremental_steps_concern m path ev :
  ev ∈ incremental_steps m path -> concerns m ev.
Proof.
  unfold incremental_steps. intros H.
  apply list_elem_of_In, in_flat_map in H as [[from to] [_ H]].
  destruct H as [<-|[<-|[]]]; reflexivity.
Qed.

Lemma transfers_concern m path new :
  transfers new `prefix_of` incremental_steps m path -> Forall (concerns m) new.
Proof.
  intros [k Hk]. apply Forall_forall. intros ev Hev.
  destruct (is_TotalRX ev) eqn:Hrx; [by destruct ev|].
  apply (incremental_steps_concern m path). rewrite Hk.
  apply elem_of_app. left. unfold transfers. by apply list_elem_of_filter.
Qed.

Section VisitFacts.
Context {World Stream : Type}.
Variable remote_FilesystemVersions :
  FilesystemVersionsRequest -> World -> (list FilesystemVersion * option error) * World.
Variable remote_InitialTransfer :
  InitialTransferRequest -> World -> (Stream * option error) * World.
Variable remote_IncrementalTransfer :
  IncrementalTransferRequest -> World -> (Stream * option error) * World.
Variable zfs_ListFilesystemVersions :
  DatasetPath -> World -> (list FilesystemVersion * option error) * World.
Variable zfs_MakeFilesystemDiff :
  list FilesystemVersion -> list FilesystemVersion -> FilesystemDiff.
Variable zfs_Recv : DatasetPath -> Stream -> list string -> World -> option error * World.
Variable zfs_Set : DatasetPath -> string -> string -> World -> option error * World.
Variable zfs_CreatePlaceholderFilesystem : DatasetPath -> World -> option error * World.
Variable watcher_TotalRX : Stream -> World -> Z * World.

Abbreviation replicate :=
  (replicate remote_InitialTransfer remote_IncrementalTransfer
     zfs_Recv zfs_Set watcher_TotalRX).
Abbreviation visit :=
  (visit remote_FilesystemVersions remote_InitialTransfer remote_IncrementalTransfer
     zfs_ListFilesystemVersions zfs_MakeFilesystemDiff zfs_Recv zfs_Set
     zfs_CreatePlaceholderFilesystem watcher_TotalRX).

Lemma replicate_run policy m localState diff (st : RunState World) :
  exists res st' new,
    replicate policy m localState diff st = (res, st') /\
    trace st' = trace st ++ new /\
    Forall (concerns m) new /\
    ((exists msg, res = Panic msg) <-> replicate_panic_condition policy localState diff) /\
    (forall msg, res = Panic msg -> st' = st).
Proof.
  unfold replicate_panic_condition, Cmd.replicate.
  destruct (Placeholder localState) eqn:Hp; cbn [andb].
  - destruct (DiffConflict diff) eqn:Hc; cbn [is_AllRight negb].
    2,3,4: (eexists _, st, []; run_unfold; split; [reflexivity|];
            rewrite app_nil_r; split; [done|]; split; [done|]; split; [|done];
            split; [intros _; by left | intros _; by eexists]).
    destruct (String.eqb_spec policy InitialReplPolicyMostRecent) as [->|Hpol].
    + pose proof (initialSync_spec remote_InitialTransfer zfs_Recv zfs_Set
                    watcher_TotalRX m localState diff st) as Hspec.
      destruct (last _) as [v|].
      * destruct Hspec as (ok & st' & rest & Hrun & Htrace & Hrest).
        eexists _, st', _. split; [exact Hrun|]. split; [exact Htrace|].
        split; [|split; [|done]].
        -- constructor; [done|].
           destruct Hrest as [[_ ->] | [[_ ->] | [_ [n ->]]]]; repeat constructor.
        -- split; [by intros [? [=]] | by intros [[_ ?]|[_ ?]]].
      * eexists _, st, []. split; [exact Hspec|]. rewrite app_nil_r.
        split; [done|]. split; [done|]. split; [|done].
        split; [by intros [? [=]] | by intros [[_ ?]|[_ ?]]].
    + eexists _, st, []. unfold Cmd.initialSync.
      replace (policy =? InitialReplPolicyMostRecent)%string with false
        by (symmetry; by apply String.eqb_neq).
      cbn [negb]. run_unfold. split; [reflexivity|]. rewrite app_nil_r.
      split; [done|]. split; [done|]. split; [|done].
      split; [intros _; by right | intros _; by eexists].
  - destruct (DiffConflict diff) eqn:Hc.
    + destruct (String.eqb_spec policy InitialReplPolicyMostRecent) as [->|Hpol].
      * pose proof (initialSync_spec remote_InitialTransfer zfs_Recv zfs_Set
                      watcher_TotalRX m localState diff st) as Hspec.
        destruct (last _) as [v|].
        -- destruct Hspec as (ok & st' & rest & Hrun & Htrace & Hrest).
           eexists _, st', _. split; [exact Hrun|]. split; [exact Htrace|].
           split; [|split; [|done]].
           ++ constructor; [done|].
              destruct Hrest as [[_ ->] | [[_ ->] | [_ [n ->]]]]; repeat constructor.
           ++ split; [by intros [? [=]] | by intros [[? _]|[_ ?]]].
        -- eexists _, st, []. split; [exact Hspec|]. rewrite app_nil_r.
           split; [done|]. split; [done|]. split; [|done].
           split; [by intros [? [=]] | by intros [[? _]|[_ ?]]].
      * eexists _, st, []. unfold Cmd.initialSync.
        replace (policy =? InitialReplPolicyMostRecent)%string with false
          by (symmetry; by apply String.eqb_neq).
        cbn [negb]. run_unfold. split; [reflexivity|]. rewrite app_nil_r.
        split; [done|]. split; [done|]. split; [|done].
        split; [intros _; by right | intros _; by eexists].
    + unfold Cmd.incrementalSync.
      destruct (length (IncrementalPath diff) <? 2)%nat.
      { run_unfold. eexists _, st, []. split; [reflexivity|]. rewrite app_nil_r.
        split; [done|]. split; [done|]. split; [|done].
        split; [by intros [? [=]] | by intros [[? _]|[? _]]]. }
      destruct (followIncrementalPath_spec remote_IncrementalTransfer zfs_Recv
                  watcher_TotalRX m (IncrementalPath diff) 0 st ltac:(lia))
        as (new & ok & rx & st' & Hrun & Htrace & Hpre & _).
      exists (Ret ok), st', new. run_unfold. rewrite Hrun.
      split; [done|]. split; [done|]. split; [by eapply transfers_concern|].
      split; [|done]. split; [by intros [? [=]] | by intros [[? _]|[? _]]].
    + run_unfold. eexists _, st, []. split; [reflexivity|]. rewrite app_nil_r.
      split; [done|]. split; [done|]. split; [|done].
      split; [by intros [? [=]] | by intros [[? _]|[? _]]].
    + run_unfold. eexists _, st, []. split; [reflexivity|]. rewrite app_nil_r.
      split; [done|]. split; [done|]. split; [|done].
      split; [by intros [? [=]] | by intros [[? _]|[? _]]].
Qed.

(** X24. [replicate] panics in two cases and in no other: the local filesystem
    is a placeholder and the diff is not AllRight, or the diff is
    AllRight and the policy is not MostRecent.  It panics before it has
    called anything: the run's state is as before.  A run that does not
    panic returns. *)
Theorem replicate_panics_iff (policy : InitialReplPolicy) (m : RemoteLocalMapping)
    (localState : FilesystemState) (diff : FilesystemDiff) (st : RunState World) :
  exists res st',
    replicate policy m localState diff st = (res, st') /\
    ((exists msg, res = Panic msg) <-> replicate_panic_condition policy localState diff) /\
    (forall msg, res = Panic msg -> st' = st).
Proof.
  destruct (replicate_run policy m localState diff st)
    as (res & st' & new & Hrun & _ & _ & Hiff & Hst).
  by exists res, st'.
Qed.

(** X25. What a visit of the walk touches.  On a node that was filled in, it
    does nothing when the path exists locally, and otherwise creates the
    placeholder and nothing else; it returns false only when the creation
    fails.  On a node that was added, it panics when [replMapping] has no
    entry for the path, before any call; with an entry [m], every call it
    makes is on the local path of [m] (zfs) or on the remote path of [m]
    (requests), and it creates no placeholder. *)
Theorem visit_events (policy : InitialReplPolicy)
    (replMapping : gmap string RemoteLocalMapping)
    (localFilesystemState : gmap string FilesystemState)
    (v : DatasetPathVisit) (st : RunState World) :
  exists res st' new,
    visit policy replMapping localFilesystemState v st = (res, st') /\
    trace st' = trace st ++ new /\
    (FilledIn v = true ->
     match localFilesystemState !! ToString (Path v) with
     | Some _ => res = Ret true /\ st' = st
     | None =>
         new = [ZFSCreatePlaceholderFilesystem (Path v)] /\
         res = Ret (bool_decide
                      (fst (zfs_CreatePlaceholderFilesystem (Path v) (world st)) = None))
     end) /\
    (FilledIn v = false ->
     match replMapping !! ToString (Path v) with
     | Some m => Forall (concerns m) new
     | None => (exists msg, res = Panic msg) /\ st' = st
     end).
Proof.
  unfold Cmd.visit. destruct (FilledIn v) eqn:Hf.
  - destruct (localFilesystemState !! ToString (Path v)) eqn:Hl.
    + run_unfold. eexists _, st, []. rewrite app_nil_r. by repeat split.
    + run_unfold. cbn [world trace err].
      destruct (zfs_CreatePlaceholderFilesystem (Path v) (world st)) as [[e|] w];
        eexists _, _, _; (split; [reflexivity|]); cbn [trace fst];
        (split; [reflexivity|]); by split.
  - destruct (replMapping !! ToString (Path v)) as [m|] eqn:Hm.
    2:{ run_unfold. eexists _, st, []. rewrite app_nil_r.
        split; [done|]. split; [done|]. split; [done|]. intros _. split; [by eexists | done]. }
    assert (Hrep : forall localState versions theirVersions pre w,
              Forall (concerns m) pre ->
              exists res st' new,
                replicate policy m localState
                  (zfs_MakeFilesystemDiff versions theirVersions)
                  (mkRun w (trace st ++ pre) None) = (res, st') /\
                trace st' = trace st ++ new /\ Forall (concerns m) new).
    { intros localState versions theirVersions pre w Hpre.
      destruct (replicate_run policy m localState
                  (zfs_MakeFilesystemDiff versions theirVersions)
                  (mkRun w (trace st ++ pre) None))
        as (res & st' & new & Hrun & Htrace & Hnew & _).
      exists res, st', (pre ++ new). split; [done|]. cbn [trace] in Htrace.
      split; [by rewrite Htrace, app_assoc | by apply Forall_app]. }
    assert (Hremote : forall localState versions pre w er,
              Forall (concerns m) pre ->
              exists res st' new,
                (let r := mkVersionsRequest (Remote m) in
                 '(theirVersions, e) ← call (CallFilesystemVersions r)
                                            (remote_FilesystemVersions r);
                 setErr e;;
                 match e with
                 | Some _ => ret false
                 | None =>
                     replicate policy m localState
                       (zfs_MakeFilesystemDiff versions theirVersions)
                 end) (mkRun w (trace st ++ pre) er) = (res, st') /\
                trace st' = trace st ++ new /\ Forall (concerns m) new).
    { intros localState versions pre w er Hpre. cbv zeta. run_unfold.
      cbn [world trace err].
      destruct (remote_FilesystemVersions (mkVersionsRequest (Remote m)) w)
        as [[theirVersions [e|]] w2]; cbn [world trace err].
      - eexists _, _, (pre ++ [_]). split; [reflexivity|]. cbn [trace].
        split; [by rewrite app_assoc|]. apply Forall_app. split; [done|].
        by repeat constructor.
      - rewrite <- app_assoc. apply Hrep. apply Forall_app. split; [done|].
        by repeat constructor. }
    assert (Hgoal : exists res st' new,
              visit policy replMapping localFilesystemState v st = (res, st') /\
              trace st' = trace st ++ new /\ Forall (concerns m) new).
    { unfold Cmd.visit. rewrite Hf, Hm.
      destruct (localFilesystemState !! ToString (Local m)) as [[[|]]|] eqn:Hl;
        cbn [default Placeholder].
      - specialize (Hremote (mkState true) [] [] (world st) (err st) ltac:(done)).
        rewrite app_nil_r in Hremote. destruct st. exact Hremote.
      - run_unfold. cbn.
        destruct (zfs_ListFilesystemVersions (Local m) (world st))
          as [[versions [e|]] w1]; cbn.
        + eexists _, _, [_]. split; [reflexivity|]. cbn [trace].
          split; [done|]. by repeat constructor.
        + exact (Hremote (mkState false) versions [ZFSListFilesystemVersions (Local m)]
                   w1 None ltac:(by repeat constructor)).
      - specialize (Hremote (mkState false) [] [] (world st) (err st) ltac:(done)).
        rewrite app_nil_r in Hremote. destruct st. exact Hremote. }
    unfold Cmd.visit in Hgoal. rewrite Hf, Hm in Hgoal.
    destruct Hgoal as (res & st' & new & Hrun & Htrace & Hnew).
    exists res, st', new. by repeat split.
Qed.

(** X26. A filesystem whose local and remote histories have diverged, or have
    no version in common: the visit lists the local versions, requests the
    remote ones, and stops.  It returns false, it has transferred nothing,
    and the error it leaves for [doPull] to return is nil. *)
Theorem visit_conflict_is_silent (policy : InitialReplPolicy)
    (replMapping : gmap string RemoteLocalMapping)
    (localFilesystemState : gmap string FilesystemState)
    (v : DatasetPathVisit) (m : RemoteLocalMapping) (st : RunState World)
    (versions theirVersions : list FilesystemVersion) (w1 w2 : World) :
  FilledIn v = false ->
  replMapping !! ToString (Path v) = Some m ->
  localFilesystemState !! ToString (Local m) = Some (mkState false) ->
  zfs_ListFilesystemVersions (Local m) (world st) = ((versions, None), w1) ->
  remote_FilesystemVersions (mkVersionsRequest (Remote m)) w1
    = ((theirVersions, None), w2) ->
  DiffConflict (zfs_MakeFilesystemDiff versions theirVersions) = ConflictNoCommonAncestor \/
  DiffConflict (zfs_MakeFilesystemDiff versions theirVersions) = ConflictDiverged ->
  visit policy replMapping localFilesystemState v st =
    (Ret false,
     mkRun w2 (trace st ++ [ZFSListFilesystemVersions (Local m);
                            CallFilesystemVersions (mkVersionsRequest (Remote m))])
           None).
Proof.
  intros Hf Hm Hl Hlist Hremote Hc.
  rewrite (visit_replicates remote_FilesystemVersions remote_InitialTransfer
             remote_IncrementalTransfer zfs_ListFilesystemVersions
             zfs_MakeFilesystemDiff zfs_Recv zfs_Set zfs_CreatePlaceholderFilesystem
             watcher_TotalRX policy replMapping localFilesystemState v m st
             versions theirVersions w1 w2 [ZFSListFilesystemVersions (Local m)]);
    [| done | done | by rewrite Hl | done].
  rewrite Hl. unfold Cmd.replicate. cbn [default Placeholder andb].
  by destruct Hc as [-> | ->].
Qed.

(** X27. An initial synchronisation whose request and receive succeed: the
    visit returns true whatever setting [readonly] returns, and the
    result of setting it is the error left for [doPull] to return. *)
Theorem initial_sync_ignores_readonly (m : RemoteLocalMapping)
    (localState : FilesystemState) (diff : FilesystemDiff) (st : RunState World)
    (pre post : list FilesystemVersion) (v : FilesystemVersion)
    (stream : Stream) (n : Z) (e : option error) (w1 w2 w3 w4 : World) :
  DiffConflict diff = ConflictAllRight ->
  MRCAPathRight diff = pre ++ v :: post ->
  Typ v = Snapshot -> Forall (fun x => Typ x = Bookmark) post ->
  remote_InitialTransfer (mkInitialRequest (Remote m) v) (world st)
    = ((stream, None), w1) ->
  zfs_Recv (Local m) stream (initial_recvArgs localState) w1 = (None, w2) ->
  watcher_TotalRX stream w2 = (n, w3) ->
  zfs_Set (Local m) "readonly" "on" w3 = (e, w4) ->
  replicate InitialReplPolicyMostRecent m localState diff st =
    (Ret true,
     mkRun w4 (trace st ++ [CallInitialTransfer (mkInitialRequest (Remote m) v);
                            ZFSRecv (Local m) (initial_recvArgs localState);
                            TotalRX n;
                            ZFSSet (Local m) "readonly" "on"])
           e).
Proof.
  intros Hc Hpath Hv Hpost Hreq Hrecv Hrx Hset.
  unfold Cmd.replicate. rewrite Hc. cbn [is_AllRight negb]. rewrite andb_false_r.
  unfold Cmd.initialSync. rewrite String.eqb_refl. cbn [negb].
  rewrite Hpath, filter_latest_snapshot by done.
  set (snaps := filter (fun v => is_Snapshot v = true) pre).
  rewrite length_app. cbn [length].
  replace (length snaps + 1 <? 1)%nat with false by (symmetry; apply Nat.ltb_ge; lia).
  replace (length snaps + 1 - 1)%nat with (length snaps + 0)%nat by lia.
  rewrite lookup_app_r, Nat.add_comm by lia. cbn [Nat.add].
  rewrite Nat.sub_diag. cbn [lookup list_lookup].
  assert (Hargs : (if Placeholder localState then ["-u"%string] ++ ["-F"%string]
                   else ["-u"%string]) = initial_recvArgs localState)
    by (unfold initial_recvArgs; by destruct (Placeholder localState)).
  rewrite Hargs. run_unfold. unfold read_TotalRX. cbn [world trace err].
  rewrite Hreq. cbn [world trace err]. rewrite Hrecv. cbn [world trace err].
  rewrite Hrx. cbn [world trace err]. rewrite Hset. cbn [world trace err].
  by rewrite <- !app_assoc.
Qed.
End VisitFacts.

Section RegisterFacts.
Context {St Value : Type}.
Variable Implements_error : Dispatch.reflect_Type -> bool.
Variable Type_String : Dispatch.reflect_Type -> string.
Variable zeroValue : @Dispatch.handler_func St Value.
Variable callFilesystems callVersions callInitial callIncremental :
  @Dispatch.handler_func St Value.

Abbreviation registerEndpoints :=
  (registerEndpoints Implements_error Type_String zeroValue
     callFilesystems callVersions callInitial callIncremental).

Lemma server_RegisterEndpoint_accepts
    (s : @Dispatch.Server St Value (option Dispatch.reflect_Type))
    (name : string) (e0 e1 : Dispatch.reflect_Type) (f : @Dispatch.handler_func St Value) :
  Implements_error Dispatch.errInterfaceType = true ->
  Dispatch.endpoints s !! name = None ->
  server_RegisterEndpoint Implements_error Type_String zeroValue s name
    (Dispatch.FuncOf [Dispatch.PtrTo e0; Dispatch.PtrTo e1] [Dispatch.errInterfaceType]) f
  = (None,
     Dispatch.mkServer
       (<[name := Dispatch.mkEndpointDescr
                    (Dispatch.mkTypeMap (Some (Dispatch.PtrTo e0))
                       Dispatch.DataTypeMarshaledJSON)
                    (Dispatch.mkTypeMap (Some (Dispatch.PtrTo e1))
                       (if Dispatch.typeIsIOReaderPtr (Dispatch.PtrTo e1)
                        then Dispatch.DataTypeOctets
                        else Dispatch.DataTypeMarshaledJSON))
                    f]> (Dispatch.endpoints s))).
Proof.
  intros Herr Hfree.
  unfold server_RegisterEndpoint, Dispatch.RegisterHandler, Dispatch.RegisterEndpoint.
  rewrite Hfree. unfold Dispatch.makeEndpointDescr. cbn. by rewrite Herr.
Qed.

(** X28. Registering the handler on a new server.  None of the four
    registrations fails; the server has the four endpoints and no other;
    each takes JSON, the two list endpoints return JSON and the two
    transfer endpoints return octets.  On a server that has the
    endpoints already, [registerEndpoints] panics at the first. *)
Theorem registerEndpoints_on_new_server :
  Implements_error Dispatch.errInterfaceType = true ->
  exists s,
    registerEndpoints Dispatch.NewServer = Ret (None, s) /\
    (forall name, is_Some (Dispatch.endpoints s !! name) <->
       name ∈ ["FilesystemRequest"; "FilesystemVersionsRequest";
               "InitialTransferRequest"; "IncrementalTransferRequest"]%string) /\
    (forall name ep, Dispatch.endpoints s !! name = Some ep ->
       Dispatch.proto (Dispatch.inType ep) = Dispatch.DataTypeMarshaledJSON /\
       Dispatch.proto (Dispatch.outType ep) =
         (if bool_decide (name ∈ ["InitialTransferRequest";
                                  "IncrementalTransferRequest"]%string)
          then Dispatch.DataTypeOctets else Dispatch.DataTypeMarshaledJSON)) /\
    registerEndpoints s =
      Panic "already set up an endpoint for 'FilesystemRequest'".
Proof.
  intros Herr. unfold Cmd.registerEndpoints, Dispatch.NewServer.
  unfold HandleFilesystemRequest_type, HandleFilesystemVersionsRequest_type,
    HandleInitialTransferRequest_type, HandleIncrementalTransferRequest_type.
  rewrite server_RegisterEndpoint_accepts; [| done | apply lookup_empty].
  rewrite server_RegisterEndpoint_accepts; [| done |].
  2:{ cbn [Dispatch.endpoints]. by rewrite lookup_insert_ne, lookup_empty. }
  rewrite server_RegisterEndpoint_accepts; [| done |].
  2:{ cbn [Dispatch.endpoints]. by rewrite !lookup_insert_ne, lookup_empty. }
  rewrite server_RegisterEndpoint_accepts; [| done |].
  2:{ cbn [Dispatch.endpoints]. by rewrite !lookup_insert_ne, lookup_empty. }
  eexists. split; [reflexivity|]. cbn [Dispatch.endpoints]. split; [|split].
  - intros name. rewrite !lookup_insert_is_Some', lookup_empty.
    rewrite !elem_of_cons, elem_of_nil. split.
    + intros [<-|[<-|[<-|[<-|[x [=]]]]]]; tauto.
    + intros [->|[->|[->|[->|[]]]]]; tauto.
  - intros name ep H.
    repeat (apply lookup_insert_Some in H as [[<- <-]|[_ H]];
            [split; reflexivity|]).
    by rewrite lookup_empty in H.
  - unfold server_RegisterEndpoint, Dispatch.RegisterHandler, Dispatch.RegisterEndpoint.
    cbn [Dispatch.endpoints]. rewrite !lookup_insert_ne by done.
    by rewrite lookup_insert_eq.
Qed.
End RegisterFacts.

Lemma visit_conflict_is_silent_witness :
  let replMapping : gmap string RemoteLocalMapping := {[ "backup/db" := Demo.db ]} in
  let localState : gmap string FilesystemState := {[ "backup/db" := mkState false ]} in
  let v := mkVisit ["backup"; "db"] false in
  DiffConflict (DemoVisit.zfs_MakeFilesystemDiff
                  [Demo.snap "b" 2] [Demo.snap "a" 1; Demo.snap "c" 3])
    = ConflictDiverged /\
  DemoVisit.visit InitialReplPolicyMostRecent replMapping localState v Demo.start =
    (Ret false,
     mkRun tt [ZFSListFilesystemVersions ["backup"; "db"];
               CallFilesystemVersions (mkVersionsRequest ["tank"; "db"])] None).
Proof.
  intros replMapping localState v. split; [reflexivity|].
  apply (visit_conflict_is_silent DemoVisit.remote_FilesystemVersions
           Demo.remote_InitialTransfer Demo.remote_IncrementalTransfer
           Demo.zfs_ListFilesystemVersions DemoVisit.zfs_MakeFilesystemDiff
           Demo.zfs_Recv Demo.zfs_Set DemoVisit.zfs_CreatePlaceholderFilesystem
           Demo.watcher_TotalRX InitialReplPolicyMostRecent replMapping localState v
           Demo.db Demo.start [Demo.snap "b" 2] [Demo.snap "a" 1; Demo.snap "c" 3] tt tt);
    [reflexivity | reflexivity | reflexivity | reflexivity | reflexivity
    | right; reflexivity].
Defined.

Lemma initial_sync_ignores_readonly_witness :
  let diff := mkDiff ConflictAllRight [] [Demo.snap "a" 1; Demo.bookmark "c" 3] [] in
  DemoVisit.zfs_Set ["backup"; "db"] "readonly" "on" tt
    = (Some (Errorf "cannot set property"), tt) /\
  replicate Demo.remote_InitialTransfer Demo.remote_IncrementalTransfer
    Demo.zfs_Recv DemoVisit.zfs_Set Demo.watcher_TotalRX
    InitialReplPolicyMostRecent Demo.db (mkState false) diff Demo.start =
    (Ret true,
     mkRun tt [CallInitialTransfer (mkInitialRequest ["tank"; "db"] (Demo.snap "a" 1));
               ZFSRecv ["backup"; "db"] ["-u"%string];
               TotalRX 100;
               ZFSSet ["backup"; "db"] "readonly" "on"]
           (Some (Errorf "cannot set property"))).
Proof.
  intros diff. split; [reflexivity|].
  apply (initial_sync_ignores_readonly Demo.remote_InitialTransfer
           Demo.remote_IncrementalTransfer Demo.zfs_Recv DemoVisit.zfs_Set
           Demo.watcher_TotalRX Demo.db (mkState false) diff Demo.start
           [] [Demo.bookmark "c" 3] (Demo.snap "a" 1) "a"%string 100
           (Some (Errorf "cannot set property")) tt tt tt tt);
    [reflexivity | reflexivity | reflexivity | | reflexivity | reflexivity
    | reflexivity | reflexivity].
  constructor; [reflexivity | constructor].
Defined.

Lemma registerEndpoints_on_new_server_witness :
  let implements := fun t => Dispatch.typeIsIOReader t || negb (Dispatch.typeIsIOReader t) in
  implements Dispatch.errInterfaceType = true /\
  exists s,
    registerEndpoints implements (fun _ => ""%string)
      Dispatch.echoHandler Dispatch.echoHandler Dispatch.echoHandler
      Dispatch.echoHandler Dispatch.echoHandler Dispatch.NewServer = Ret (None, s) /\
    is_Some (Dispatch.endpoints s !! "InitialTransferRequest").
Proof.
  intros implements.
  assert (H : implements Dispatch.errInterfaceType = true) by reflexivity.
  split; [exact H|].
  destruct (registerEndpoints_on_new_server implements (fun _ => ""%string)
              Dispatch.echoHandler Dispatch.echoHandler Dispatch.echoHandler
              Dispatch.echoHandler Dispatch.echoHandler H)
    as (s & Hrun & Hnames & _).
  exists s. split; [exact Hrun|]. apply Hnames.
  apply elem_of_cons. right. apply elem_of_cons. right. by left.
Defined.

End Cmd.

Module Daemon.

(** ** The loop of the daemon (cmd/daemon.go)

    [Daemon.Loop] starts a goroutine for every job of the configuration
    and then waits in a [select]: for a job that reports on [finishs]
    that it has finished, or for a signal on [sigChan]. *)
Inductive message : Type :=
  | Finished (jobName : string)
  | Signal (sig : string).

(** The [select] loop, [inbox] being what the two channels deliver, in
    the order in which [select] takes it, and [jobs] being
    [len(d.conf.Jobs)].  The result: how often [cancel()] was called,
    and what was not received when the loop was unread; [None] when the
    loop still waits after the last message. *)
Fixpoint Loop_select (jobs : Z) (finishCount : Z) (inbox : list message)
  : nat * option (list message) :=
  match inbox with
  | [] => (O, None)
  | Finished _ :: inbox' =>
      let finishCount := wrap_int (finishCount + 1) in
      if finishCount =? jobs then (O, Some inbox')
      else Loop_select jobs finishCount inbox'
  | Signal _ :: inbox' =>
      let '(cancels, unread) := Loop_select jobs finishCount inbox' in
      (S cancels, unread)
  end.

(** The jobs that report in a run of messages, and the signals in it. *)
Definition is_Finished (m : message) : bool :=
  match m with Finished _ => true | Signal _ => false end.
Definition finished (inbox : list message) : Z :=
  Z.of_nat (length (filter (fun m => is_Finished m = true) inbox)).
Definition signals (inbox : list message) : nat :=
  length (filter (fun m => is_Finished m = false) inbox).

Lemma finished_cons m inbox :
  finished (m :: inbox) =
    match m with Finished _ => 1 + finished inbox | Signal _ => finished inbox end.
Proof.
  unfold finished. destruct m.
  - rewrite filter_cons_True by done. cbn [length]. lia.
  - by rewrite filter_cons_False by done.
Qed.

Lemma signals_cons m inbox :
  signals (m :: inbox) =
    match m with Signal _ => S (signals inbox) | Finished _ => signals inbox end.
Proof.
  unfold signals. destruct m.
  - by rewrite filter_cons_False by done.
  - by rewrite filter_cons_True by done.
Qed.

Lemma finished_nonneg inbox : 0 <= finished inbox.
Proof. unfold finished. lia. Qed.

Lemma Loop_select_run jobs : forall inbox c,
  0 <= c -> c + finished inbox <= jobs -> jobs < 2 ^ 63 ->
  match snd (Loop_select jobs c inbox) with
  | Some unread =>
      c < jobs /\ c + finished inbox = jobs /\
      exists received j, inbox = received ++ Finished j :: unread /\
        finished unread = 0 /\
        fst (Loop_select jobs c inbox) = signals received
  | None =>
      (c = jobs \/ c + finished inbox < jobs) /\
      fst (Loop_select jobs c inbox) = signals inbox
  end.
Proof.
  induction inbox as [|m inbox IH]; intros c Hc Hle Hjobs.
  { cbn. unfold finished in *. cbn in *. split; [lia | done]. }
  rewrite finished_cons in Hle. destruct m as [j|sig].
  - cbn [Loop_select]. pose proof (finished_nonneg inbox) as Hf.
    rewrite Rpc.wrap_int_small by lia.
    destruct (Z.eqb_spec (c + 1) jobs) as [Heq|Hne].
    + cbn [snd fst]. split; [lia|]. rewrite finished_cons. split; [lia|].
      exists [], j. split; [done|]. split; [lia | done].
    + specialize (IH (c + 1) ltac:(lia) ltac:(lia) Hjobs).
      destruct (snd (Loop_select jobs (c + 1) inbox)) as [unread|].
      * destruct IH as (Hlt & Hsum & received & j' & -> & Hleft & Hsig).
        split; [lia|]. rewrite finished_cons. split; [lia|].
        exists (Finished j :: received), j'. split; [done|]. split; [done|].
        by rewrite signals_cons.
      * destruct IH as [Hor Hsig]. rewrite finished_cons, signals_cons.
        split; [lia | done].
  - cbn [Loop_select]. specialize (IH c Hc Hle Hjobs).
    destruct (Loop_select jobs c inbox) as [cancels [unread|]]; cbn [fst snd] in *.
    + destruct IH as (Hlt & Hsum & received & j' & -> & Hleft & Hsig).
      split; [lia|]. rewrite finished_cons. split; [lia|].
      exists (Signal sig :: received), j'. split; [done|]. split; [done|].
      rewrite signals_cons. by f_equal.
    + destruct IH as [Hor Hsig]. rewrite finished_cons, signals_cons.
      split; [lia | by f_equal].
Qed.

(** X29. The daemon leaves its loop with the report of the last job, and for no
    other reason.  When no job reports more than once, the loop is unread
    exactly when there is a job and all jobs have reported, at the report
    that completes the count; a signal cancels the jobs and never ends
    the loop, and [cancel()] is called once for every signal received.
    With no job in the configuration the loop is never unread. *)
Theorem Loop_ends_with_last_job (jobs : Z) (inbox : list message) :
  0 <= jobs < 2 ^ 63 -> finished inbox <= jobs ->
  ((exists unread, snd (Loop_select jobs 0 inbox) = Some unread) <->
   0 < jobs /\ finished inbox = jobs) /\
  (forall unread, snd (Loop_select jobs 0 inbox) = Some unread ->
     exists received j, inbox = received ++ Finished j :: unread /\
       fst (Loop_select jobs 0 inbox) = signals received) /\
  (snd (Loop_select jobs 0 inbox) = None ->
   fst (Loop_select jobs 0 inbox) = signals inbox).
Proof.
  intros [Hj0 Hj] Hle.
  pose proof (Loop_select_run jobs inbox 0 ltac:(lia) ltac:(lia) Hj) as Hrun.
  destruct (snd (Loop_select jobs 0 inbox)) as [unread|].
  - destruct Hrun as (Hlt & Hsum & received & j & Hin & _ & Hsig).
    split; [|split; [|done]].
    + split; [intros _; lia | intros _; by eexists].
    + intros unread' [= <-]. by exists received, j.
  - destruct Hrun as [Hor Hsig]. split; [|split; [done | done]].
    split; [by intros [? [=]] | lia].
Qed.

Lemma Loop_ends_with_last_job_witness :
  let inbox := [Finished "snap"; Signal "interrupt"; Finished "pull"; Signal "terminated"] in
  finished inbox <= 2 /\
  Loop_select 2 0 inbox = (1%nat, Some [Signal "terminated"]) /\
  exists unread, snd (Loop_select 2 0 inbox) = Some unread.
Proof.
  intros inbox.
  assert (Hle : finished inbox <= 2) by (by vm_compute).
  split; [exact Hle|]. split; [reflexivity|].
  destruct (Loop_ends_with_last_job 2 inbox ltac:(lia) Hle) as [Hiff _].
  apply Hiff. split; [lia | reflexivity].
Defined.

End Daemon.
